(** * Crawl-and-extract engine of the [plugin-basic] Selenium actions

    A shallow embedding of [seleniumflexibleAction.ts] (and of the
    handle-validation routine it shares with [seleniumProfilesAction.ts]):
    the retry wrapper, the pattern extractor, the frontier crawler, the
    profile-validation cache, the validation of synthesized patterns and the
    top-level handler.

    The browser, the language model and the runtime settings are an
    environment that answers every capability call; its answer may depend on
    everything that was called before.  The program state keeps the
    chronological list of capability calls, so that statements about
    "no navigation", "no further attempt" or "no browser session" are
    statements about that list. *)

From Stdlib Require Import Ascii String ZArith QArith Qcanon Lia.
From stdpp Require Import base option strings gmap numbers list.

Set Warnings "-register-all".
Open Scope string_scope.

(** ** JavaScript values *)

(** The values that flow through the extraction pipeline.  Objects and
    promises are references: two of them are the same value exactly when
    they are the same reference. *)
Inductive JsValue :=
| JsUndefined
| JsNull
| JsBool (b : bool)
| JsNum (q : Qc)
| JsNaN
| JsStr (s : string)
| JsObject (ref : nat)
| JsPromise (ref : nat).

#[global] Instance JsValue_eq_dec : EqDecision JsValue.
Proof. solve_decision. Defined.

(** [ToBoolean]: what [if (v)], [!v] and [v || w] test. *)
Definition truthy (v : JsValue) : bool :=
  match v with
  | JsUndefined | JsNull | JsNaN => false
  | JsBool b => b
  | JsNum q => negb (bool_decide (q = 0%Qc))
  | JsStr s => negb (String.eqb s EmptyString)
  | JsObject _ | JsPromise _ => true
  end.

(** ** JavaScript [Set]: insertion ordered, no duplicates *)

Section JsSet.
Context {A : Type} `{EqDecision A}.

(** [s.add(v)] *)
Definition set_add (v : A) (s : list A) : list A :=
  if decide (v ∈ s) then s else s ++ [v].

(** [new Set(iterable)] *)
Definition new_Set (l : list A) : list A :=
  foldl (λ s v, set_add v s) [] l.

(** [l.forEach(v => s.add(v))] *)
Definition set_add_all (l : list A) (s : list A) : list A :=
  foldl (λ s v, set_add v s) s l.

(** [Array.from(s)] *)
Definition Array_from (s : list A) : list A := s.
End JsSet.

(** ** Thrown values *)

Record JsError := { name : string; message : string }.

#[global] Instance JsError_eq_dec : EqDecision JsError.
Proof. solve_decision. Defined.

Inductive Exn :=
| ThrownUndefined
| ThrownError (e : JsError).

#[global] Instance Exn_eq_dec : EqDecision Exn.
Proof. solve_decision. Defined.

Definition TypeError (msg : string) : JsError :=
  {| name := "TypeError"; message := msg |}.
Definition Error (msg : string) : JsError :=
  {| name := "Error"; message := msg |}.

(** ** The capability interface *)

Definition Element := nat.

Inductive WebDriver : Set := Session.

#[global] Instance WebDriver_eq_dec : EqDecision WebDriver.
Proof. solve_decision. Defined.

(** What the handler hands to its callback besides the text. *)
Inductive Content :=
| ErrorContent (error : string)
| ResultsContent (websiteUrl : string) (results : list (string * list JsValue)).

#[global] Instance Content_eq_dec : EqDecision Content.
Proof. solve_decision. Defined.

Inductive Cmd :=
| SetupWebDriver
| Quit
| Get (url : string)
| WaitElementLocated (locator : string) (timeout : Z)
| WaitElementIsVisible (el : Element) (timeout : Z)
| Sleep (ms : Z)
| SetTimeout (ms : Z)
| FindElements (css : string)
| FindElement (locator : string)
| GetPageSource
| GetText (el : Element)
| GetAttribute (el : Element) (attribute : string)
| IsDisplayed (el : Element)
| Click (el : Element)
| ExecuteScript (script : string) (args : list Element)
| Refresh
| GetWindowHandle
| GetAllWindowHandles
| SwitchToWindow (handle : option string)
| Close
| GenerateText (context : string)
| GetSetting (key : string)
| RegExpTest (source : string) (text : string)
| Callback (text : string) (content : Content).

#[global] Instance Cmd_eq_dec : EqDecision Cmd.
Proof. solve_decision. Defined.

(** What each call answers when it does not throw. *)
Definition resp (c : Cmd) : Type :=
  match c with
  | SetupWebDriver => WebDriver
  | FindElements _ => list Element
  | FindElement _ => Element
  | GetPageSource => string
  | GetText _ => string
  | GetAttribute _ _ => option string
  | IsDisplayed _ => bool
  | ExecuteScript _ _ => JsValue
  | GetWindowHandle => string
  | GetAllWindowHandles => list string
  | GenerateText _ => option string
  | GetSetting _ => option string
  | RegExpTest _ _ => bool
  | _ => unit
  end.

Inductive Reply (A : Type) :=
| Resolve (a : A)
| Reject (e : JsError).
Arguments Resolve {A} a.
Arguments Reject {A} e.

(** The environment: the answer to a call, given the calls made so far. *)
Definition Env := ∀ (h : list Cmd) (c : Cmd), Reply (resp c).

(** ** Program state and the monad of the program *)

Record St := {
  history : list Cmd;
  validatedProfiles : gmap string bool;
  TWITTER_TARGET_USERS : option string;
  nextObject : nat
}.

Definition with_history (h : list Cmd) (s : St) : St :=
  {| history := h; validatedProfiles := validatedProfiles s;
     TWITTER_TARGET_USERS := TWITTER_TARGET_USERS s;
     nextObject := nextObject s |}.
Definition with_validatedProfiles (m : gmap string bool) (s : St) : St :=
  {| history := history s; validatedProfiles := m;
     TWITTER_TARGET_USERS := TWITTER_TARGET_USERS s;
     nextObject := nextObject s |}.
Definition with_TWITTER_TARGET_USERS (v : option string) (s : St) : St :=
  {| history := history s; validatedProfiles := validatedProfiles s;
     TWITTER_TARGET_USERS := v;
     nextObject := nextObject s |}.
Definition with_nextObject (n : nat) (s : St) : St :=
  {| history := history s; validatedProfiles := validatedProfiles s;
     TWITTER_TARGET_USERS := TWITTER_TARGET_USERS s;
     nextObject := n |}.

Inductive Outcome (A : Type) :=
| Returned (a : A)
| Thrown (e : Exn)
| OutOfFuel.
Arguments Returned {A} a.
Arguments Thrown {A} e.
Arguments OutOfFuel {A}.

(** A computation of a function whose mutable local variables have type
    [L]: it sees and updates its locals and the program state, and returns,
    throws, or exhausts the fuel of an enclosing [while]. *)
Definition M (L A : Type) : Type := L → St → Outcome A * L * St.

Definition ret {L A} (a : A) : M L A := λ l s, (Returned a, l, s).

Definition bind {L A B} (m : M L A) (k : A → M L B) : M L B :=
  λ l s,
    match m l s with
    | (Returned a, l', s') => k a l' s'
    | (Thrown e, l', s') => (Thrown e, l', s')
    | (OutOfFuel, l', s') => (OutOfFuel, l', s')
    end.

Definition throw {L A} (e : Exn) : M L A := λ l s, (Thrown e, l, s).

(** [try { body } catch (error) { handler error }] *)
Definition try_catch {L A} (body : M L A) (handler : Exn → M L A) : M L A :=
  λ l s,
    match body l s with
    | (Thrown e, l', s') => handler e l' s'
    | r => r
    end.

(** [try { body } finally { cleanup }] *)
Definition try_finally {L A} (body : M L A) (cleanup : M L unit) : M L A :=
  λ l s,
    match body l s with
    | (OutOfFuel, l', s') => (OutOfFuel, l', s')
    | (r, l', s') =>
        match cleanup l' s' with
        | (Returned _, l'', s'') => (r, l'', s'')
        | (Thrown e, l'', s'') => (Thrown e, l'', s'')
        | (OutOfFuel, l'', s'') => (OutOfFuel, l'', s'')
        end
    end.

Definition get_locals {L} : M L L := λ l s, (Returned l, l, s).
Definition set_locals {L} (l' : L) : M L unit := λ _ s, (Returned tt, l', s).
Definition modify_locals {L} (f : L → L) : M L unit :=
  λ l s, (Returned tt, f l, s).
Definition get_state {L} : M L St := λ l s, (Returned s, l, s).
Definition modify_state {L} (f : St → St) : M L unit :=
  λ l s, (Returned tt, l, f s).

(** Calling a function: the callee runs on its own fresh locals; the
    caller's locals are untouched. *)
Definition invoke {L L' A} (init : L') (body : M L' A) : M L A :=
  λ l s, let '(r, _, s') := body init s in (r, l, s').

Declare Scope js_scope.
Delimit Scope js_scope with js.
Notation "x <- m ;; k" := (bind m (λ x, k))
  (at level 100, m at next level, right associativity) : js_scope.
Notation "m ;; k" := (bind m (λ _, k))
  (at level 100, right associativity) : js_scope.
Open Scope js_scope.

(** [while (cond) { body }] with an explicit bound on the iterations. *)
Fixpoint while {L} (fuel : nat) (cond : L → bool) (body : M L unit) : M L unit :=
  λ l s,
    if cond l then
      match fuel with
      | O => (OutOfFuel, l, s)
      | S fuel' => (body ;; while fuel' cond body) l s
      end
    else (Returned tt, l, s).

(** [for (const x of xs) { body x }] *)
Fixpoint for_of {L X} (xs : list X) (body : X → M L unit) : M L unit :=
  match xs with
  | [] => ret tt
  | x :: xs' => body x ;; for_of xs' body
  end.

Section Capabilities.
Variable env : Env.

(** A capability call: the environment answers, the call is recorded. *)
Definition call {L} (c : Cmd) : M L (resp c) :=
  λ l s,
    let s' := with_history (history s ++ [c]) s in
    match env (history s) c with
    | Resolve a => (Returned a, l, s')
    | Reject e => (Thrown (ThrownError e), l, s')
    end.

(** Timers only pass time: recorded, never failing. *)
Definition timer {L} (c : Cmd) : M L unit :=
  λ l s, (Returned tt, l, with_history (history s ++ [c]) s).

(** A method call on a driver that may be [undefined]. *)
Definition on_driver {L} (driver : option WebDriver) (method : string)
    (c : Cmd) : M L (resp c) :=
  match driver with
  | Some _ => call c
  | None =>
      throw (ThrownError (TypeError
        ("Cannot read properties of undefined (reading '" ++ method ++ "')")))
  end.
End Capabilities.

(** ** RetryExecutor: [retryOperation] *)

Section RetryOperation.
Variable env : Env.
Context {L T : Type}.

(** [error.name]; reading a property of [undefined] throws. *)
Definition error_name (error : Exn) : M L string :=
  match error with
  | ThrownError e => ret (name e)
  | ThrownUndefined =>
      throw (ThrownError (TypeError
        "Cannot read properties of undefined (reading 'name')"))
  end.

(** The [for (let i = 0; i < maxRetries; i++)] loop, entered at index [i]
    with [remaining = maxRetries - i] iterations left, followed by the
    final [throw lastError]. *)
Fixpoint retry_from (operation : M L T) (maxRetries : nat) (delay : Z)
    (driver : option WebDriver) (remaining i : nat) (lastError : Exn)
    : M L T :=
  match remaining with
  | O => throw lastError
  | S remaining' =>
      try_catch operation (λ error,
        (* lastError = error *)
        n <- error_name error ;;
        if String.eqb n "StaleElementReferenceError" && bool_decide (is_Some driver)
        then
          call env Refresh ;;
          timer (Sleep delay) ;;
          retry_from operation maxRetries delay driver remaining' (S i) error
        else if Nat.eqb i (maxRetries - 1) then throw error
        else
          timer (SetTimeout delay) ;;
          retry_from operation maxRetries delay driver remaining' (S i) error)
  end.

Definition retryOperation (operation : M L T) (maxRetries : nat) (delay : Z)
    (driver : option WebDriver) : M L T :=
  retry_from operation maxRetries delay driver maxRetries 0 ThrownUndefined.
End RetryOperation.

(** Default arguments [maxRetries = 3], [delay = 1000], no driver. *)
Definition retryOperation_default (env : Env) {L T} (operation : M L T) : M L T :=
  retryOperation env operation 3 1000 None.

(** ** Strings *)

(** A string is the UTF-8 encoding of the text it stands for: an ASCII
    character is one byte, and the patterns below are ASCII or whole
    characters, so that searching and splitting the bytes is searching and
    splitting the text.  The strings whose length the program reads are
    handles, which are ASCII. *)

(** The lower-case letter of [A]-[Z]; the other bytes stay as they are. *)
Definition lower_ascii (c : ascii) : ascii :=
  let n := nat_of_ascii c in
  if (65 <=? n)%nat && (n <=? 90)%nat then ascii_of_nat (n + 32) else c.

(** [s.toLowerCase()], of a text whose capital letters are those of ASCII. *)
Fixpoint toLowerCase (s : string) : string :=
  match s with
  | EmptyString => EmptyString
  | String c s' => String (lower_ascii c) (toLowerCase s')
  end.

(** [s.includes(sub)] *)
Fixpoint includes (s sub : string) : bool :=
  String.prefix sub s ||
  match s with
  | EmptyString => false
  | String _ s' => includes s' sub
  end.

(** [s.split(sep)] for a one-character separator. *)
Fixpoint split_on (sep : ascii) (s : string) : list string :=
  match s with
  | EmptyString => [EmptyString]
  | String c s' =>
      if Ascii.eqb c sep then EmptyString :: split_on sep s'
      else match split_on sep s' with
           | [] => [String c EmptyString]
           | w :: ws => String c w :: ws
           end
  end.

(** [parts.join(sep)] *)
Fixpoint join (sep : string) (parts : list string) : string :=
  match parts with
  | [] => EmptyString
  | [p] => p
  | p :: ps => p ++ sep ++ join sep ps
  end.

(** The UTF-8 encoding of a character of the Basic Multilingual Plane. *)
Definition utf8 (code : N) : string :=
  let byte n := ascii_of_N n in
  if (code <? 128)%N then String (byte code) EmptyString
  else if (code <? 2048)%N then
    String (byte (192 + code / 64)%N)
      (String (byte (128 + code mod 64)%N) EmptyString)
  else
    String (byte (224 + code / 4096)%N)
      (String (byte (128 + (code / 64) mod 64)%N)
         (String (byte (128 + code mod 64)%N) EmptyString)).

(** The white space of [\s] and of [trim()]: U+0009-U+000D, the space,
    U+00A0, U+1680, U+2000-U+200A, U+2028, U+2029, U+202F, U+205F, U+3000
    and U+FEFF. *)
Definition white_space_codes : list N :=
  [9; 10; 11; 12; 13; 32; 160; 5760;
   8192; 8193; 8194; 8195; 8196; 8197; 8198; 8199; 8200; 8201; 8202;
   8232; 8233; 8239; 8287; 12288; 65279]%N.

Definition white_space : list string := map utf8 white_space_codes.

(** The white-space character [s] starts with, if it starts with one. *)
Definition leading_space (s : string) : option string :=
  find (λ w, String.prefix w s) white_space.

Fixpoint drop_string (n : nat) (s : string) : string :=
  match n, s with
  | O, _ => s
  | S n', String _ s' => drop_string n' s'
  | S _, EmptyString => EmptyString
  end.

(** [s.trimStart()]: at most [fuel] characters of white space are removed,
    and a string has no more of them than bytes. *)
Fixpoint trim_start (fuel : nat) (s : string) : string :=
  match fuel with
  | O => s
  | S fuel' =>
      match leading_space s with
      | Some w => trim_start fuel' (drop_string (String.length w) s)
      | None => s
      end
  end.

(** Truthiness of [u.trim()]: something is left of [u] once the white space
    it starts with is removed. *)
Definition trim_nonempty (u : string) : bool :=
  negb (String.eqb (trim_start (String.length u) u) EmptyString).

(** The longest prefix of [s] without white space: [[^\s]*] at its start. *)
Fixpoint take_nonspace (s : string) : string :=
  match s with
  | EmptyString => EmptyString
  | String c s' =>
      match leading_space s with
      | Some _ => EmptyString
      | None => String c (take_nonspace s')
      end
  end.

(** A match of [https?:\/\/[^\s]+] anchored at the start of [s]. *)
Definition url_at (s : string) : option string :=
  let after scheme :=
    let rest := take_nonspace (drop_string (String.length scheme) s) in
    if String.eqb rest EmptyString then None else Some (scheme ++ rest) in
  if String.prefix "https://" s then after "https://"
  else if String.prefix "http://" s then after "http://"
  else None.

(** The leftmost match of the regular expression in [text]. *)
Fixpoint first_url (text : string) : option string :=
  match url_at text with
  | Some u => Some u
  | None =>
      match text with
      | EmptyString => None
      | String _ text' => first_url text'
      end
  end.

(** [extractUrlFromMessage]: [matches ? matches[0] : undefined] for
    [/(https?:\/\/[^\s]+)/g]. *)
Definition extractUrlFromMessage (text : string) : option string :=
  first_url text.

(** ** Patterns *)

(** A regular expression is used through [text.match(regex)] only: [None] is
    [null], otherwise the array of matches (all matches under the [g] flag,
    the match followed by its capture groups without it).  An element of
    that array is a string, or [undefined] ([None]) for a capture group that
    took no part in the match. *)
Record RegExp := {
  source : string;
  str_match : string → option (list (option string))
}.

(** The element of the array of matches as a value. *)
Definition match_value (m : option string) : JsValue :=
  match m with
  | Some text => JsStr text
  | None => JsUndefined
  end.

(** A transform is an ordinary function, or an [async] function: calling the
    latter returns a new promise whatever its body does.  Its first argument
    is an element of the array of matches. *)
Inductive Transform :=
| SyncFunction (f : option string → M unit JsValue)
| AsyncFunction (body : option string → option WebDriver → M unit JsValue).

Record ExtractionConfig := {
  selectors : list string;
  attribute : option string;
  transform : option Transform;
  validate : option (JsValue → M unit bool)
}.

Record DataPattern := {
  pattern_name : string;
  patterns : list RegExp;
  config : ExtractionConfig
}.

(** [a !== b] *)
Definition strict_neq (a b : JsValue) : bool :=
  match a, b with
  | JsNaN, _ | _, JsNaN => true
  | _, _ => negb (bool_decide (a = b))
  end.

(** A fresh reference for an object the program creates. *)
Definition fresh_ref {L} : M L nat :=
  λ l s, (Returned (nextObject s), l, with_nextObject (S (nextObject s)) s).

(** [transform(match)]: only the match is passed.  An [async] transform
    starts its body with an undefined driver and hands back the promise of
    its result; nothing awaits it.  The body is run here up to its end, which
    is where it stops on its own when it never reaches the browser. *)
Definition apply_transform {L} (t : Transform) (m : option string)
    : M L JsValue :=
  match t with
  | SyncFunction f => invoke tt (f m)
  | AsyncFunction body =>
      try_catch (invoke tt (body m None) ;; ret tt) (λ _, ret tt) ;;
      p <- fresh_ref ;;
      ret (JsPromise p)
  end.

Definition apply_validate {L} (v : option (JsValue → M unit bool))
    (value : JsValue) : M L bool :=
  match v with
  | None => ret true
  | Some f => invoke tt (f value)
  end.

(** ** ValidationCache: [validateTwitterUsername] *)

Definition checkProfile_script : string := "return checkProfile();".

Section ValidateTwitterUsername.
Variable env : Env.
Context {L : Type}.

(** The body of the [try] block: the browser-side check. *)
Definition browser_check (username : string) (driver : option WebDriver)
    : M L bool :=
  mainWindow <- on_driver env driver "getWindowHandle" GetWindowHandle ;;
  on_driver env driver "executeScript" (ExecuteScript "window.open()" []) ;;
  windows <- on_driver env driver "getAllWindowHandles" GetAllWindowHandles ;;
  on_driver env driver "switchTo" (SwitchToWindow (last windows)) ;;
  on_driver env driver "get" (Get ("https://x.com/" ++ username)) ;;
  timer (Sleep 2000) ;;
  isValid <- on_driver env driver "executeScript"
               (ExecuteScript checkProfile_script []) ;;
  on_driver env driver "close" Close ;;
  on_driver env driver "switchTo" (SwitchToWindow (Some mainWindow)) ;;
  modify_state (λ s, with_validatedProfiles
                       (<[username := truthy isValid]> (validatedProfiles s)) s) ;;
  ret (truthy isValid).

Definition validateTwitterUsername (username : string)
    (driver : option WebDriver) : M L bool :=
  s <- get_state ;;
  match validatedProfiles s !! username with
  | Some cached => ret (cached || false)
  | None =>
      try_catch (browser_check username driver) (λ error,
        modify_state (λ s, with_validatedProfiles
                             (<[username := false]> (validatedProfiles s)) s) ;;
        ret false)
  end.
End ValidateTwitterUsername.

(** ** PatternExtractor: [extractDataByPattern] *)

Section ExtractDataByPattern.
Variable env : Env.

(** [let value = match; if (transform) value = transform(match);] *)
Definition transformed {L} (pattern : DataPattern) (m : option string)
    : M L JsValue :=
  match transform (config pattern) with
  | Some t => apply_transform t m
  | None => ret (match_value m)
  end.

(** The callback of [matches.forEach]; the locals are the [results] set. *)
Definition process_match (pattern : DataPattern) (m : option string)
    : M (list JsValue) unit :=
  value <- transformed pattern m ;;
  ok <- apply_validate (validate (config pattern)) value ;;
  if ok then modify_locals (set_add value) else ret tt.

Definition process_element (pattern : DataPattern) (element : Element)
    : M (list JsValue) unit :=
  try_catch
    (text <- retryOperation_default env
               match attribute (config pattern) with
               | Some a =>
                   if negb (String.eqb a EmptyString)
                   then call env (GetAttribute element a)
                   else t <- call env (GetText element) ;; ret (Some t)
               | None => t <- call env (GetText element) ;; ret (Some t)
               end ;;
     match text with
     | Some t =>
         if negb (String.eqb t EmptyString) then
           for_of (patterns pattern) (λ regex,
             match str_match regex t with
             | Some matches => for_of matches (process_match pattern)
             | None => ret tt
             end)
         else ret tt
     | None => ret tt
     end)
    (λ error, ret tt).

Definition process_selector (driver : WebDriver) (pattern : DataPattern)
    (selector : string) : M (list JsValue) unit :=
  try_catch
    (elements <- retryOperation env (call env (FindElements selector))
                   3 1000 (Some driver) ;;
     for_of elements (process_element pattern))
    (λ error, ret tt).

Definition extractDataByPattern {L} (driver : WebDriver)
    (pattern : DataPattern) : M L (list JsValue) :=
  invoke (new_Set [])
    (try_catch
       (call env (WaitElementLocated "By.css(body)" 10000) ;;
        for_of (selectors (config pattern)) (process_selector driver pattern))
       (λ error, ret tt) ;;
     results <- get_locals ;;
     ret (Array_from results)).
End ExtractDataByPattern.

(** ** FrontierCrawler: [crawlAndExtract] *)

Record CrawlLocals := {
  results : list JsValue;
  visitedUrls : list string;
  urlsToVisit : list string
}.

Definition add_results (new : list JsValue) (l : CrawlLocals) : CrawlLocals :=
  {| results := set_add_all new (results l);
     visitedUrls := visitedUrls l;
     urlsToVisit := urlsToVisit l |}.

(** [urlsToVisit.shift()] *)
Definition shift : M CrawlLocals (option string) :=
  λ l s,
    (Returned (head (urlsToVisit l)),
     {| results := results l; visitedUrls := visitedUrls l;
        urlsToVisit := tail (urlsToVisit l) |},
     s).

Definition dquote : string := String (ascii_of_nat 34) EmptyString.
Definition newline : string := String (ascii_of_nat 10) EmptyString.

Definition interactive_css : string :=
  "nav a, .nav-link, button:not([disabled]), [role=" ++ dquote ++ "button"
  ++ dquote ++ "]".
Definition outerHTML_script : string :=
  "return document.documentElement.outerHTML".
Definition scrollIntoView_script : string :=
  "arguments[0].scrollIntoView(true)".

Section CrawlAndExtract.
Variable env : Env.

Definition interact (driver : WebDriver) (pattern : DataPattern)
    (element : Element) : M CrawlLocals unit :=
  try_catch
    (isDisplayed <- retryOperation env
                      (call env (WaitElementIsVisible element 5000) ;;
                       call env (IsDisplayed element))
                      3 1000 None ;;
     if negb isDisplayed then ret tt
     else
       beforeState <- call env (ExecuteScript outerHTML_script []) ;;
       retryOperation env
         (call env (ExecuteScript scrollIntoView_script [element]) ;;
          call env (WaitElementIsVisible element 5000) ;;
          call env (Click element))
         3 1000 None ;;
       timer (Sleep 1000) ;;
       afterState <- call env (ExecuteScript outerHTML_script []) ;;
       if strict_neq beforeState afterState then
         newResults <- extractDataByPattern env driver pattern ;;
         modify_locals (add_results newResults)
       else ret tt)
    (λ error, ret tt).

(** The [try] statement of the loop body, for the URL taken off the queue. *)
Definition visit (driver : WebDriver) (pattern : DataPattern)
    (currentUrl : option string) : M CrawlLocals unit :=
  try_catch
    (call env (Get (default "undefined" currentUrl)) ;;
     call env (WaitElementLocated "By.tagName(body)" 10000) ;;
     timer (Sleep 2000) ;;
     pageResults <- retryOperation env
                      (extractDataByPattern env driver pattern)
                      3 1000 (Some driver) ;;
     modify_locals (add_results pageResults) ;;
     interactiveElements <- call env (FindElements interactive_css) ;;
     for_of interactiveElements (interact driver pattern))
    (λ error, ret tt).

(** The body of the [while] loop. *)
Definition crawl_iteration (driver : WebDriver) (pattern : DataPattern)
    : M CrawlLocals unit :=
  currentUrl <- shift ;;
  visit driver pattern currentUrl.

Definition crawl_condition (l : CrawlLocals) : bool :=
  (0 <? length (urlsToVisit l))%nat && (length (visitedUrls l) <? 10)%nat.

Definition crawl_init (baseUrl : string) : CrawlLocals :=
  {| results := new_Set [];
     visitedUrls := new_Set [baseUrl];
     urlsToVisit := [baseUrl] |}.

(** The function body, on its own locals. *)
Definition crawl_body (fuel : nat) (driver : WebDriver)
    (pattern : DataPattern) : M CrawlLocals (list JsValue) :=
  while fuel crawl_condition (crawl_iteration driver pattern) ;;
  l <- get_locals ;;
  ret (Array_from (results l)).

Definition crawlAndExtract {L} (fuel : nat) (driver : WebDriver)
    (baseUrl : string) (pattern : DataPattern) : M L (list JsValue) :=
  invoke (crawl_init baseUrl) (crawl_body fuel driver pattern).
End CrawlAndExtract.

(** ** The built-in twitter pattern *)

Definition twitter_com_selector : string :=
  "a[href*=" ++ dquote ++ "twitter.com" ++ dquote ++ "]".
Definition x_com_selector : string :=
  "a[href*=" ++ dquote ++ "x.com" ++ dquote ++ "]".

Section Twitter.
Variable env : Env.

(** [value.split('/').pop()?.toLowerCase()] *)
Definition twitter_username (value : string) : string :=
  toLowerCase (default EmptyString (last (split_on "/" value))).

(** [[...new Set([...currentUsers, username])].join(',')] on
    [process.env.TWITTER_TARGET_USERS || ''] *)
Definition add_target_user (username : string) (current : option string)
    : string :=
  let currentTargetUsers :=
    match current with
    | Some v => if String.eqb v EmptyString then EmptyString else v
    | None => EmptyString
    end in
  let currentUsers := filter (λ u, trim_nonempty u = true)
                        (split_on "," currentTargetUsers) in
  join "," (new_Set (currentUsers ++ [username])%list).

(** The body of the [async] transform of the twitter pattern. *)
Definition twitter_transform (value : string) (driver : option WebDriver)
    : M unit JsValue :=
  let username := twitter_username value in
  if negb (String.eqb username EmptyString) then
    valid <- validateTwitterUsername env username driver ;;
    if valid then
      modify_state (λ s, with_TWITTER_TARGET_USERS
                           (Some (add_target_user username
                                    (TWITTER_TARGET_USERS s))) s) ;;
      ret (JsStr username)
    else ret JsNull
  else ret JsNull.

(** The transform as [forEach] calls it: on [undefined] the body stops at
    [value.split]. *)
Definition twitter_transform_of (m : option string) (driver : option WebDriver)
    : M unit JsValue :=
  match m with
  | Some value => twitter_transform value driver
  | None =>
      throw (ThrownError (TypeError
        "Cannot read properties of undefined (reading 'split')"))
  end.

Variable twitter_regex : RegExp.

(** [dataPatterns.twitter] *)
Definition twitter : DataPattern :=
  {| pattern_name := "Twitter Profiles";
     patterns := [twitter_regex];
     config :=
       {| selectors := [twitter_com_selector; x_com_selector];
          attribute := None;
          transform := Some (AsyncFunction twitter_transform_of);
          validate := None |} |}.
End Twitter.

(** ** The built-in restaurants pattern *)




(** ** PatternRegistry: synthesized patterns *)

(** The value [JSON.parse] returns, and what [validateAndTransformPattern]
    makes of it: a [JFunction] is the result of [new Function(params, body)]. *)
Inductive Json :=
| JNull
| JBool (b : bool)
| JNumber (q : Qc)
| JString (s : string)
| JArray (items : list Json)
| JObject (fields : list (string * Json))
| JFunction (params : list string) (body : string).

(** Truthiness of a property read; [None] is [undefined]. *)
Definition truthy_prop (v : option Json) : bool :=
  match v with
  | None | Some JNull => false
  | Some (JBool b) => b
  | Some (JNumber q) => negb (bool_decide (q = 0%Qc))
  | Some (JString s) => negb (String.eqb s EmptyString)
  | Some (JArray _) | Some (JObject _) | Some (JFunction _ _) => true
  end.

Fixpoint assoc {V} (key : string) (fields : list (string * V)) : option V :=
  match fields with
  | [] => None
  | (k, v) :: fields' => if String.eqb k key then Some v else assoc key fields'
  end.

(** The keys of an object are listed with the array indices first, in
    ascending order, and the other keys after them, in the order of their
    creation.  An array index is the canonical decimal string of an integer
    below [2^32 - 1]. *)
Fixpoint decimal (s : string) (acc : N) : option N :=
  match s with
  | EmptyString => Some acc
  | String c s' =>
      let n := nat_of_ascii c in
      if (48 <=? n)%nat && (n <=? 57)%nat
      then decimal s' (10 * acc + N.of_nat (n - 48))%N
      else None
  end.

Definition array_index (key : string) : option N :=
  match key with
  | EmptyString => None
  | String c rest =>
      if Ascii.eqb c "0" && negb (String.eqb rest EmptyString) then None
      else match decimal key 0 with
           | Some n => if (n <? 4294967295)%N then Some n else None
           | None => None
           end
  end.

(** The entry of an existing key is replaced in place. *)
Fixpoint replace_key {V} (key : string) (v : V) (fields : list (string * V))
    : list (string * V) :=
  match fields with
  | [] => []
  | (k, w) :: fields' =>
      if String.eqb k key then (k, v) :: fields'
      else (k, w) :: replace_key key v fields'
  end.

(** A new key takes its place: among the array indices, or at the end. *)
Fixpoint insert_key {V} (key : string) (v : V) (fields : list (string * V))
    : list (string * V) :=
  match fields with
  | [] => [(key, v)]
  | (k, w) :: fields' =>
      match array_index key, array_index k with
      | Some n, Some m =>
          if (n <? m)%N then (key, v) :: fields
          else (k, w) :: insert_key key v fields'
      | Some _, None => (key, v) :: fields
      | None, _ => (k, w) :: insert_key key v fields'
      end
  end.

(** [fields[key] = v] *)
Definition assoc_set {V} (key : string) (v : V) (fields : list (string * V))
    : list (string * V) :=
  match assoc key fields with
  | Some _ => replace_key key v fields
  | None => insert_key key v fields
  end.

(** [v.key]: throws on [null], is [undefined] on the other values that are
    not objects. *)
Definition get_prop {L} (v : Json) (key : string) : M L (option Json) :=
  match v with
  | JNull =>
      throw (ThrownError (TypeError
        ("Cannot read properties of null (reading '" ++ key ++ "')")))
  | JObject fields => ret (assoc key fields)
  | _ => ret None
  end.

Definition set_prop (v : Json) (key : string) (x : Json) : Json :=
  match v with
  | JObject fields => JObject (assoc_set key x fields)
  | _ => v
  end.

(** Registry entries: the built-in patterns, and the objects registered at
    run time after [validateAndTransformPattern]. *)
Inductive Entry :=
| BuiltIn (p : DataPattern)
| Synthesized (spec : Json).

(** The [dataPatterns] object: its own properties, in the order in which
    [Object.entries] lists them. *)
Definition Registry := list (string * Entry).

(** The properties every object inherits from [Object.prototype]; each of
    them is a function, or (for [__proto__]) the prototype itself. *)
Definition Object_prototype_properties : list string :=
  ["constructor"; "__defineGetter__"; "__defineSetter__"; "hasOwnProperty";
   "__lookupGetter__"; "__lookupSetter__"; "isPrototypeOf";
   "propertyIsEnumerable"; "toString"; "valueOf"; "__proto__";
   "toLocaleString"].

(** Whether [dataPatterns[key]] is truthy: a registered pattern, or an
    inherited property. *)
Definition has_pattern (key : string) (reg : list (string * Entry)) : bool :=
  bool_decide (is_Some (assoc key reg)) ||
  bool_decide (key ∈ Object_prototype_properties).

(** The prompts, as the template literals of the source spell them. *)
Definition generateDataPattern_prompt (dataType : string) : string :=
  "Create a data extraction pattern for " ++ dquote ++ dataType ++ dquote
  ++ " with the following JSON structure:" ++ newline ++ "{" ++ newline
  ++ "    " ++ dquote ++ "name" ++ dquote ++ ": " ++ dquote
  ++ "Human readable name" ++ dquote ++ "," ++ newline ++ "    " ++ dquote
  ++ "patterns" ++ dquote ++ ": [" ++ dquote
  ++ "Array of regex patterns to match the data" ++ dquote ++ "]," ++ newline
  ++ "    " ++ dquote ++ "config" ++ dquote ++ ": {" ++ newline ++ "        "
  ++ dquote ++ "selectors" ++ dquote ++ ": [" ++ dquote
  ++ "Array of CSS selectors to find elements containing this data" ++ dquote
  ++ "]," ++ newline ++ "        " ++ dquote ++ "transform" ++ dquote ++ ": "
  ++ dquote ++ "Optional transformation logic" ++ dquote ++ "," ++ newline
  ++ "        " ++ dquote ++ "validate" ++ dquote ++ ": " ++ dquote
  ++ "Optional validation logic" ++ dquote ++ newline ++ "    }" ++ newline
  ++ "}" ++ newline ++ "Example for email: {" ++ newline ++ "    " ++ dquote
  ++ "name" ++ dquote ++ ": " ++ dquote ++ "Email Addresses" ++ dquote ++ ","
  ++ newline ++ "    " ++ dquote ++ "patterns" ++ dquote ++ ": [" ++ dquote
  ++ "\b[\w\.-]+@[\w\.-]+\.\w+\b" ++ dquote ++ "]," ++ newline ++ "    "
  ++ dquote ++ "config" ++ dquote ++ ": {" ++ newline ++ "        " ++ dquote
  ++ "selectors" ++ dquote ++ ": [" ++ dquote ++ "a[href^=\" ++ dquote
  ++ "mailto:\" ++ dquote ++ "]" ++ dquote ++ ", " ++ dquote
  ++ "*:contains(@)" ++ dquote ++ "]" ++ newline ++ "    }".

Definition determineDataTypes_prompt (text : string) : string :=
  "What type of data is being requested in: " ++ dquote ++ text ++ dquote
  ++ "? " ++ newline
  ++ "                       Respond with a single word (e.g., email, phone, prices, etc.)".

Section PatternRegistry.
Variable env : Env.
(** [JSON.parse]: [None] when it throws a [SyntaxError]. *)
Variable JSON_parse : string → option Json.
(** Whether [new Function(..., body)] accepts [body]. *)
Variable compiles : string → bool.

(** [if (typeof config[key] === 'string') config[key] = new Function(...)] *)
Definition functionalize {L} (config : Json) (key : string)
    (params : list string) : M L Json :=
  f <- get_prop config key ;;
  match f with
  | Some (JString body) =>
      if compiles body then ret (set_prop config key (JFunction params body))
      else throw (ThrownError {| name := "SyntaxError"; message := body |})
  | _ => ret config
  end.

Definition validateAndTransformPattern {L} (pattern : Json)
    : M L (option Json) :=
  name <- get_prop pattern "name" ;;
  if negb (truthy_prop name) then ret None
  else
    patterns <- get_prop pattern "patterns" ;;
    if negb (truthy_prop patterns) then ret None
    else
      config <- get_prop pattern "config" ;;
      match config with
      | Some config =>
          if negb (truthy_prop (Some config)) then ret None
          else
            config <- functionalize config "transform" ["value"; "driver"] ;;
            config <- functionalize config "validate" ["value"] ;;
            ret (Some (set_prop pattern "config" config))
      | None => ret None
      end.

Definition generateDataPattern {L} (dataType : string) : M L (option Json) :=
  try_catch
    (response <- call env (GenerateText (generateDataPattern_prompt dataType)) ;;
     match response with
     | Some response =>
         match JSON_parse response with
         | Some pattern => validateAndTransformPattern pattern
         | None =>
             throw (ThrownError {| name := "SyntaxError"; message := response |})
         end
     | None =>
         throw (ThrownError (Error "Invalid response format from generateText"))
     end)
    (λ error, ret None).

(** [patterns.some(p => p.test(text))] on compiled regular expressions.
    [test] moves [lastIndex] on a global expression, so its answer is the
    environment's. *)
Fixpoint some_test {L} (ps : list RegExp) (text : string) : M L bool :=
  match ps with
  | [] => ret false
  | p :: ps' =>
      b <- call env (RegExpTest (source p) text) ;;
      if b then ret true else some_test ps' text
  end.

Definition not_a_function {L A} (what : string) : M L A :=
  throw (ThrownError (TypeError (what ++ " is not a function"))).

(** The condition of the classification loop for one registry entry. *)
Definition entry_matches {L} (text key : string) (entry : Entry) : M L bool :=
  if includes text key then ret true
  else
    match entry with
    | BuiltIn p =>
        if includes text (toLowerCase (pattern_name p)) then ret true
        else some_test (patterns p) text
    | Synthesized spec =>
        name <- get_prop spec "name" ;;
        byName <- match name with
                  | Some (JString n) => ret (includes text (toLowerCase n))
                  | _ => not_a_function "pattern.name.toLowerCase"
                  end ;;
        if byName then ret true
        else
          patterns <- get_prop spec "patterns" ;;
          match patterns with
          | Some (JArray []) => ret false
          | Some (JArray (_ :: _)) => not_a_function "p.test"
          | _ => not_a_function "pattern.patterns.some"
          end
    end.

Fixpoint classify {L} (text : string) (entries : Registry) (types : list string)
    : M L (list string) :=
  match entries with
  | [] => ret types
  | (key, entry) :: entries' =>
      b <- entry_matches text key entry ;;
      classify text entries' (if b then (types ++ [key])%list else types)
  end.

(** The locals in scope are the module's [dataPatterns]. *)
Definition determineDataTypes (text : string) : M Registry (list string) :=
  let text := toLowerCase text in
  dataPatterns <- get_locals ;;
  types <- classify text dataPatterns [] ;;
  if Nat.eqb (length types) 0 then
    dataType <- call env (GenerateText (determineDataTypes_prompt text)) ;;
    match dataType with
    | Some dataType =>
        dataPatterns <- get_locals ;;
        if negb (has_pattern dataType dataPatterns) then
          newPattern <- generateDataPattern dataType ;;
          match newPattern with
          | Some newPattern =>
              modify_locals (assoc_set dataType (Synthesized newPattern)) ;;
              ret (types ++ [dataType])%list
          | None => ret types
          end
        else ret types
    | None => ret types
    end
  else ret types.
End PatternRegistry.

(** ** The top-level action: [seleniumflexibleAction.handler] *)

(** The handler's scope: the module's [dataPatterns] and its own [driver]. *)
Record HandlerScope := {
  dataPatterns : Registry;
  driver : option WebDriver
}.

(** A module-level function called from the handler. *)
Definition in_module {A} (m : M Registry A) : M HandlerScope A :=
  λ l s,
    let '(r, reg, s') := m (dataPatterns l) s in
    (r, {| dataPatterns := reg; driver := driver l |}, s').

(** The handler call: [driver] starts out [null]. *)
Definition with_driver_variable {A} (m : M HandlerScope A) : M Registry A :=
  λ reg s,
    let '(r, l, s') := m {| dataPatterns := reg; driver := None |} s in
    (r, dataPatterns l, s').

Definition set_driver (d : WebDriver) : M HandlerScope unit :=
  modify_locals (λ l, {| dataPatterns := dataPatterns l; driver := Some d |}).

Definition unclear_text : string :=
  "I'm not sure what type of data you want me to extract. Could you please be more specific?".
Definition unclear_error : string := "Unclear data type request".
Definition no_url_message : string := "No website URL provided or configured".
Definition found_header : string :=
  "Here's what I found:" ++ newline ++ newline.
Definition nothing_found : string :=
  "I couldn't find any of the requested data on this website.".
Definition sorry_prefix : string :=
  "Sorry, I encountered an error while extracting data: ".

Section Handler.
Variable env : Env.
Variable JSON_parse : string → option Json.
Variable compiles : string → bool.
(** String conversion of [`${item}`] for extracted values and for the
    [name] of a synthesized pattern. *)
Variable ToString : JsValue → string.
Variable name_ToString : option Json → string.
(** How a synthesized pattern object is read through the [DataPattern]
    interface by the crawler. *)
Variable as_DataPattern : Json → DataPattern.

Definition entry_pattern (entry : Entry) : DataPattern :=
  match entry with
  | BuiltIn p => p
  | Synthesized spec => as_DataPattern spec
  end.

(** [dataPatterns[type].name] inside a template literal. *)
Definition entry_display_name (entry : option Entry) : M HandlerScope string :=
  match entry with
  | Some (BuiltIn p) => ret (pattern_name p)
  | Some (Synthesized spec) =>
      n <- get_prop spec "name" ;; ret (name_ToString n)
  | None =>
      throw (ThrownError (TypeError
        "Cannot read properties of undefined (reading 'name')"))
  end.

Fixpoint format_entries (entries : list (string * list JsValue))
    (response : string) : M HandlerScope string :=
  match entries with
  | [] => ret response
  | (type, data) :: entries' =>
      if (0 <? length data)%nat then
        l <- get_locals ;;
        n <- entry_display_name (assoc type (dataPatterns l)) ;;
        let response := response ++ n ++ ":" ++ newline in
        let response :=
          foldl (λ r item, r ++ "- " ++ ToString item ++ newline) response data in
        format_entries entries' (response ++ newline)
      else format_entries entries' response
  end.

Definition formatExtractedData (results : list (string * list JsValue))
    : M HandlerScope string :=
  response <- format_entries results found_header ;;
  if String.eqb response found_header then ret nothing_found
  else ret response.

(** [error.message]; reading a property of [undefined] throws. *)
Definition error_message {L} (error : Exn) : M L string :=
  match error with
  | ThrownError e => ret (message e)
  | ThrownUndefined =>
      throw (ThrownError (TypeError
        "Cannot read properties of undefined (reading 'message')"))
  end.

(** [for (const dataType of dataTypes)] *)
Fixpoint crawl_all (fuel : nat) (d : WebDriver) (websiteUrl : string)
    (dataTypes : list string) (results : list (string * list JsValue))
    : M HandlerScope (list (string * list JsValue)) :=
  match dataTypes with
  | [] => ret results
  | dataType :: dataTypes' =>
      l <- get_locals ;;
      match assoc dataType (dataPatterns l) with
      | Some entry =>
          r <- crawlAndExtract env fuel d websiteUrl (entry_pattern entry) ;;
          crawl_all fuel d websiteUrl dataTypes' (assoc_set dataType r results)
      | None => crawl_all fuel d websiteUrl dataTypes' results
      end
  end.

(** The body of the [try] block. *)
Definition handler_try (fuel : nat) (text : string) (callback : bool)
    : M HandlerScope bool :=
  dataTypes <- in_module (determineDataTypes env JSON_parse compiles text) ;;
  if Nat.eqb (length dataTypes) 0 then
    (if callback then call env (Callback unclear_text (ErrorContent unclear_error))
     else ret tt) ;;
    ret false
  else
    websiteUrl <- match extractUrlFromMessage text with
                  | Some url => ret (Some url)
                  | None => call env (GetSetting "WEBSITE_URL")
                  end ;;
    match websiteUrl with
    | Some websiteUrl =>
        if String.eqb websiteUrl EmptyString
        then throw (ThrownError (Error no_url_message))
        else
          d <- call env SetupWebDriver ;;
          set_driver d ;;
          call env (Get websiteUrl) ;;
          results <- crawl_all fuel d websiteUrl dataTypes [] ;;
          (if callback then
             text <- formatExtractedData results ;;
             call env (Callback text (ResultsContent websiteUrl results))
           else ret tt) ;;
          ret true
    | None => throw (ThrownError (Error no_url_message))
    end.

Definition handler_catch (callback : bool) (error : Exn)
    : M HandlerScope bool :=
  (if callback then
     msg <- error_message error ;;
     call env (Callback (sorry_prefix ++ msg) (ErrorContent msg))
   else ret tt) ;;
  ret false.

(** [if (driver) await driver.quit().catch(console.error)] *)
Definition handler_finally : M HandlerScope unit :=
  l <- get_locals ;;
  match driver l with
  | Some _ => try_catch (call env Quit) (λ _, ret tt)
  | None => ret tt
  end.

Definition handler (fuel : nat) (text : string) (callback : bool)
    : M Registry bool :=
  with_driver_variable
    (try_finally
       (try_catch (handler_try fuel text callback) (handler_catch callback))
       handler_finally).
End Handler.


(** ** [seleniumProfilesAction]: the profiles found in a page *)

Definition is_digit (c : ascii) : bool :=
  let n := nat_of_ascii c in (48 <=? n)%nat && (n <=? 57)%nat.

Definition is_letter (c : ascii) : bool :=
  let n := nat_of_ascii (lower_ascii c) in (97 <=? n)%nat && (n <=? 122)%nat.

Definition is_underscore (c : ascii) : bool := Nat.eqb (nat_of_ascii c) 95.

Fixpoint all_chars (p : ascii → bool) (s : string) : bool :=
  match s with
  | EmptyString => true
  | String c s' => p c && all_chars p s'
  end.

(** [/^\d+$/.test(s)] *)
Definition only_digits (s : string) : bool :=
  negb (String.eqb s EmptyString) && all_chars is_digit s.

(** [/^[a-z][a-z0-9_]*$/i.test(s)] *)
Definition handle_shaped (s : string) : bool :=
  match s with
  | EmptyString => false
  | String c s' =>
      is_letter c &&
      all_chars (λ c, is_letter c || is_digit c || is_underscore c) s'
  end.

Definition reserved_paths : list string :=
  ["home"; "login"; "signup"; "explore"; "notifications"; "messages";
   "search"; "settings"; "privacy"; "about"; "help"; "status"].

(** The condition under which a match of the profile pattern, with its
    lower-cased domain and username groups, is kept. *)
Definition is_profile_candidate (domain username : string) : bool :=
  (String.eqb domain "twitter.com" || String.eqb domain "x.com") &&
  negb (includes username "token") &&
  negb (includes username "pump") &&
  negb (only_digits username) &&
  (4 <=? String.length username)%nat &&
  (String.length username <=? 15)%nat &&
  handle_shaped username &&
  negb (bool_decide (username ∈ reserved_paths)).

(** The loop over the matches of the profile pattern in the page: [matches]
    holds the domain and the username group of each match, in order; the
    result is the [potentialUsernames] set. *)
Definition potential_usernames (matches : list (string * string)) : list string :=
  foldl (λ potentialUsernames (m : string * string),
           let domain := toLowerCase m.1 in
           let username := toLowerCase m.2 in
           if is_profile_candidate domain username
           then set_add username potentialUsernames
           else potentialUsernames)
        (new_Set []) matches.

Section ProfilesInPage.
Variable env : Env.
(** [combinedText.matchAll(profilePattern)]: the domain group and the
    user-name group of every match, in the order of the text.  Both groups
    take part in every match of the pattern. *)
Variable matchAll : string → list (string * string).

(** The body of [for (const username of potentialUsernames)]; the locals
    are the [profiles] array. *)
Definition validate_candidate (driver : WebDriver) (username : string)
    : M (list string) unit :=
  try_catch
    (s <- get_state ;;
     match validatedProfiles s !! username with
     | Some cached =>
         if (cached : bool) then modify_locals (λ profiles : list string, (profiles ++ [username])%list)
         else ret tt
     | None =>
         isValid <- validateTwitterUsername env username (Some driver) ;;
         (if isValid then modify_locals (λ profiles : list string, (profiles ++ [username])%list)
          else ret tt) ;;
         timer (Sleep 1000)
     end)
    (λ error, ret tt).

(** The part of [extractProfilesFromCurrentPage] that follows the reading
    of the page, from the matches of the profile pattern on: the candidates
    are validated in turn and the valid ones returned. *)
Definition profiles_of_matches {L} (driver : WebDriver)
    (matches : list (string * string)) : M L (list string) :=
  invoke []
    (for_of (potential_usernames matches) (validate_candidate driver) ;;
     profiles <- get_locals ;;
     ret profiles).

(** [extractProfilesFromCurrentPage]: the source of the page and the visible
    text of its body are read first, outside any [try]. *)
Definition extractProfilesFromCurrentPage {L} (driver : WebDriver)
    : M L (list string) :=
  pageSource <- call env GetPageSource ;;
  body <- call env (FindElement "By.css(body)") ;;
  visibleText <- call env (GetText body) ;;
  let combinedText := (pageSource ++ " " ++ visibleText)%string in
  profiles_of_matches driver (matchAll combinedText).
End ProfilesInPage.

(** The new value of [TWITTER_TARGET_USERS] in the handler of
    [seleniumProfilesAction]:
    [[...new Set([...currentUsers, ...uniqueProfiles])].join(',')] with
    [currentUsers] the non-blank entries of the setting. *)
Definition merge_target_users (current : option string)
    (uniqueProfiles : list string) : string :=
  let currentTargetUsers :=
    match current with
    | Some v => v
    | None => EmptyString
    end in
  let currentUsers := filter (λ u, trim_nonempty u = true)
                        (split_on "," currentTargetUsers) in
  join "," (new_Set (currentUsers ++ uniqueProfiles)%list).
(** * Specification vocabulary *)

Open Scope nat_scope.
Open Scope list_scope.

Definition outcome_of {L A} (r : Outcome A * L * St) : Outcome A := r.1.1.
Definition locals_of {L A} (r : Outcome A * L * St) : L := r.1.2.
Definition state_of {L A} (r : Outcome A * L * St) : St := r.2.
Arguments outcome_of {L A} !r /.
Arguments locals_of {L A} !r /.
Arguments state_of {L A} !r /.

(** Every run of [m] relates the locals before to the locals after. *)
Definition loc_steps {L A} (R : relation L) (m : M L A) : Prop :=
  ∀ l s, R l (locals_of (m l s)).

(** Every run of [m] relates the state before to the state after. *)
Definition st_steps {L A} (R : relation St) (m : M L A) : Prop :=
  ∀ l s, R s (state_of (m l s)).

(** [m] never throws. *)
Definition no_throw {L A} (m : M L A) : Prop :=
  ∀ l s e, outcome_of (m l s) ≠ Thrown e.

(** ** RetryExecutor *)

(** The calls [retryOperation] makes between two attempts. *)
Definition is_recovery (c : Cmd) : bool :=
  match c with
  | Refresh | Sleep _ | SetTimeout _ => true
  | _ => false
  end.

Definition is_stale (e : JsError) : bool :=
  String.eqb (name e) "StaleElementReferenceError".

Section RetryVocabulary.
Context {L T : Type}.
Variable env : Env.
Variable operation : M L T.
(** Call-count instrumentation of the operation. *)
Variable counter : St → nat.

(** Every invocation of the operation is counted once, and the calls made
    between two attempts are not counted. *)
Definition counts_attempts : Prop :=
  (∀ l s, counter (state_of (operation l s)) = S (counter s)) ∧
  (∀ c s, is_recovery c = true →
          counter (with_history (history s ++ [c]) s) = counter s).

(** The first [k] invocations fail, the [j]-th of them with [errs j]. *)
Definition fails_first (errs : nat → JsError) (k : nat) : Prop :=
  ∀ l s, counter s < k →
         outcome_of (operation l s) = Thrown (ThrownError (errs (counter s))).

(** Invocation number [k] (counting from 0) returns [v]. *)
Definition succeeds_at (k : nat) (v : T) : Prop :=
  ∀ l s, counter s = k → outcome_of (operation l s) = Returned v.

(** The page refresh of the stale-element recovery goes through. *)
Definition refresh_succeeds : Prop := ∀ h, env h Refresh = Resolve tt.

(** The contract as the specification words it, for a run that starts
    before the first attempt. *)
Definition retry_contract (maxRetries : nat) (delay : Z)
    (driver : option WebDriver) (errs : nat → JsError) (l : L) (s : St)
    : Prop :=
  let run := retryOperation env operation maxRetries delay driver l s in
  (∀ v, fails_first errs (maxRetries - 1) →
        succeeds_at (maxRetries - 1) v →
        outcome_of run = Returned v) ∧
  (fails_first errs maxRetries →
     outcome_of run = Thrown (ThrownError (errs (maxRetries - 1))) ∧
     counter (state_of run) = maxRetries).
End RetryVocabulary.

(** ** Example environments *)

(** A browser in which nothing is found and nothing fails. *)
Definition quiet (c : Cmd) : Reply (resp c) :=
  match c return Reply (resp c) with
  | SetupWebDriver => Resolve Session
  | Quit => Resolve tt
  | Get _ => Resolve tt
  | WaitElementLocated _ _ => Resolve tt
  | WaitElementIsVisible _ _ => Resolve tt
  | Sleep _ => Resolve tt
  | SetTimeout _ => Resolve tt
  | FindElements _ => Resolve []
  | FindElement _ => Resolve 0
  | GetPageSource => Resolve EmptyString
  | GetText _ => Resolve EmptyString
  | GetAttribute _ _ => Resolve None
  | IsDisplayed _ => Resolve false
  | Click _ => Resolve tt
  | ExecuteScript _ _ => Resolve JsUndefined
  | Refresh => Resolve tt
  | GetWindowHandle => Resolve "main"
  | GetAllWindowHandles => Resolve ["main"]
  | SwitchToWindow _ => Resolve tt
  | Close => Resolve tt
  | GenerateText _ => Resolve None
  | GetSetting _ => Resolve None
  | RegExpTest _ _ => Resolve false
  | Callback _ _ => Resolve tt
  end.

Definition quiet_env : Env := λ h c, quiet c.

(** How often [c] was called. *)
Definition occurrences (c : Cmd) (h : list Cmd) : nat :=
  length (filter (λ x, x = c) h).

(** The state of a process that has just started. *)
Definition fresh_process : St :=
  {| history := []; validatedProfiles := ∅;
     TWITTER_TARGET_USERS := None; nextObject := 0 |}.

Definition stale_error : JsError :=
  {| name := "StaleElementReferenceError"; message := "stale element reference" |}.
Definition session_lost : JsError :=
  {| name := "WebDriverError"; message := "session lost" |}.

(** Reading the text of element 7: stale for the first [k] reads. *)
Definition env_stale_reads (k : nat) : Env :=
  λ h c,
    match c return Reply (resp c) with
    | GetText 7 =>
        if occurrences (GetText 7) h <? k then Reject stale_error
        else Resolve "ok"
    | c => quiet c
    end.

(** The same, in a browser whose page refresh fails. *)
Definition env_refresh_fails (k : nat) : Env :=
  λ h c,
    match c return Reply (resp c) with
    | Refresh => Reject session_lost
    | c => env_stale_reads k h c
    end.

Definition reads_counter (s : St) : nat := occurrences (GetText 7) (history s).

(** An operation that reads the text of element 7 and then fails with
    [undefined]: [throw undefined], or a promise rejected without a
    reason. *)
Definition read_then_throw_undefined (env : Env) : M unit string :=
  call env (GetText 7) ;; throw ThrownUndefined.

(** ** ValidationCache *)

(** The profile page the browser-side check navigates to. *)
Definition profile_url (username : string) : string :=
  ("https://x.com/" ++ username)%string.

(** A process lifetime, as far as the cache is concerned: any sequence of
    validation requests, each with whatever driver the caller has. *)
Definition validate_all (env : Env) (calls : list (string * option WebDriver))
    : M unit unit :=
  for_of calls (λ call, validateTwitterUsername env call.1 call.2 ;; ret tt).

(** Every profile page has been navigated to at most once, and only for
    handles that are in the cache. *)
Definition checked_once (s : St) : Prop :=
  ∀ username,
    occurrences (Get (profile_url username)) (history s)
    ≤ if validatedProfiles s !! username is Some _ then 1 else 0.

(** A browser in which every navigation fails. *)
Definition env_navigation_fails : Env :=
  λ h c,
    match c return Reply (resp c) with
    | Get _ => Reject session_lost
    | c => quiet c
    end.

(** A browser in which every evaluated script reports [true]. *)
Definition env_profile_exists : Env :=
  λ h c,
    match c return Reply (resp c) with
    | ExecuteScript _ _ => Resolve (JsBool true)
    | c => quiet c
    end.

(** ** PatternExtractor and FrontierCrawler *)

(** A property of the locals that, once true, stays true. *)
Definition preserved {L} (Inv : L → Prop) : relation L :=
  λ l l', Inv l → Inv l'.


(** The loop of [crawlAndExtract] leaves the visited set and, but for the
    [shift], the queue alone. *)
Definition same_frontier : relation CrawlLocals :=
  λ l l', visitedUrls l' = visitedUrls l ∧ urlsToVisit l' = urlsToVisit l.

Definition same_visited : relation CrawlLocals :=
  λ l l', visitedUrls l' = visitedUrls l.



(** The regular expression of the twitter pattern, on the one text the
    page below contains. *)
Definition twitter_regex_source : string :=
  "(?:https?:\/\/)?(?:www\.)?(?:twitter\.com|x\.com)\/([a-zA-Z0-9_]+)".

Definition ghost_regex : RegExp :=
  {| source := twitter_regex_source;
     str_match := λ text,
       if String.eqb text "https://x.com/ghost"
       then Some [Some "https://x.com/ghost"; Some "ghost"]
       else None |}.

(** A page with one link, whose text is [https://x.com/ghost]. *)
Definition env_ghost_link : Env :=
  λ h c,
    match c return Reply (resp c) with
    | FindElements css =>
        if String.eqb css x_com_selector || String.eqb css "a"
        then Resolve [1] else Resolve []
    | GetText 1 => Resolve "https://x.com/ghost"
    | c => quiet c
    end.

(** A pattern whose transform rejects every match by returning [null]. *)
Definition null_pattern : DataPattern :=
  {| pattern_name := "Ghosts";
     patterns := [ghost_regex];
     config := {| selectors := ["a"];
                  attribute := None;
                  transform := Some (SyncFunction (λ _, ret JsNull));
                  validate := None |} |}.

(** A pattern without transform and validate, whose regular expression
    matches the whole text. *)
Definition whole_text_regex : RegExp :=
  {| source := ".+"; str_match := λ text, Some [Some text] |}.

Definition plain_pattern : DataPattern :=
  {| pattern_name := "Links";
     patterns := [whole_text_regex];
     config := {| selectors := ["a"];
                  attribute := None;
                  transform := None;
                  validate := None |} |}.

(** A page with two links that show the same address. *)
Definition env_two_links : Env :=
  λ h c,
    match c return Reply (resp c) with
    | FindElements css =>
        if String.eqb css "a" then Resolve [1; 2] else Resolve []
    | GetText _ => Resolve "a@b.com"
    | c => quiet c
    end.

(** ** PatternRegistry *)

(** A property read that does not throw. *)
Definition prop_of (v : Json) (key : string) : option Json :=
  match v with
  | JObject fields => assoc key fields
  | _ => None
  end.

(** What [validateAndTransformPattern] checks. *)
Definition well_formed (pattern : Json) : bool :=
  truthy_prop (prop_of pattern "name") &&
  truthy_prop (prop_of pattern "patterns") &&
  truthy_prop (prop_of pattern "config").

(** What the specification says is checked: a non-empty name, a non-empty
    pattern list and a non-empty selector list. *)
Definition spec_requirements (pattern : Json) : bool :=
  match prop_of pattern "name", prop_of pattern "patterns",
        prop_of pattern "config" with
  | Some (JString n), Some (JArray (_ :: _)), Some config =>
      negb (String.eqb n EmptyString) &&
      match prop_of config "selectors" with
      | Some (JArray (_ :: _)) => true
      | _ => false
      end
  | _, _, _ => false
  end.

(** A specification with a name, no pattern and no selector. *)
Definition coupons_spec : Json :=
  JObject [("name", JString "Coupons");
           ("patterns", JArray []);
           ("config", JObject [])].

(** The JSON text of that specification:
    [{"name":"Coupons","patterns":[],"config":{}}]. *)
Definition coupons_json : string :=
  "{" ++ dquote ++ "name" ++ dquote ++ ":" ++ dquote ++ "Coupons" ++ dquote
  ++ "," ++ dquote ++ "patterns" ++ dquote ++ ":[],"
  ++ dquote ++ "config" ++ dquote ++ ":{}}".

(** A language model that proposes the key [coupons], and answers the
    request for a pattern with that JSON text. *)
Definition env_proposes_coupons : Env :=
  λ h c,
    match c return Reply (resp c) with
    | GenerateText context =>
        if String.prefix "What type of data" context
        then Resolve (Some "coupons")
        else Resolve (Some coupons_json)
    | c => quiet c
    end.

(** [JSON.parse] on the one text [text], which denotes [pattern]; it throws
    on the other texts of the example. *)
Definition parses_only (text : string) (pattern : Json)
    : string → option Json :=
  λ response, if String.eqb response text then Some pattern else None.

Definition compiles_all : string → bool := λ _, true.

(** ** The top-level action *)

(** The state after is the state before with calls added, all of them
    satisfying [P]. *)
Definition extends_with (P : Cmd → Prop) : relation St :=
  λ s s', ∃ evs, history s' = history s ++ evs ∧ Forall P evs.

(** The calls that need no browser session: the language model, the
    regular-expression engine, the settings and the callback. *)
Definition no_session (c : Cmd) : Prop :=
  match c with
  | GenerateText _ | RegExpTest _ _ | GetSetting _ | Callback _ _ => True
  | _ => False
  end.

(** No seed URL is available: none in the request text, none configured. *)
Definition no_seed_url (env : Env) (text : string) : Prop :=
  extractUrlFromMessage text = None ∧
  ∀ h, env h (GetSetting "WEBSITE_URL") = Resolve None ∨
       env h (GetSetting "WEBSITE_URL") = Resolve (Some EmptyString).

(** What the callback receives when the URL is missing. *)
Definition not_configured : Cmd :=
  Callback (sorry_prefix ++ no_url_message)%string (ErrorContent no_url_message).

(** What the callback receives when no data type was determined. *)
Definition unclear_request : Cmd :=
  Callback unclear_text (ErrorContent unclear_error).

(** A language model that proposes the key [greeting] and cannot describe
    a pattern for it. *)
Definition env_proposes_greeting : Env :=
  λ h c,
    match c return Reply (resp c) with
    | GenerateText context => Resolve (Some "greeting")
    | c => quiet c
    end.

Definition parses_nothing : string → option Json := λ _, None.

Definition show_item : JsValue → string := λ _, "item".
Definition show_name : option Json → string := λ _, "name".
Definition read_as_plain : Json → DataPattern := λ _, plain_pattern.

(** A registry with the twitter pattern. *)
Definition twitter_registry (env : Env) : Registry :=
  [("twitter", BuiltIn (twitter env ghost_regex))].

(** ** Navigation *)

(** The pages a list of calls navigates to, in order. *)
Definition navigations (calls : list Cmd) : list string :=
  omap (λ c, match c with Get url => Some url | _ => None end) calls.

Definition not_navigation (c : Cmd) : Prop :=
  match c with
  | Get _ => False
  | _ => True
  end.

(** The functions of a pattern, as the extractor calls them (the transform
    with the match alone), add calls to the history and all of them satisfy
    [P]. *)
Definition pattern_calls (P : Cmd → Prop) (pattern : DataPattern) : Prop :=
  match transform (config pattern) with
  | Some (SyncFunction f) => ∀ m, st_steps (extends_with P) (f m)
  | Some (AsyncFunction body) => ∀ m, st_steps (extends_with P) (body m None)
  | None => True
  end ∧
  match validate (config pattern) with
  | Some v => ∀ value, st_steps (extends_with P) (v value)
  | None => True
  end.

(** ** Results that are objects *)




(** ** Further example environments *)

(** U+00A0 *)
Definition no_break_space : string := utf8 160.

(** No white-space character starts with the byte [c]. *)
Definition starts_no_space (c : ascii) : bool :=
  forallb (λ w, negb (String.prefix (String c EmptyString) w)) white_space.

(** A browser in which the page never becomes ready. *)
Definition env_never_ready : Env :=
  λ h c,
    match c return Reply (resp c) with
    | WaitElementLocated _ _ => Reject session_lost
    | c => env_two_links h c
    end.

(** A page with two links, in a browser whose navigation fails. *)
Definition env_unreachable : Env :=
  λ h c,
    match c return Reply (resp c) with
    | Get _ => Reject session_lost
    | c => env_two_links h c
    end.

(** ** The top-level action, once the browser session exists *)

Definition same_driver : relation HandlerScope :=
  λ l l', driver l' = driver l.

(** What the [try] block of the handler does after [setupWebDriver]. *)
Definition after_setup (env : Env) (ToString : JsValue → string)
    (name_ToString : option Json → string) (as_DataPattern : Json → DataPattern)
    (fuel : nat) (callback : bool) (d : WebDriver) (websiteUrl : string)
    (dataTypes : list string) : M HandlerScope bool :=
  call env (Get websiteUrl) ;;
  results <- crawl_all env as_DataPattern fuel d websiteUrl dataTypes [] ;;
  (if callback then
     text <- formatExtractedData ToString name_ToString results ;;
     call env (Callback text (ResultsContent websiteUrl results))
   else ret tt) ;;
  ret true.

Definition links_registry : Registry := [("links", BuiltIn plain_pattern)].

(** The call by which the handler looks for the seed URL when the text of
    the request holds none. *)
Definition seed_lookup (text : string) : list Cmd :=
  if extractUrlFromMessage text is Some _ then []
  else [GetSetting "WEBSITE_URL"].

(** [extractUrlFromMessage(text) || runtime.getSetting("WEBSITE_URL")], when
    the setting is read after the calls [h]. *)
Definition seed_url (env : Env) (text : string) (h : list Cmd)
    : option string :=
  match extractUrlFromMessage text with
  | Some url => Some url
  | None =>
      match env h (GetSetting "WEBSITE_URL") with
      | Resolve (Some url) => Some url
      | _ => None
      end
  end.

(** Between [s] and [s'] a browser session was opened: a call of
    [setupWebDriver] was made, and it returned a driver. *)
Definition session_opened (env : Env) (s s' : St) : Prop :=
  ∃ evs d,
    (history s ++ evs ++ [SetupWebDriver]) `prefix_of` history s' ∧
    env (history s ++ evs) SetupWebDriver = Resolve d.

(** What the [finally] block of the handler leaves. *)
Definition closed (l : HandlerScope) (s : St) : St :=
  if driver l is Some _ then with_history (history s ++ [Quit]) s else s.

(** What the [catch] block of the handler hands to the callback. *)
Definition report (e : JsError) : Cmd :=
  Callback (sorry_prefix ++ message e)%string (ErrorContent (message e)).

(** The seed URL is configured, and the navigation fails. *)
Definition env_configured_unreachable : Env :=
  λ h c,
    match c return Reply (resp c) with
    | GetSetting key =>
        if String.eqb key "WEBSITE_URL"
        then Resolve (Some "https://example.com") else Resolve None
    | c => env_unreachable h c
    end.

(** ** Classification *)

(** The calls of the regular-expression engine. *)
Definition is_test (c : Cmd) : Prop :=
  match c with
  | RegExpTest _ _ => True
  | _ => False
  end.

(** A specification as the prompt of [generateDataPattern] asks for it. *)
Definition emails_spec : Json :=
  JObject [("name", JString "Email Addresses");
           ("patterns", JArray [JString "[a-z]+@[a-z]+"]);
           ("config", JObject [("selectors", JArray [JString "a"])])].

(** ** The profiles of a page *)

(** A process that has validated [username] with the answer [b]. *)
Definition knows (username : string) (b : bool) : St :=
  with_validatedProfiles {[ username := b ]} fresh_process.

(** A page whose source shows two links and whose visible text shows a
    third. *)
Definition env_profile_page : Env :=
  λ h c,
    match c return Reply (resp c) with
    | GetPageSource => Resolve "x.com/Alice_01 x.com/home"
    | GetText _ => Resolve "twitter.com/alice_01"
    | c => quiet c
    end.

(** The matches of the profile pattern in the text of that page. *)
Definition matches_of_profile_page (combinedText : string)
    : list (string * string) :=
  if String.eqb combinedText "x.com/Alice_01 x.com/home twitter.com/alice_01"
  then [("x.com", "Alice_01"); ("x.com", "home"); ("twitter.com", "alice_01")]
  else [].

(** The profiles among [candidates] that the cache of [s] holds as valid. *)
Definition cached_valid (s : St) (candidates : list string) : list string :=
  filter (λ u, validatedProfiles s !! u = Some true) candidates.

(** ** The target users *)

(** How the handlers read the users out of [TWITTER_TARGET_USERS]:
    [currentTargetUsers.split(',').filter(u => u.trim())]. *)
Definition current_users (setting : string) : list string :=
  filter (λ u, trim_nonempty u = true) (split_on "," setting).

(** A handle that can be stored in the setting: it holds no comma and is not
    blank. *)
Definition storable (u : string) : Prop :=
  all_chars (λ c, negb (Ascii.eqb c ",")) u = true ∧ trim_nonempty u = true.

(** ** The crawl *)

Definition results_grow : relation CrawlLocals :=
  λ l l', results l `prefix_of` results l'.

(** ** The answer of the handler *)

Definition no_data (entry : string * list JsValue) : Prop := entry.2 = [].

(** ** Retrying *)

(** Everything but a page refresh. *)
Definition not_refresh (c : Cmd) : Prop := c ≠ Refresh.

(** ** Matches with a capture group that took no part *)

(** [/(x)?b/] on the text [b]: the match, and [undefined] for the group. *)
Definition optional_group_regex : RegExp :=
  {| source := "(x)?b";
     str_match := λ text,
       if String.eqb text "b" then Some [Some "b"; None] else None |}.

Definition optional_group_pattern : DataPattern :=
  {| pattern_name := "Letters";
     patterns := [optional_group_regex];
     config := {| selectors := ["a"];
                  attribute := None;
                  transform := None;
                  validate := None |} |}.

(** A page with one link, whose text is [b]. *)
Definition env_letter_b : Env :=
  λ h c,
    match c return Reply (resp c) with
    | FindElements css =>
        if String.eqb css "a" then Resolve [1] else Resolve []
    | GetText _ => Resolve "b"
    | c => quiet c
    end.
(** * Properties *)

(** ** Reasoning about computations *)

Ltac run m l s :=
  let a := fresh "a" in let e := fresh "e" in
  let l' := fresh "l'" in let s' := fresh "s'" in
  let E := fresh "E" in
  destruct (m l s) as [[[a|e|] l'] s'] eqn:E; simpl in *.

Section Steps.
Context {L : Type}.

Section Locals.
Context (R : relation L) `{!PreOrder R}.

Lemma loc_steps_ret {A} (a : A) : loc_steps R (ret a).
Proof. intros l s. reflexivity. Qed.

Lemma loc_steps_throw {A} e : loc_steps R (@throw L A e).
Proof. intros l s. reflexivity. Qed.

Lemma loc_steps_bind {A B} (m : M L A) (k : A → M L B) :
  loc_steps R m → (∀ a, loc_steps R (k a)) → loc_steps R (bind m k).
Proof.
  intros Hm Hk l s. unfold bind. specialize (Hm l s).
  destruct (m l s) as [[[a|e|] l'] s'] eqn:E; simpl in *; try done.
  etrans; [exact Hm | apply Hk].
Qed.

Lemma loc_steps_try_catch {A} (m : M L A) (h : Exn → M L A) :
  loc_steps R m → (∀ e, loc_steps R (h e)) → loc_steps R (try_catch m h).
Proof.
  intros Hm Hh l s. unfold try_catch. specialize (Hm l s).
  destruct (m l s) as [[[a|e|] l'] s'] eqn:E; simpl in *; try done.
  etrans; [exact Hm | apply Hh].
Qed.

Lemma loc_steps_call env c : loc_steps R (@call env L c).
Proof. intros l s. unfold call. destruct (env _ c); reflexivity. Qed.

Lemma loc_steps_timer c : loc_steps R (@timer L c).
Proof. intros l s. reflexivity. Qed.

Lemma loc_steps_invoke {L' A} (init : L') (m : M L' A) :
  loc_steps R (@invoke L L' A init m).
Proof.
  intros l s. unfold invoke. destruct (m init s) as [[r l'] s'].
  reflexivity.
Qed.

Lemma loc_steps_get_state : loc_steps R (@get_state L).
Proof. intros l s. reflexivity. Qed.

Lemma loc_steps_get_locals : loc_steps R (@get_locals L).
Proof. intros l s. reflexivity. Qed.

Lemma loc_steps_modify_state f : loc_steps R (@modify_state L f).
Proof. intros l s. reflexivity. Qed.

Lemma loc_steps_modify_locals (f : L → L) :
  (∀ l, R l (f l)) → loc_steps R (modify_locals f).
Proof. intros Hf l s. apply Hf. Qed.

Lemma loc_steps_for_of {X} (xs : list X) (body : X → M L unit) :
  (∀ x, loc_steps R (body x)) → loc_steps R (for_of xs body).
Proof.
  intros Hb. induction xs as [|x xs IH]; simpl.
  - apply loc_steps_ret.
  - apply loc_steps_bind; auto.
Qed.

Lemma loc_steps_while fuel cond (body : M L unit) :
  loc_steps R body → loc_steps R (while fuel cond body).
Proof.
  intros Hb. induction fuel as [|fuel IH]; intros l s; simpl.
  - destruct (cond l); reflexivity.
  - destruct (cond l); [|reflexivity].
    apply (loc_steps_bind body (λ _, while fuel cond body)); auto.
Qed.

Lemma loc_steps_error_name e : loc_steps R (@error_name L e).
Proof. destruct e; [apply loc_steps_throw | apply loc_steps_ret]. Qed.

Lemma loc_steps_retry_from env {T} (op : M L T) maxRetries delay driver
    remaining i lastError :
  loc_steps R op →
  loc_steps R (retry_from env op maxRetries delay driver remaining i lastError).
Proof.
  intros Hop. revert i lastError.
  induction remaining as [|n IH]; intros i lastError; simpl.
  - apply loc_steps_throw.
  - apply loc_steps_try_catch; [done|]. intros e.
    apply loc_steps_bind; [apply loc_steps_error_name|]. intros nm.
    destruct (_ && _).
    + apply loc_steps_bind; [apply (loc_steps_call env Refresh)|]. intros _.
      apply loc_steps_bind; [apply loc_steps_timer|]. intros _. apply IH.
    + destruct (Nat.eqb _ _); [apply loc_steps_throw|].
      apply loc_steps_bind; [apply loc_steps_timer|]. intros _. apply IH.
Qed.

Lemma loc_steps_retryOperation env {T} (op : M L T) maxRetries delay driver :
  loc_steps R op → loc_steps R (retryOperation env op maxRetries delay driver).
Proof. apply loc_steps_retry_from. Qed.
End Locals.
End Steps.

(** From [run = (o, l, s) → G] with [run] computed to a triple. *)
Ltac end_run :=
  let H := fresh "Hrun" in
  intros H; cbv beta iota delta [ret throw] in H; injection H as <- <- <-.

(** Goals of the form [loc_steps R m], by the structure of [m]. *)
Ltac step_locals :=
  repeat match goal with
    | |- loc_steps _ (ret _) => apply loc_steps_ret
    | |- loc_steps _ (throw _) => apply loc_steps_throw
    | |- loc_steps ?R (call ?env ?c) => apply (loc_steps_call R env c)
    | |- loc_steps _ (timer _) => apply loc_steps_timer
    | |- loc_steps _ (invoke _ _) => apply loc_steps_invoke
    | |- loc_steps _ get_locals => apply loc_steps_get_locals
    | |- loc_steps _ get_state => apply loc_steps_get_state
    | |- loc_steps _ (modify_state _) => apply loc_steps_modify_state
    | |- loc_steps _ (error_name _) => apply loc_steps_error_name
    | |- loc_steps _ (bind _ _) => apply loc_steps_bind
    | |- loc_steps _ (try_catch _ _) => apply loc_steps_try_catch
    | |- loc_steps _ (for_of _ _) => apply loc_steps_for_of
    | |- loc_steps _ (while _ _ _) => apply loc_steps_while
    | |- loc_steps _ (retryOperation _ _ _ _ _) =>
        apply loc_steps_retryOperation
    | |- loc_steps _ (modify_locals _) => apply loc_steps_modify_locals
    | |- loc_steps _ (if ?b then _ else _) => destruct b
    | |- loc_steps _ (match ?x with _ => _ end) => destruct x
    | |- ∀ _, _ => intros ?
    | |- PreOrder _ => apply _
    end.

(** ** RetryExecutor *)

Section RetrySteps.
Context {L T : Type}.
Variable env : Env.
Variable operation : M L T.
Variables (maxRetries : nat) (delay : Z) (driver : option WebDriver).

(** One iteration whose attempt returns. *)
Lemma retry_from_returned n i lastError l s v l' s' :
  operation l s = (Returned v, l', s') →
  retry_from env operation maxRetries delay driver (S n) i lastError l s
  = (Returned v, l', s').
Proof. intros E. simpl. unfold try_catch. by rewrite E. Qed.

(** One iteration whose attempt throws an error object. *)
Lemma retry_from_thrown n i lastError l s e l' s' :
  operation l s = (Thrown (ThrownError e), l', s') →
  retry_from env operation maxRetries delay driver (S n) i lastError l s
  = if is_stale e && bool_decide (is_Some driver) then
      let s1 := with_history (history s' ++ [Refresh]) s' in
      match env (history s') Refresh with
      | Resolve _ =>
          retry_from env operation maxRetries delay driver n (S i)
            (ThrownError e) l'
            (with_history (history s1 ++ [Sleep delay]) s1)
      | Reject r => (Thrown (ThrownError r), l', s1)
      end
    else if Nat.eqb i (maxRetries - 1) then (Thrown (ThrownError e), l', s')
    else
      retry_from env operation maxRetries delay driver n (S i)
        (ThrownError e) l'
        (with_history (history s' ++ [SetTimeout delay]) s').
Proof.
  intros E. simpl. unfold try_catch. rewrite E. unfold bind at 1. simpl.
  unfold is_stale. destruct (_ && _).
  - unfold bind at 1. unfold call.
    destruct (env (history s') Refresh); [|done].
    unfold bind at 1. by simpl.
  - destruct (Nat.eqb _ _); [done|]. unfold bind at 1. by simpl.
Qed.

(** Fuel of an enclosing loop exhausted inside the attempt. *)
Lemma retry_from_out_of_fuel n i lastError l s l' s' :
  operation l s = (OutOfFuel, l', s') →
  retry_from env operation maxRetries delay driver (S n) i lastError l s
  = (OutOfFuel, l', s').
Proof. intros E. simpl. unfold try_catch. by rewrite E. Qed.
End RetrySteps.

Section RetryContract.
Context {L T : Type}.
Variable env : Env.
Variable operation : M L T.
Variable counter : St → nat.
Hypothesis Hcount : counts_attempts operation counter.

Lemma retry_from_succeeds maxRetries delay driver errs k v :
  (is_Some driver → refresh_succeeds env) →
  k < maxRetries →
  fails_first operation counter errs k → succeeds_at operation counter k v →
  ∀ remaining i lastError l s,
    i + remaining = maxRetries → counter s = i → i ≤ k →
    let run := retry_from env operation maxRetries delay driver
                 remaining i lastError l s in
    outcome_of run = Returned v ∧ counter (state_of run) = S k.
Proof.
  intros Hrefresh Hk Hfail Hok.
  induction remaining as [|n IH]; intros i lastError l s Hi Hc Hik; [lia|].
  destruct (decide (i = k)) as [->|Hne].
  - pose proof (Hok l s Hc) as Hv.
    pose proof (proj1 Hcount l s) as Hs.
    destruct (operation l s) as [[[a|e|] l'] s'] eqn:E; simpl in Hv, Hs; try done.
    injection Hv as ->.
    erewrite retry_from_returned by exact E.
    simpl. split; [done | lia].
  - assert (counter s < k) as Hlt by lia.
    pose proof (Hfail l s Hlt) as He.
    pose proof (proj1 Hcount l s) as Hs.
    destruct (operation l s) as [[[a|e|] l'] s'] eqn:E; simpl in He, Hs; try done.
    injection He as ->.
    erewrite retry_from_thrown by exact E.
    destruct (_ && _) eqn:Hstale.
    + apply andb_prop in Hstale as [_ Hd%bool_decide_eq_true].
      rewrite (Hrefresh Hd). cbv zeta.
      apply IH; [lia| |lia].
      rewrite !(proj2 Hcount); [lia|done..].
    + destruct (Nat.eqb_spec i (maxRetries - 1)); [lia|].
      apply IH; [lia| |lia].
      rewrite (proj2 Hcount); [lia|done].
Qed.

Lemma retry_from_exhausts maxRetries delay driver errs :
  (is_Some driver → refresh_succeeds env) →
  fails_first operation counter errs maxRetries →
  ∀ remaining i lastError l s,
    i + remaining = maxRetries → counter s = i → 1 ≤ maxRetries →
    (0 < i → lastError = ThrownError (errs (i - 1))) →
    let run := retry_from env operation maxRetries delay driver
                 remaining i lastError l s in
    outcome_of run = Thrown (ThrownError (errs (maxRetries - 1))) ∧
    counter (state_of run) = maxRetries.
Proof.
  intros Hrefresh Hfail.
  induction remaining as [|n IH]; intros i lastError l s Hi Hc Hmax Hlast.
  - simpl. rewrite Hlast by lia.
    replace (i - 1) with (maxRetries - 1) by lia. split; [done | lia].
  - assert (counter s < maxRetries) as Hlt by lia.
    pose proof (Hfail l s Hlt) as He.
    pose proof (proj1 Hcount l s) as Hs.
    destruct (operation l s) as [[[a|e|] l'] s'] eqn:E; simpl in He, Hs; try done.
    injection He as ->.
    erewrite retry_from_thrown by exact E.
    destruct (_ && _) eqn:Hstale.
    + apply andb_prop in Hstale as [_ Hd%bool_decide_eq_true].
      rewrite (Hrefresh Hd). cbv zeta.
      apply IH; [lia| |lia|].
      * rewrite !(proj2 Hcount); [lia|done..].
      * intros _. rewrite Hc. do 2 f_equal. lia.
    + destruct (Nat.eqb_spec i (maxRetries - 1)) as [Heq|Hne].
      * simpl. split; [rewrite Hc; by rewrite Heq | lia].
      * apply IH; [lia| |lia|].
        -- rewrite (proj2 Hcount); [lia|done].
        -- intros _. rewrite Hc. do 2 f_equal. lia.
Qed.
End RetryContract.

(** C2 (as amended). For every operation whose failures are error objects
    (the thrown value [errs j] of failure [j] is an object with a [name] and
    a [message], not [undefined]) and every budget [maxRetries] of at least
    one attempt, as long as the page refresh that [retryOperation] performs
    after a stale-element failure (when a driver is supplied) succeeds: if
    the operation fails [maxRetries - 1] times and then succeeds,
    [retryOperation] returns the success value; if it fails [maxRetries]
    times, [retryOperation] throws the operation's last failure and the
    operation has been attempted exactly [maxRetries] times. *)
Theorem retryOperation_contract {L T} env (operation : M L T) counter
    maxRetries delay driver errs l s :
  counts_attempts operation counter →
  counter s = 0 →
  1 ≤ maxRetries →
  (is_Some driver → refresh_succeeds env) →
  retry_contract env operation counter maxRetries delay driver errs l s.
Proof.
  intros Hcount Hs Hmax Hrefresh. split.
  - intros v Hfail Hok.
    apply (retry_from_succeeds env operation counter Hcount maxRetries delay
             driver errs (maxRetries - 1) v); auto; lia.
  - intros Hfail.
    apply (retry_from_exhausts env operation counter Hcount maxRetries delay
             driver errs); auto; lia.
Qed.

Lemma occurrences_snoc c x h :
  occurrences c (h ++ [x]) = occurrences c h + (if decide (x = c) then 1 else 0).
Proof.
  unfold occurrences. rewrite filter_app, length_app. f_equal.
  rewrite filter_cons, filter_nil. by destruct (decide (x = c)).
Qed.

Lemma reads_counted env :
  counts_attempts (L := unit) (call env (GetText 7)) reads_counter.
Proof.
  split.
  - intros l s. unfold call, reads_counter.
    destruct (env (history s) (GetText 7)); simpl;
      rewrite occurrences_snoc; rewrite decide_True by done; lia.
  - intros c s Hc. unfold reads_counter. simpl.
    rewrite occurrences_snoc. rewrite decide_False; [lia|].
    intros ->. done.
Qed.

Lemma stale_reads_fail k :
  fails_first (L := unit) (call (env_stale_reads k) (GetText 7)) reads_counter
    (λ _, stale_error) k.
Proof.
  intros l s Hlt. unfold call, reads_counter in *. simpl.
  destruct (Nat.ltb_spec (occurrences (GetText 7) (history s)) k); [done|lia].
Qed.

Lemma stale_reads_succeed k :
  succeeds_at (L := unit) (call (env_stale_reads k) (GetText 7)) reads_counter
    k "ok".
Proof.
  intros l s Heq. unfold call, reads_counter in *. simpl.
  destruct (Nat.ltb_spec (occurrences (GetText 7) (history s)) k); [lia|done].
Qed.

(** Two stale reads and a good one within a budget of three; five stale
    reads against the same budget. *)
Lemma retryOperation_contract_witness :
  outcome_of (retryOperation (env_stale_reads 2) (call (env_stale_reads 2) (GetText 7))
                3 1000 (Some Session) tt fresh_process)
  = Returned "ok" ∧
  outcome_of (retryOperation (env_stale_reads 5) (call (env_stale_reads 5) (GetText 7))
                3 1000 (Some Session) tt fresh_process)
  = Thrown (ThrownError stale_error).
Proof.
  split.
  - apply (retryOperation_contract (env_stale_reads 2)
             (call (env_stale_reads 2) (GetText 7)) reads_counter 3 1000
             (Some Session) (λ _, stale_error) tt fresh_process).
    + apply reads_counted.
    + reflexivity.
    + lia.
    + intros _ h. reflexivity.
    + apply (stale_reads_fail 2).
    + apply (stale_reads_succeed 2).
  - apply (retryOperation_contract (env_stale_reads 5)
             (call (env_stale_reads 5) (GetText 7)) reads_counter 3 1000
             (Some Session) (λ _, stale_error) tt fresh_process).
    + apply reads_counted.
    + reflexivity.
    + lia.
    + intros _ h. reflexivity.
    + intros l s Hlt. apply (stale_reads_fail 5). lia.
Defined.

(** C2, counterexample. With a budget of one attempt and a driver supplied,
    the operation fails once with a stale-element error; the page refresh
    then fails, and what [retryOperation] throws is the failure of the
    refresh, not the failure of the operation.  And with a budget of three
    attempts and no driver, an operation that fails with [undefined] is
    attempted once: reading the name of the failure throws a [TypeError],
    which is what [retryOperation] throws. *)
Lemma retryOperation_contract_counterexample :
  counts_attempts (L := unit) (call (env_refresh_fails 1) (GetText 7)) reads_counter ∧
  reads_counter fresh_process = 0 ∧
  ¬ retry_contract (env_refresh_fails 1) (call (env_refresh_fails 1) (GetText 7))
      reads_counter 1 1000 (Some Session) (λ _, stale_error) tt fresh_process ∧
  let run := retryOperation quiet_env (read_then_throw_undefined quiet_env)
               3 1000 None tt fresh_process in
  outcome_of run
  = Thrown (ThrownError (TypeError
      "Cannot read properties of undefined (reading 'name')")) ∧
  history (state_of run) = [GetText 7].
Proof.
  split; [apply reads_counted|]. split; [reflexivity|]. split.
  - intros [_ Hexhaust].
    destruct Hexhaust as [Hout _].
    + intros l s Hlt. unfold call, reads_counter in *. simpl.
      destruct (Nat.ltb_spec (occurrences (GetText 7) (history s)) 1); [done|lia].
    + vm_compute in Hout. discriminate Hout.
  - split; vm_compute; reflexivity.
Qed.

(** ** ValidationCache *)

Lemma occurrences_app c h1 h2 :
  occurrences c (h1 ++ h2) = occurrences c h1 + occurrences c h2.
Proof. unfold occurrences. by rewrite filter_app, length_app. Qed.

Lemma occurrences_nil c : occurrences c [] = 0.
Proof. done. Qed.

Lemma occurrences_cons c x h :
  occurrences c (x :: h) = (if decide (x = c) then 1 else 0) + occurrences c h.
Proof.
  unfold occurrences. rewrite filter_cons. by destruct (decide (x = c)).
Qed.

Lemma profile_url_inj u u' : profile_url u = profile_url u' → u = u'.
Proof. unfold profile_url. intros H. by simplify_eq/=. Qed.

Section BrowserCheck.
Context {L : Type}.
Variable env : Env.

(** What one browser-side check does to the state: the calls it adds
    contain at most one navigation, to the profile page of the handle; the
    cache is written exactly when the check returns. *)
Lemma browser_check_spec username driver (l : L) s :
  let r := browser_check env username driver l s in
  locals_of r = l ∧
  (∃ evs, history (state_of r) = history s ++ evs ∧
          ∀ url, occurrences (Get url) evs
                 ≤ if decide (url = profile_url username) then 1 else 0) ∧
  match outcome_of r with
  | Returned b =>
      validatedProfiles (state_of r) = <[username := b]> (validatedProfiles s)
  | Thrown _ => validatedProfiles (state_of r) = validatedProfiles s
  | OutOfFuel => False
  end.
Proof.
  unfold browser_check. destruct driver as [d|]; simpl.
  2: { split; [done|]. split; [|done].
       exists []. rewrite app_nil_r. split; [done|]. intros url.
       rewrite occurrences_nil. lia. }
  unfold bind, call, timer, modify_state, ret. simpl.
  repeat (match goal with
          | |- context [env ?h ?c] => destruct (env h c); simpl
          end);
    (split; [done|]); (split; [|done]);
    (eexists; split;
     [ rewrite <- ?app_assoc; simpl; reflexivity
     | intros url; rewrite ?occurrences_cons, ?occurrences_nil;
       fold (profile_url username);
       repeat case_decide; simplify_eq; lia ]).
Qed.
End BrowserCheck.

Section ValidationCache.
Context {L : Type}.
Variable env : Env.

(** A cached handle is answered from the cache: nothing is called, nothing
    changes. *)
Lemma validateTwitterUsername_cached username driver (l : L) s b :
  validatedProfiles s !! username = Some b →
  validateTwitterUsername env username driver l s = (Returned b, l, s).
Proof.
  intros Hb. unfold validateTwitterUsername, bind, get_state. simpl.
  rewrite Hb. unfold ret. by rewrite orb_false_r.
Qed.

(** A handle that is not cached is checked once and cached, whatever the
    check does. *)
Lemma validateTwitterUsername_uncached username driver (l : L) s :
  validatedProfiles s !! username = None →
  let r := validateTwitterUsername env username driver l s in
  ∃ b, outcome_of r = Returned b ∧ locals_of r = l ∧
       validatedProfiles (state_of r) = <[username := b]> (validatedProfiles s) ∧
       (∀ e, outcome_of (browser_check env username driver l s) = Thrown e →
             b = false) ∧
       ∃ evs, history (state_of r) = history s ++ evs ∧
              ∀ url, occurrences (Get url) evs
                     ≤ if decide (url = profile_url username) then 1 else 0.
Proof.
  intros Hnone. unfold validateTwitterUsername, bind, get_state. simpl.
  rewrite Hnone. unfold try_catch.
  pose proof (browser_check_spec env username driver l s) as (Hl & Hev & Hc).
  destruct (browser_check env username driver l s) as [[[b|e|] l'] s'];
    simpl in *; [| |done].
  - exists b. repeat split; try done.
  - exists false. subst l'. unfold modify_state, ret. simpl.
    rewrite Hc. repeat split; try done.
Qed.

(** The cache only grows. *)
Lemma validateTwitterUsername_cache_grows username driver (l : L) s :
  validatedProfiles s ⊆
  validatedProfiles (state_of (validateTwitterUsername env username driver l s)).
Proof.
  destruct (validatedProfiles s !! username) as [b|] eqn:Hb.
  - by rewrite (validateTwitterUsername_cached _ _ _ _ _ Hb).
  - destruct (validateTwitterUsername_uncached username driver l s Hb)
      as (b & _ & _ & -> & _).
    by apply insert_subseteq.
Qed.
End ValidationCache.

Lemma validateTwitterUsername_checked_once env username driver (l : unit) s :
  checked_once s →
  checked_once (state_of (validateTwitterUsername env username driver l s)).
Proof.
  intros Hinv. destruct (validatedProfiles s !! username) as [b|] eqn:Hb.
  - by rewrite (validateTwitterUsername_cached _ _ _ _ _ _ Hb).
  - destruct (validateTwitterUsername_uncached env username driver l s Hb)
      as (b & _ & _ & Hc & _ & evs & Hh & Hev).
    intros u. rewrite Hh, Hc, occurrences_app.
    specialize (Hinv u). specialize (Hev (profile_url u)).
    destruct (decide (u = username)) as [->|Hne].
    + rewrite lookup_insert_eq. rewrite Hb in Hinv.
      rewrite decide_True in Hev by done. lia.
    + rewrite lookup_insert_ne by done.
      rewrite decide_False in Hev; [lia|].
      intros Heq. by apply profile_url_inj in Heq.
Qed.

Lemma validate_all_checked_once env calls (l : unit) s :
  checked_once s → checked_once (state_of (validate_all env calls l s)).
Proof.
  revert l s. induction calls as [|[u d] calls IH]; intros l s Hinv; [done|].
  unfold validate_all. simpl. unfold bind at 1. unfold bind at 1.
  pose proof (validateTwitterUsername_checked_once env u d l s Hinv) as H1.
  destruct (validateTwitterUsername env u d l s) as [[[b|e|] l'] s']; simpl in *;
    try done.
  apply IH, H1.
Qed.

(** C4. The browser-side check of a handle happens at most once in a process
    lifetime: over any sequence of validation requests made by a process, the
    profile page of a handle is navigated to at most once; and once a handle
    has been validated, any later call with that handle returns the boolean
    of the first call and leaves the state as it is, so that it calls
    nothing. *)
Theorem validateTwitterUsername_once env :
  (∀ calls username,
     occurrences (Get (profile_url username))
       (history (state_of (validate_all env calls tt fresh_process))) ≤ 1) ∧
  (∀ L username driver driver' (l l' : L) s s',
     let first := validateTwitterUsername env username driver l s in
     validatedProfiles s ⊆ validatedProfiles (state_of first) ∧
     (validatedProfiles (state_of first) ⊆ validatedProfiles s' →
      ∃ b, outcome_of first = Returned b ∧
           validateTwitterUsername env username driver' l' s'
           = (Returned b, l', s'))).
Proof.
  split.
  - intros calls username.
    assert (checked_once fresh_process) as H0.
    { intros u. simpl. rewrite lookup_empty. by rewrite occurrences_nil. }
    pose proof (validate_all_checked_once env calls tt _ H0 username) as H.
    destruct (validatedProfiles _ !! username); lia.
  - intros L username driver driver' l l' s s'. simpl.
    split; [apply validateTwitterUsername_cache_grows|].
    intros Hsub.
    assert (∃ b, outcome_of (validateTwitterUsername env username driver l s)
                 = Returned b ∧
                 validatedProfiles
                   (state_of (validateTwitterUsername env username driver l s))
                 !! username = Some b) as (b & Hout & Hb).
    { destruct (validatedProfiles s !! username) as [b|] eqn:Hc.
      - exists b. by rewrite (validateTwitterUsername_cached _ _ _ _ _ _ Hc).
      - destruct (validateTwitterUsername_uncached env username driver l s Hc)
          as (b & Hout & _ & Hc' & _).
        exists b. split; [done|]. rewrite Hc'. apply lookup_insert_eq. }
    exists b. split; [done|].
    apply validateTwitterUsername_cached.
    by eapply lookup_weaken.
Qed.

(** The handle [realuser] is validated once; the second request, whatever
    happened in between, finds it in the cache. *)
Lemma validateTwitterUsername_once_witness :
  let first := validateTwitterUsername env_profile_exists "realuser"
                 (Some Session) tt fresh_process in
  outcome_of first = Returned true ∧
  validateTwitterUsername env_profile_exists "realuser" (Some Session) tt
    (state_of first)
  = (Returned true, tt, state_of first).
Proof.
  pose proof (proj2 (validateTwitterUsername_once env_profile_exists) unit
                "realuser" (Some Session) (Some Session) tt tt fresh_process
                (state_of (validateTwitterUsername env_profile_exists "realuser"
                             (Some Session) tt fresh_process))) as [_ H].
  destruct H as (b & Hb & Hsecond); [done|].
  assert (b = true) as -> by (vm_compute in Hb; congruence).
  split; [reflexivity | exact Hsecond].
Defined.

(** C5. If the browser-side check of a handle that is not cached fails with
    any error, the routine returns [false] and stores [false] under the
    handle; every later call with that handle returns [false] from the cache
    and leaves the state as it is. *)
Theorem validateTwitterUsername_error_cached {L} env username driver (l : L) s e :
  validatedProfiles s !! username = None →
  outcome_of (browser_check env username driver l s) = Thrown e →
  let r := validateTwitterUsername env username driver l s in
  outcome_of r = Returned false ∧
  validatedProfiles (state_of r) !! username = Some false ∧
  ∀ driver' (l' : L) s',
    validatedProfiles (state_of r) ⊆ validatedProfiles s' →
    validateTwitterUsername env username driver' l' s' = (Returned false, l', s').
Proof.
  intros Hnone Hthrown. simpl.
  destruct (validateTwitterUsername_uncached env username driver l s Hnone)
    as (b & Hout & _ & Hc & Hfalse & _).
  rewrite (Hfalse e Hthrown) in *.
  assert (validatedProfiles
            (state_of (validateTwitterUsername env username driver l s))
          !! username = Some false) as Hb.
  { rewrite Hc. apply lookup_insert_eq. }
  repeat split; [done..|].
  intros driver' l' s' Hsub.
  apply validateTwitterUsername_cached. by eapply lookup_weaken.
Qed.

(** The navigation to the profile page of [ghost] fails. *)
Lemma validateTwitterUsername_error_cached_witness :
  let r := validateTwitterUsername env_navigation_fails "ghost" (Some Session)
             tt fresh_process in
  outcome_of r = Returned false ∧
  validatedProfiles (state_of r) !! "ghost" = Some false.
Proof.
  pose proof (validateTwitterUsername_error_cached env_navigation_fails "ghost"
                (Some Session) tt fresh_process (ThrownError session_lost)
                eq_refl eq_refl) as (H1 & H2 & _).
  exact (conj H1 H2).
Defined.

(** ** PatternExtractor *)

#[global] Instance preserved_preorder {L} (Inv : L → Prop) : PreOrder (preserved Inv).
Proof. split; unfold preserved; [intros l; tauto | intros l1 l2 l3; tauto]. Qed.

Section JsSetFacts.
Context {A : Type} `{EqDecision A}.

Lemma set_add_present (v : A) s : v ∈ s → set_add v s = s.
Proof. intros Hin. unfold set_add. by rewrite decide_True. Qed.

Lemma set_add_NoDup (v : A) s : NoDup s → NoDup (set_add v s).
Proof.
  intros Hs. unfold set_add. case_decide; [done|].
  apply NoDup_app. split; [done|]. split; [|apply NoDup_singleton].
  intros x Hx ->%list_elem_of_singleton. done.
Qed.

Lemma set_add_elem (v x : A) s : x ∈ set_add v s ↔ x = v ∨ x ∈ s.
Proof.
  unfold set_add. case_decide.
  - split; [tauto|]. intros [->|]; done.
  - rewrite elem_of_app, list_elem_of_singleton. tauto.
Qed.

Lemma set_add_all_present (new s : list A) :
  (∀ v, v ∈ new → v ∈ s) → set_add_all new s = s.
Proof.
  revert s. induction new as [|v new IH]; intros s Hin; [done|].
  unfold set_add_all in *. simpl.
  rewrite set_add_present by (apply Hin; left).
  apply IH. intros x Hx. apply Hin. by right.
Qed.

Lemma set_add_all_NoDup (new s : list A) : NoDup s → NoDup (set_add_all new s).
Proof.
  revert s. induction new as [|v new IH]; intros s Hs; [done|].
  unfold set_add_all in *. simpl. by apply IH, set_add_NoDup.
Qed.
End JsSetFacts.

Section Extraction.
Variable env : Env.
Variable pattern : DataPattern.

Lemma apply_transform_locals {L} t m (l : L) s :
  locals_of (apply_transform t m l s) = l.
Proof.
  destruct t as [f|body]; simpl.
  - unfold invoke. by destruct (f m tt s) as [[r l'] s'].
  - unfold bind, try_catch, invoke.
    destruct (body m None tt s) as [[[v|e|] l'] s']; done.
Qed.

Lemma transformed_locals {L} m (l : L) s :
  locals_of (transformed pattern m l s) = l.
Proof.
  unfold transformed. destruct (transform (config pattern)); [|done].
  apply apply_transform_locals.
Qed.

Lemma apply_validate_locals {L} v value (l : L) s :
  locals_of (apply_validate v value l s) = l.
Proof.
  destruct v as [f|]; [|done]. simpl. unfold invoke.
  by destruct (f value tt s) as [[r l'] s'].
Qed.

(** What [process_match] does, in terms of its two steps. *)
Lemma process_match_spec m results s :
  let r := process_match pattern m results s in
  locals_of r = results ∨
  ∃ value s1 s2,
    transformed pattern m results s = (Returned value, results, s1) ∧
    apply_validate (validate (config pattern)) value results s1
    = (Returned true, results, s2) ∧
    r = (Returned tt, set_add value results, s2).
Proof.
  simpl. unfold process_match, bind.
  pose proof (transformed_locals m results s) as Hl.
  destruct (transformed pattern m results s) as [[[value|e|] l1] s1] eqn:Ht;
    simpl in Hl; subst l1; [|by left..].
  pose proof (apply_validate_locals (validate (config pattern)) value results s1)
    as Hl.
  destruct (apply_validate _ value results s1) as [[[ok|e|] l2] s2] eqn:Hv;
    simpl in Hl; subst l2; [|by left..].
  destruct ok; [|by left].
  right. by exists value, s1, s2.
Qed.

Section Invariant.
Variable Inv : list JsValue → Prop.
Variable P : JsValue → Prop.
Hypothesis Inv_add : ∀ v l, P v → Inv l → Inv (set_add v l).
Hypothesis P_transformed :
  ∀ m (l : list JsValue) s v,
    outcome_of (transformed pattern m l s) = Returned v → P v.

Lemma process_match_preserves m :
  loc_steps (preserved Inv) (process_match pattern m).
Proof.
  intros l s HInv.
  destruct (process_match_spec m l s) as [->|(v & s1 & s2 & Ht & _ & ->)];
    [done|]. simpl.
  apply Inv_add; [|done].
  apply (P_transformed m l s). by rewrite Ht.
Qed.

Lemma process_element_preserves element :
  loc_steps (preserved Inv) (process_element env pattern element).
Proof.
  unfold process_element, retryOperation_default. step_locals.
  all: apply process_match_preserves.
Qed.

Lemma process_selector_preserves driver selector :
  loc_steps (preserved Inv) (process_selector env driver pattern selector).
Proof.
  unfold process_selector. step_locals. apply process_element_preserves.
Qed.

(** An invariant of the [results] set that holds of the empty set holds of
    what [extractDataByPattern] returns. *)
Lemma extractDataByPattern_returns {L} driver (l : L) s r :
  Inv [] →
  outcome_of (extractDataByPattern env driver pattern l s) = Returned r →
  Inv r.
Proof.
  intros H0. unfold extractDataByPattern, invoke.
  set (scan := try_catch _ _).
  assert (loc_steps (preserved Inv) scan) as Hscan.
  { unfold scan. step_locals. apply process_selector_preserves. }
  specialize (Hscan (new_Set []) s H0). unfold bind.
  destruct (scan (new_Set []) s) as [[[u|e|] l1] s1]; simpl in *; try done.
  by intros [= <-].
Qed.
End Invariant.
End Extraction.

(** ** FrontierCrawler *)

#[global] Instance same_frontier_preorder : PreOrder same_frontier.
Proof.
  split.
  - by intros l.
  - intros l1 l2 l3 [H1 H2] [H3 H4]. split; congruence.
Qed.

Section CrawlFrame.
Variable env : Env.
Variables (driver : WebDriver) (pattern : DataPattern).
Variable R : relation CrawlLocals.
Context `{!PreOrder R}.
Hypothesis R_add : ∀ new l, R l (add_results new l).

Lemma interact_steps element : loc_steps R (interact env driver pattern element).
Proof.
  unfold interact, extractDataByPattern. step_locals. apply R_add.
Qed.

Lemma visit_steps currentUrl : loc_steps R (visit env driver pattern currentUrl).
Proof.
  unfold visit, extractDataByPattern. step_locals.
  - apply R_add.
  - apply interact_steps.
Qed.

Hypothesis R_shift :
  ∀ l, R l {| results := results l; visitedUrls := visitedUrls l;
              urlsToVisit := tail (urlsToVisit l) |}.

Lemma crawl_iteration_steps : loc_steps R (crawl_iteration env driver pattern).
Proof.
  unfold crawl_iteration. apply loc_steps_bind; [done| |].
  - intros l s. apply R_shift.
  - intros currentUrl. apply visit_steps.
Qed.

Lemma crawl_body_steps fuel : loc_steps R (crawl_body env fuel driver pattern).
Proof.
  unfold crawl_body. step_locals. apply crawl_iteration_steps.
Qed.
End CrawlFrame.

Section Crawl.
Variable env : Env.
Variables (driver : WebDriver) (pattern : DataPattern).

Lemma visit_no_throw currentUrl :
  no_throw (visit env driver pattern currentUrl).
Proof.
  intros l s e. unfold visit, try_catch.
  match goal with
  | |- context [match ?m l s with _ => _ end] =>
      by destruct (m l s) as [[[a|e'|] l'] s']
  end.
Qed.


(** The queue only ever loses its head: one iteration of the loop leaves
    the visited set as it is and the queue without its first URL. *)
Lemma crawl_iteration_frontier l s :
  let l' := locals_of (crawl_iteration env driver pattern l s) in
  visitedUrls l' = visitedUrls l ∧ urlsToVisit l' = tail (urlsToVisit l).
Proof.
  simpl. unfold crawl_iteration, bind, shift.
  pose proof (visit_steps env driver pattern same_frontier
                (λ new l, conj eq_refl eq_refl)
                (head (urlsToVisit l))
                {| results := results l; visitedUrls := visitedUrls l;
                   urlsToVisit := tail (urlsToVisit l) |} s) as [H1 H2].
  destruct (visit _ _ _ _ _ s) as [[[u|e|] l1] s1]; simpl in *; done.
Qed.

(** With the queue holding the seed alone, the loop is one visit. *)
Lemma crawl_body_once fuel baseUrl s :
  crawl_body env (S fuel) driver pattern (crawl_init baseUrl) s
  = (visit env driver pattern (Some baseUrl) ;;
     l <- get_locals ;;
     ret (Array_from (results l)))
      {| results := []; visitedUrls := [baseUrl]; urlsToVisit := [] |} s.
Proof.
  unfold crawl_body. unfold bind at 1 3. simpl.
  unfold bind at 1. unfold crawl_iteration. unfold bind at 1. simpl.
  pose proof (visit_steps env driver pattern same_frontier
                (λ new l, conj eq_refl eq_refl) (Some baseUrl)
                {| results := []; visitedUrls := [baseUrl]; urlsToVisit := [] |}
                s) as [H1 H2].
  change (set_add baseUrl []) with [baseUrl].
  destruct (visit _ _ _ _ _ s) as [[[u|e|] l1] s1]; simpl in *; try done.
  assert (crawl_condition l1 = false) as Hc.
  { unfold crawl_condition. by rewrite H2. }
  destruct fuel; simpl; by rewrite Hc.
Qed.
End Crawl.

#[global] Instance same_visited_preorder : PreOrder same_visited.
Proof.
  split; [by intros l|]. intros l1 l2 l3 H1 H2. unfold same_visited in *.
  congruence.
Qed.




(** ** The transform is not awaited *)





(** C1, at the failing input. For every match the transform is applied
    first and validate is applied to its result, in the state the transform
    left; the result set changes only by adding a value validate accepted.
    But a null result does not drop the match: the twitter transform resolves
    to [null] for the profile link of the page below, and a transform that
    returns [null] does so at once, and the result set holds the two pending
    promises, respectively [null]. *)
Theorem per_match_pipeline :
  (∀ pattern m results s,
     let r := process_match pattern m results s in
     locals_of r = results ∨
     ∃ value s1 s2,
       transformed pattern m results s = (Returned value, results, s1) ∧
       apply_validate (validate (config pattern)) value results s1
       = (Returned true, results, s2) ∧
       r = (Returned tt, set_add value results, s2)) ∧
  outcome_of (twitter_transform env_ghost_link "https://x.com/ghost" None tt
                fresh_process)
  = Returned JsNull ∧
  outcome_of (extractDataByPattern env_ghost_link Session
                (twitter env_ghost_link ghost_regex) tt fresh_process)
  = Returned [JsPromise 0; JsPromise 1] ∧
  outcome_of (extractDataByPattern env_ghost_link Session null_pattern tt
                fresh_process)
  = Returned [JsNull].
Proof.
  split; [intros pattern m results s; apply process_match_spec|].
  repeat split; vm_compute; reflexivity.
Qed.

(** ** PatternRegistry *)

Section Synthesis.
Variable env : Env.
Variable JSON_parse : string → option Json.
Variable compiles : string → bool.

Lemma get_prop_pure {L} v key (l : L) s :
  ∃ o, get_prop v key l s = (o, l, s) ∧
       (∀ x, o = Returned x → x = prop_of v key) ∧ o ≠ OutOfFuel.
Proof.
  destruct v; simpl; eexists; (split; [reflexivity|]); split; try done;
    intros x [= <-]; done.
Qed.

Lemma functionalize_pure {L} config key params (l : L) s :
  ∃ o, functionalize compiles config key params l s = (o, l, s).
Proof.
  unfold functionalize, bind.
  destruct (get_prop_pure config key l s) as (o & -> & _ & _).
  destruct o as [[[]|]| |]; try (by eexists).
  destruct (compiles s0); by eexists.
Qed.

(** The validator neither calls anything nor changes anything. *)
Lemma validateAndTransformPattern_pure {L} pattern (l : L) s :
  ∃ o, validateAndTransformPattern compiles pattern l s = (o, l, s).
Proof.
  unfold validateAndTransformPattern, bind.
  destruct (get_prop_pure pattern "name" l s) as (o1 & -> & _ & _).
  destruct o1 as [name| |]; try (by eexists).
  destruct (negb (truthy_prop name)); [by eexists|].
  destruct (get_prop_pure pattern "patterns" l s) as (o2 & -> & _ & _).
  destruct o2 as [patterns| |]; try (by eexists).
  destruct (negb (truthy_prop patterns)); [by eexists|].
  destruct (get_prop_pure pattern "config" l s) as (o3 & -> & _ & _).
  destruct o3 as [[config|]| |]; try (by eexists).
  destruct (negb (truthy_prop (Some config))); [by eexists|].
  unfold bind.
  destruct (functionalize_pure config "transform" ["value"; "driver"] l s)
    as (o4 & ->).
  destruct o4 as [config1| |]; try (by eexists).
  destruct (functionalize_pure config1 "validate" ["value"] l s) as (o5 & ->).
  destruct o5 as [config2| |]; by eexists.
Qed.

(** The validator returns a pattern only for a specification with a truthy
    [name], a truthy [patterns] and a truthy [config]. *)
Lemma validateAndTransformPattern_accepts {L} pattern (l : L) s p :
  outcome_of (validateAndTransformPattern compiles pattern l s) = Returned (Some p) →
  well_formed pattern = true.
Proof.
  unfold validateAndTransformPattern, well_formed, bind.
  destruct (get_prop_pure pattern "name" l s) as (o1 & -> & H1 & _).
  destruct o1 as [name| |]; try done. rewrite <- (H1 name eq_refl).
  destruct (truthy_prop name); cbn [negb andb]; [|done].
  destruct (get_prop_pure pattern "patterns" l s) as (o2 & -> & H2 & _).
  destruct o2 as [patterns| |]; try done. rewrite <- (H2 patterns eq_refl).
  destruct (truthy_prop patterns); cbn [negb andb]; [|done].
  destruct (get_prop_pure pattern "config" l s) as (o3 & -> & H3 & _).
  destruct o3 as [config| |]; try done. rewrite <- (H3 config eq_refl).
  destruct config as [config|]; [|done].
  by destruct (truthy_prop (Some config)).
Qed.

(** The validator has no loop. *)
Lemma validateAndTransformPattern_terminates {L} pattern (l : L) s :
  outcome_of (validateAndTransformPattern compiles pattern l s) ≠ OutOfFuel.
Proof.
  unfold validateAndTransformPattern, bind.
  destruct (get_prop_pure pattern "name" l s) as (o1 & -> & _ & F1).
  destruct o1 as [name| |]; try done.
  destruct (negb (truthy_prop name)); [done|].
  destruct (get_prop_pure pattern "patterns" l s) as (o2 & -> & _ & F2).
  destruct o2 as [patterns| |]; try done.
  destruct (negb (truthy_prop patterns)); [done|].
  destruct (get_prop_pure pattern "config" l s) as (o3 & -> & _ & F3).
  destruct o3 as [[config|]| |]; try done.
  destruct (negb (truthy_prop (Some config))); [done|].
  unfold bind, functionalize, bind.
  destruct (get_prop_pure config "transform" l s) as (o4 & -> & _ & F4).
  destruct o4 as [[[]|]| |]; try done;
    try (destruct (compiles _); try done);
    simpl;
    match goal with
    | |- context [get_prop ?c "validate" l s] =>
        destruct (get_prop_pure c "validate" l s) as (o5 & -> & _ & F5);
        destruct o5 as [[[]|]| |]; try done;
        try (destruct (compiles _); done)
    end.
Qed.

(** A specification that fails the check is answered with [null], or with a
    [TypeError] when it is [null] itself. *)
Lemma validateAndTransformPattern_rejects {L} pattern (l : L) s :
  well_formed pattern = false →
  outcome_of (validateAndTransformPattern compiles pattern l s) = Returned None ∨
  ∃ e, outcome_of (validateAndTransformPattern compiles pattern l s) = Thrown e.
Proof.
  intros Hwf.
  pose proof (validateAndTransformPattern_accepts pattern l s) as Hacc.
  pose proof (validateAndTransformPattern_terminates pattern l s) as Hterm.
  destruct (outcome_of _) as [[p|]| |]; [|by left|right; by eexists|done].
  specialize (Hacc p eq_refl). congruence.
Qed.

(** [generateDataPattern] asks the model once, never throws, and returns a
    pattern only when the answer parses to a specification that passes the
    validator. *)
Lemma generateDataPattern_spec {L} dataType (l : L) s :
  let ask := GenerateText (generateDataPattern_prompt dataType) in
  let r := generateDataPattern env JSON_parse compiles dataType l s in
  locals_of r = l ∧
  state_of r = with_history (history s ++ [ask]) s ∧
  (outcome_of r = Returned None ∨
   ∃ response pattern p,
     outcome_of r = Returned (Some p) ∧
     env (history s) ask = Resolve (Some response) ∧
     JSON_parse response = Some pattern ∧
     well_formed pattern = true).
Proof.
  simpl. unfold generateDataPattern, try_catch, bind, call.
  destruct (env (history s) _) as [[response|]|e] eqn:Hask; simpl;
    [|by repeat split; left..].
  destruct (JSON_parse response) as [pattern|] eqn:Hparse; simpl;
    [|by repeat split; left].
  set (s1 := with_history _ s).
  destruct (validateAndTransformPattern_pure pattern l s1) as (o & Ho).
  pose proof (validateAndTransformPattern_accepts pattern l s1) as Hacc.
  pose proof (validateAndTransformPattern_terminates pattern l s1) as Hterm.
  rewrite Ho in *. simpl in *.
  destruct o as [[p|]| |]; simpl; [|by repeat split; left..|done].
  repeat split. right. exists response, pattern, p.
  repeat split; try done. by apply (Hacc p).
Qed.

Lemma some_test_locals {L} ps text : loc_steps (@eq L) (some_test env ps text).
Proof. induction ps as [|p ps IH]; simpl; step_locals. apply IH. Qed.

Lemma get_prop_locals {L} v key : loc_steps (@eq L) (get_prop v key).
Proof. destruct v; simpl; step_locals. Qed.

Lemma entry_matches_locals {L} text key entry :
  loc_steps (@eq L) (entry_matches env text key entry).
Proof.
  unfold entry_matches, not_a_function.
  destruct (includes text key); [step_locals|].
  destruct entry as [p|spec].
  - destruct (includes _ _); [step_locals|]. apply some_test_locals.
  - apply loc_steps_bind; [apply _|apply get_prop_locals|]. intros name.
    apply loc_steps_bind; [apply _| |].
    + step_locals.
    + intros byName. destruct byName; [step_locals|].
      apply loc_steps_bind; [apply _|apply get_prop_locals|]. intros patterns.
      step_locals.
Qed.

(** The classification loop returns keys of the registry, and leaves the
    registry as it is. *)
Lemma classify_spec {L} text entries types (l : L) s :
  let r := classify env text entries types l s in
  locals_of r = l ∧
  ∀ types', outcome_of r = Returned types' →
            ∀ t, t ∈ types' → t ∈ types ∨ t ∈ entries.*1.
Proof.
  revert types l s. induction entries as [|[key entry] entries IH];
    intros types l s; simpl.
  - split; [done|]. intros types' [= <-] t Ht. by left.
  - unfold bind.
    pose proof (entry_matches_locals text key entry l s) as Hl.
    destruct (entry_matches env text key entry l s) as [[[b|e|] l1] s1];
      simpl in *; subst l1; [|done..].
    destruct (IH (if b then types ++ [key] else types) l s1) as [Hl' Hkeys].
    split; [done|]. intros types' Hr t Ht.
    destruct (Hkeys types' Hr t Ht) as [Hin|Hin]; [|right; by right].
    destruct b; [|by left].
    apply elem_of_app in Hin as [Hin|Hin%list_elem_of_singleton];
      [by left|]. subst t. right. by left.
Qed.

Lemma assoc_is_Some {V} key (fields : list (string * V)) :
  key ∈ fields.*1 → is_Some (assoc key fields).
Proof.
  induction fields as [|[k v] fields IH]; simpl; [by intros ?%elem_of_nil|].
  intros Hin. destruct (String.eqb_spec k key); [done|].
  apply IH. apply elem_of_cons in Hin as [Heq|Hin]; [|done].
  simpl in Heq. congruence.
Qed.

Lemma assoc_cons {V} key k (w : V) fields :
  assoc key ((k, w) :: fields)
  = if String.eqb k key then Some w else assoc key fields.
Proof. reflexivity. Qed.

Lemma assoc_replace_key {V} key key' (v : V) fields :
  assoc key' (replace_key key v fields)
  = if String.eqb key key' && bool_decide (is_Some (assoc key fields))
    then Some v else assoc key' fields.
Proof.
  induction fields as [|[k w] fields IH]; cbn [replace_key].
  - rewrite bool_decide_eq_false_2 by (by intros [? ?]).
    by rewrite andb_false_r.
  - destruct (String.eqb_spec k key) as [->|Hne].
    + rewrite !assoc_cons, String.eqb_refl.
      rewrite bool_decide_eq_true_2 by done. rewrite andb_true_r.
      by destruct (String.eqb key key').
    + rewrite !assoc_cons, IH.
      destruct (String.eqb_spec k key) as [|_]; [done|].
      destruct (String.eqb_spec k key') as [->|_]; [|done].
      by destruct (String.eqb_spec key key').
Qed.

Lemma assoc_insert_key {V} key key' (v : V) fields :
  assoc key fields = None →
  assoc key' (insert_key key v fields)
  = if String.eqb key key' then Some v else assoc key' fields.
Proof.
  induction fields as [|[k w] fields IH]; cbn [insert_key]; [done|].
  rewrite assoc_cons. destruct (String.eqb_spec k key) as [|Hne]; [done|].
  intros Hnone.
  assert (assoc key' ((k, w) :: insert_key key v fields)
          = if String.eqb key key' then Some v else assoc key' ((k, w) :: fields))
    as Hlater.
  { rewrite !assoc_cons, (IH Hnone).
    destruct (String.eqb_spec k key') as [->|_]; [|done].
    by destruct (String.eqb_spec key key'). }
  destruct (array_index key) as [n|]; [|exact Hlater].
  destruct (array_index k) as [m|]; [destruct (n <? m)%N|]; done.
Qed.

Lemma assoc_set_lookup {V} key (v : V) fields : assoc key (assoc_set key v fields) = Some v.
Proof.
  unfold assoc_set. destruct (assoc key fields) as [w|] eqn:Hkey.
  - rewrite assoc_replace_key, String.eqb_refl, Hkey.
    by rewrite bool_decide_eq_true_2.
  - by rewrite assoc_insert_key, String.eqb_refl.
Qed.

Lemma assoc_set_is_Some {V} key key' (v : V) fields :
  is_Some (assoc key' fields) → is_Some (assoc key' (assoc_set key v fields)).
Proof.
  intros Hsome. unfold assoc_set. destruct (assoc key fields) as [w|] eqn:Hkey.
  - rewrite assoc_replace_key. by destruct (_ && _).
  - rewrite assoc_insert_key by done. by destruct (String.eqb key key').
Qed.

(** [determineDataTypes] changes the registry only by registering, under a
    key that was free, a pattern whose specification passed the validator;
    the keys it returns are keys of the registry. *)
Lemma determineDataTypes_spec text reg s :
  let r := determineDataTypes env JSON_parse compiles text reg s in
  (locals_of r = reg ∨
   ∃ dataType response pattern p,
     assoc dataType reg = None ∧
     JSON_parse response = Some pattern ∧
     well_formed pattern = true ∧
     locals_of r = assoc_set dataType (Synthesized p) reg ∧
     outcome_of r = Returned [dataType]) ∧
  ∀ types, outcome_of r = Returned types →
           ∀ t, t ∈ types → is_Some (assoc t (locals_of r)).
Proof.
  destruct (determineDataTypes env JSON_parse compiles text reg s)
    as [[o l'] s'] eqn:Hrun.
  cbv zeta. cbn [outcome_of locals_of state_of fst snd].
  revert Hrun. unfold determineDataTypes. unfold bind at 1.
  unfold get_locals at 1. unfold bind at 1.
  destruct (classify_spec (L := list (string * Entry)) (toLowerCase text) reg [] reg s)
    as [Hl Hkeys].
  destruct (classify (L := list (string * Entry)) env (toLowerCase text) reg [] reg s)
    as [[[types|e|] l1] s1] eqn:Hclassify; simpl in Hl; subst l1;
    [|end_run; by split; [left|]..].
  simpl in Hkeys.
  assert (∀ t, t ∈ types → is_Some (assoc t reg)) as Hreg.
  { intros t Ht. destruct (Hkeys types eq_refl t Ht) as [Hin|Hin].
    - by apply elem_of_nil in Hin.
    - by apply assoc_is_Some. }
  destruct types as [|t0 types]; cbn [length Nat.eqb].
  2: { end_run. split; [by left|]. intros ? [= <-]. done. }
  unfold bind at 1. unfold call.
  destruct (env (history s1) _) as [[dataType|]|e];
    [| end_run; split; [by left|];
       intros ? [= <-] t Ht; by apply elem_of_nil in Ht
     | end_run; by split; [left|] ].
  unfold bind at 1. unfold get_locals at 1.
  destruct (has_pattern dataType reg) eqn:Hhas; cbn [negb].
  { end_run. split; [by left|].
    intros ? [= <-] t Ht. by apply elem_of_nil in Ht. }
  assert (assoc dataType reg = None) as Hfree.
  { unfold has_pattern in Hhas. apply orb_false_elim in Hhas as [Hown _].
    apply bool_decide_eq_false in Hown.
    destruct (assoc dataType reg); [|done]. by destruct Hown. }
  set (s2 := with_history _ s1).
  unfold bind at 1.
  destruct (generateDataPattern_spec (L := list (string * Entry)) dataType reg s2)
    as (Hl & _ & Hgen).
  destruct (generateDataPattern (L := list (string * Entry)) env JSON_parse compiles
              dataType reg s2)
    as [[[[p|]|e|] l3] s3]; simpl in Hl, Hgen; subst l3.
  - destruct Hgen as [[=]|(response & pattern & p' & [= <-] & _ & Hparse & Hwf)].
    unfold bind, modify_locals, ret. end_run.
    split.
    + right. by exists dataType, response, pattern, p.
    + intros ? [= <-] t ->%list_elem_of_singleton.
      rewrite assoc_set_lookup. done.
  - end_run. split; [by left|].
    intros ? [= <-] t Ht. by apply elem_of_nil in Ht.
  - end_run. by split; [left|].
  - end_run. by split; [left|].
Qed.
End Synthesis.

(** C7 (as amended). A synthesized specification is registered only when
    the specification has a truthy [name], a truthy [patterns] and a truthy
    [config] property: the validator returns a pattern for such
    specifications only, and returns [null] (or throws, on a [null]
    specification) for the others; [determineDataTypes] leaves the registry
    as it is unless the specification the model produced passed that check,
    in which case it registers the pattern under the proposed key, which was
    free; and every key it returns is a key of the registry, so that a
    rejected key is dropped. *)
Theorem synthesized_pattern_registration env JSON_parse compiles :
  (∀ L pattern (l : L) s p,
     outcome_of (validateAndTransformPattern compiles pattern l s)
     = Returned (Some p) →
     well_formed pattern = true) ∧
  (∀ L pattern (l : L) s,
     well_formed pattern = false →
     outcome_of (validateAndTransformPattern compiles pattern l s) = Returned None ∨
     ∃ e, outcome_of (validateAndTransformPattern compiles pattern l s) = Thrown e) ∧
  (∀ text reg s,
     let r := determineDataTypes env JSON_parse compiles text reg s in
     (locals_of r = reg ∨
      ∃ dataType response pattern p,
        assoc dataType reg = None ∧
        JSON_parse response = Some pattern ∧
        well_formed pattern = true ∧
        locals_of r = assoc_set dataType (Synthesized p) reg ∧
        outcome_of r = Returned [dataType]) ∧
     ∀ types, outcome_of r = Returned types →
              ∀ t, t ∈ types → is_Some (assoc t (locals_of r))).
Proof.
  split; [intros L pattern l s p; apply validateAndTransformPattern_accepts|].
  split; [intros L pattern l s; apply validateAndTransformPattern_rejects|].
  intros text reg s. apply determineDataTypes_spec.
Qed.

(** The specification with a name, an empty pattern list and an empty
    configuration passes the validator. *)
Lemma synthesized_pattern_registration_witness :
  outcome_of (validateAndTransformPattern compiles_all coupons_spec tt fresh_process)
  = Returned (Some coupons_spec) ∧
  well_formed coupons_spec = true.
Proof.
  assert (outcome_of (validateAndTransformPattern compiles_all coupons_spec tt
                        fresh_process)
          = Returned (Some coupons_spec)) as H by reflexivity.
  split; [exact H|].
  exact (proj1 (synthesized_pattern_registration env_proposes_coupons
                  (parses_only coupons_json coupons_spec) compiles_all)
           unit coupons_spec tt fresh_process coupons_spec H).
Defined.

(** C7, counterexample. The model answers with the JSON text of a
    specification with a name, no pattern and no selector.  The
    specification does not meet what the claim requires, and is registered
    all the same. *)
Lemma synthesized_pattern_registration_counterexample :
  spec_requirements coupons_spec = false ∧
  let r := determineDataTypes env_proposes_coupons
             (parses_only coupons_json coupons_spec) compiles_all
             "find coupons" [] fresh_process in
  outcome_of r = Returned ["coupons"] ∧
  locals_of r = [("coupons", Synthesized coupons_spec)].
Proof. split; [reflexivity|]. split; vm_compute; reflexivity. Qed.

(** ** Calls made by a computation *)

#[global] Instance extends_with_preorder P : PreOrder (extends_with P).
Proof.
  split.
  - intros s. exists []. by rewrite app_nil_r.
  - intros s1 s2 s3 (e1 & H1 & F1) (e2 & H2 & F2). exists (e1 ++ e2).
    rewrite H2, H1, app_assoc. split; [done|]. by apply Forall_app.
Qed.

Lemma extends_with_event (P : Cmd → Prop) c s :
  P c → extends_with P s (with_history (history s ++ [c]) s).
Proof. intros Hc. exists [c]. split; [done|]. by apply Forall_singleton. Qed.

Section StateSteps.
Context {L : Type}.
Context (R : relation St) `{!PreOrder R}.

Lemma st_steps_ret {A} (a : A) : st_steps R (@ret L A a).
Proof. intros l s. reflexivity. Qed.

Lemma st_steps_throw {A} e : st_steps R (@throw L A e).
Proof. intros l s. reflexivity. Qed.

Lemma st_steps_bind {A B} (m : M L A) (k : A → M L B) :
  st_steps R m → (∀ a, st_steps R (k a)) → st_steps R (bind m k).
Proof.
  intros Hm Hk l s. unfold bind. specialize (Hm l s).
  destruct (m l s) as [[[a|e|] l'] s'] eqn:E; simpl in *; try done.
  etrans; [exact Hm | apply Hk].
Qed.

Lemma st_steps_try_catch {A} (m : M L A) (h : Exn → M L A) :
  st_steps R m → (∀ e, st_steps R (h e)) → st_steps R (try_catch m h).
Proof.
  intros Hm Hh l s. unfold try_catch. specialize (Hm l s).
  destruct (m l s) as [[[a|e|] l'] s'] eqn:E; simpl in *; try done.
  etrans; [exact Hm | apply Hh].
Qed.

Lemma st_steps_call env c :
  (∀ s, R s (with_history (history s ++ [c]) s)) → st_steps R (@call env L c).
Proof. intros Hc l s. unfold call. destruct (env _ c); apply Hc. Qed.

Lemma st_steps_get_locals : st_steps R (@get_locals L).
Proof. intros l s. reflexivity. Qed.

Lemma st_steps_modify_locals f : st_steps R (@modify_locals L f).
Proof. intros l s. reflexivity. Qed.

Lemma st_steps_get_prop v key : st_steps R (@get_prop L v key).
Proof. destruct v; simpl; first [apply st_steps_ret | apply st_steps_throw]. Qed.
End StateSteps.

(** Goals of the form [st_steps (extends_with P) m], by the structure of
    [m]; what is left are the side conditions [P c] of the calls. *)
Ltac step_state :=
  repeat match goal with
    | |- st_steps _ (ret _) => apply st_steps_ret
    | |- st_steps _ (throw _) => apply st_steps_throw
    | |- st_steps _ (not_a_function _) => apply st_steps_throw
    | |- st_steps ?R (call ?env ?c) =>
        apply (st_steps_call R env c); intros ?; apply extends_with_event
    | |- st_steps _ get_locals => apply st_steps_get_locals
    | |- st_steps _ (modify_locals _) => apply st_steps_modify_locals
    | |- st_steps _ (get_prop _ _) => apply st_steps_get_prop
    | |- st_steps _ (bind _ _) => apply st_steps_bind
    | |- st_steps _ (try_catch _ _) => apply st_steps_try_catch
    | |- st_steps _ (if ?b then _ else _) => destruct b
    | |- st_steps _ (match ?x with _ => _ end) => destruct x
    | |- ∀ _, _ => intros ?
    | |- PreOrder _ => apply _
    end.

Section Classification.
Variable env : Env.
Variable JSON_parse : string → option Json.
Variable compiles : string → bool.

Lemma validateAndTransformPattern_calls {L} pattern :
  st_steps (extends_with no_session)
    (@validateAndTransformPattern compiles L pattern).
Proof.
  intros l s.
  destruct (validateAndTransformPattern_pure compiles pattern l s) as (o & ->).
  reflexivity.
Qed.

Lemma generateDataPattern_calls {L} dataType :
  st_steps (extends_with no_session)
    (@generateDataPattern env JSON_parse compiles L dataType).
Proof.
  unfold generateDataPattern. step_state; try done.
  apply validateAndTransformPattern_calls.
Qed.

Lemma some_test_calls {L} ps text :
  st_steps (extends_with no_session) (@some_test env L ps text).
Proof. induction ps as [|p ps IH]; simpl; step_state; try done. Qed.

Lemma classify_calls {L} text entries types :
  st_steps (extends_with no_session) (@classify env L text entries types).
Proof.
  revert types. induction entries as [|[key entry] entries IH]; intros types;
    simpl; [step_state|].
  apply st_steps_bind; [apply _| |intros b; apply IH].
  unfold entry_matches. step_state; try done. apply some_test_calls.
Qed.

(** Classification talks to the language model and to the regular-expression
    engine only. *)
Lemma determineDataTypes_calls text :
  st_steps (extends_with no_session)
    (determineDataTypes env JSON_parse compiles text).
Proof.
  unfold determineDataTypes.
  apply st_steps_bind; [apply _|apply st_steps_get_locals; apply _|].
  intros reg.
  apply st_steps_bind; [apply _|apply classify_calls|]. intros types.
  destruct (Nat.eqb _ _); [|step_state].
  apply st_steps_bind; [apply _| |].
  { step_state. done. }
  intros [dataType|]; [|step_state].
  apply st_steps_bind; [apply _|apply st_steps_get_locals; apply _|].
  intros reg'. destruct (negb _); [|step_state].
  apply st_steps_bind; [apply _|apply generateDataPattern_calls|].
  intros [p|]; step_state.
Qed.
End Classification.

(** ** The top-level action without a seed URL *)

Section HandlerNoSeed.
Variable env : Env.
Variable JSON_parse : string → option Json.
Variable compiles : string → bool.
Variable ToString : JsValue → string.
Variable name_ToString : option Json → string.
Variable as_DataPattern : Json → DataPattern.
Variables (fuel : nat) (text : string) (callback : bool).
Hypothesis Hseed : no_seed_url env text.

(** The [try] block stops at the missing URL, or before. *)
Lemma handler_try_no_seed l s :
  driver l = None →
  let classified :=
    determineDataTypes env JSON_parse compiles text (dataPatterns l) s in
  let r := handler_try env JSON_parse compiles ToString name_ToString
             as_DataPattern fuel text callback l s in
  driver (locals_of r) = None ∧
  extends_with no_session s (state_of r) ∧
  outcome_of r ≠ Returned true ∧
  ∀ types, types ≠ [] → outcome_of classified = Returned types →
           outcome_of r = Thrown (ThrownError (Error no_url_message)).
Proof.
  intros Hdriver. cbv zeta.
  destruct (handler_try _ _ _ _ _ _ _ _ _ l s) as [[o l'] s'] eqn:Hrun.
  cbn [outcome_of locals_of state_of fst snd].
  revert Hrun. unfold handler_try. unfold bind at 1. unfold in_module.
  pose proof (determineDataTypes_calls env JSON_parse compiles text
                (dataPatterns l) s) as Hcalls.
  destruct (determineDataTypes env JSON_parse compiles text (dataPatterns l) s)
    as [[[types|e|] reg] s1]; cbn [outcome_of state_of fst snd] in *;
    [|end_run; by repeat split..].
  destruct types as [|t types]; cbn [length Nat.eqb].
  - unfold bind at 1. destruct callback.
    + unfold call.
      destruct (env (history s1) _); end_run; cbn;
        (split; [done|]);
        (split; [|split; [done|intros types Hne [= <-]; done]]);
        (etrans; [exact Hcalls|]); by apply extends_with_event.
    + unfold ret. end_run.
      split; [done|]. split; [done|]. split; [done|].
      intros types Hne [= <-]; done.
  - destruct Hseed as [-> Hsetting]. unfold bind at 1, call.
    assert (extends_with no_session s
              (with_history (history s1 ++ [GetSetting "WEBSITE_URL"]) s1))
      as Hext.
    { etrans; [exact Hcalls|]. by apply extends_with_event. }
    destruct (Hsetting (history s1)) as [-> | ->]; cbn; end_run;
      by repeat split.
Qed.

Lemma handler_catch_spec error l s :
  let r := handler_catch env callback error l s in
  locals_of r = l ∧
  extends_with no_session s (state_of r) ∧
  outcome_of r ≠ Returned true ∧
  (callback = false → r = (Returned false, l, s)) ∧
  ∀ err, callback = true → error = ThrownError err →
         history (state_of r)
         = history s ++ [Callback (sorry_prefix ++ message err)%string
                           (ErrorContent (message err))].
Proof.
  cbv zeta. unfold handler_catch.
  destruct callback; [destruct error as [|err]|];
    unfold bind, call, error_message, ret, throw; cbn.
  - repeat split; try done; reflexivity.
  - destruct (env (history s) _); cbn; repeat split; try done;
      try (by apply extends_with_event); try (intros ? _ [= <-]; done).
  - repeat split; try done; reflexivity.
Qed.

Lemma handler_catch_outcome err l s :
  callback = true →
  let report := Callback (sorry_prefix ++ message err)%string
                  (ErrorContent (message err)) in
  outcome_of (handler_catch env callback (ThrownError err) l s)
  = match env (history s) report with
    | Resolve _ => Returned false
    | Reject e => Thrown (ThrownError e)
    end.
Proof.
  intros ->. cbv zeta. unfold handler_catch, bind, call, error_message, ret.
  by destruct (env (history s) _).
Qed.

Lemma handler_finally_no_driver l s :
  driver l = None → handler_finally env l s = (Returned tt, l, s).
Proof.
  intros Hd. unfold handler_finally, bind, get_locals. by rewrite Hd.
Qed.

(** The whole handler, when no seed URL is available. *)
Lemma handler_no_seed reg s :
  let classified := determineDataTypes env JSON_parse compiles text reg s in
  let r := handler env JSON_parse compiles ToString name_ToString
             as_DataPattern fuel text callback reg s in
  extends_with no_session s (state_of r) ∧
  outcome_of r ≠ Returned true ∧
  ∀ types, types ≠ [] → outcome_of classified = Returned types →
           (callback = true →
            ∃ h, history (state_of r) = h ++ [not_configured] ∧
                 outcome_of r = match env h not_configured with
                                | Resolve _ => Returned false
                                | Reject e => Thrown (ThrownError e)
                                end) ∧
           (callback = false → outcome_of r = Returned false).
Proof.
  cbv zeta. unfold handler, with_driver_variable, try_finally, try_catch.
  set (l0 := {| dataPatterns := reg; driver := None |}).
  pose proof (handler_try_no_seed l0 s eq_refl) as (Hd & Hext & Hout & Hurl).
  cbv zeta in Hurl. cbn [dataPatterns l0] in Hurl.
  destruct (handler_try _ _ _ _ _ _ _ _ _ l0 s) as [[[b|e|] l1] s1];
    cbn [outcome_of locals_of state_of fst snd] in *.
  - rewrite (handler_finally_no_driver l1 s1 Hd). cbn.
    split; [done|]. split; [done|]. intros types Hne Hc.
    by specialize (Hurl types Hne Hc).
  - pose proof (handler_catch_spec e l1 s1) as (Hl & Hext' & Hout' & Hsilent & Hcb).
    cbv zeta in *.
    destruct (handler_catch env callback e l1 s1) as [[o2 l2] s2] eqn:Hcatch;
      cbn [outcome_of locals_of state_of fst snd] in *. subst l2.
    assert (extends_with no_session s s2) as Hall by (by etrans).
    assert (∀ types, types ≠ [] →
              outcome_of (determineDataTypes env JSON_parse compiles text reg s)
              = Returned types →
              (callback = true →
               ∃ h, history s2 = h ++ [not_configured] ∧
                    o2 = match env h not_configured with
                         | Resolve _ => Returned false
                         | Reject e => Thrown (ThrownError e)
                         end) ∧
              (callback = false → o2 = Returned false)) as Hlast.
    { intros types Hne Hc. specialize (Hurl types Hne Hc).
      injection Hurl as ->. split.
      - intros Htrue. exists (history s1). split.
        + by rewrite (Hcb _ Htrue eq_refl).
        + pose proof (handler_catch_outcome (Error no_url_message) l1 s1 Htrue)
            as Ho. cbv zeta in Ho. rewrite Hcatch in Ho. exact Ho.
      - intros Hfalse. specialize (Hsilent Hfalse). by injection Hsilent as -> _. }
    destruct o2 as [b| |]; rewrite ?(handler_finally_no_driver l1 s2 Hd);
      cbn [outcome_of locals_of state_of fst snd];
      (split; [done|]); (split; [done|]); exact Hlast.
  - split; [done|]. split; [done|]. intros types Hne Hc.
    by specialize (Hurl types Hne Hc).
Qed.
End HandlerNoSeed.

(** C8 (as amended). When no seed URL is available, the handler does not
    return [true] and calls nothing that needs a browser session: no session
    is created.  When at least one data type was determined, the failure is
    the missing URL: with a callback, the last call of the handler hands
    [No website URL provided or configured] to it, and the handler returns
    [false] when that call returns and throws the error of the callback when
    it throws; without a callback, the handler returns [false]. *)
Theorem handler_without_seed_url env JSON_parse compiles ToString
    name_ToString as_DataPattern fuel text callback reg s :
  no_seed_url env text →
  let classified := determineDataTypes env JSON_parse compiles text reg s in
  let r := handler env JSON_parse compiles ToString name_ToString
             as_DataPattern fuel text callback reg s in
  (∃ evs, history (state_of r) = history s ++ evs ∧
          Forall no_session evs ∧ SetupWebDriver ∉ evs) ∧
  outcome_of r ≠ Returned true ∧
  ∀ types, types ≠ [] → outcome_of classified = Returned types →
           (callback = true →
            ∃ h, history (state_of r) = h ++ [not_configured] ∧
                 outcome_of r = match env h not_configured with
                                | Resolve _ => Returned false
                                | Reject e => Thrown (ThrownError e)
                                end) ∧
           (callback = false → outcome_of r = Returned false).
Proof.
  intros Hseed.
  pose proof (handler_no_seed env JSON_parse compiles ToString name_ToString
                as_DataPattern fuel text callback Hseed reg s)
    as ((evs & Hh & Hall) & Hout & Hlast).
  split; [|by split].
  exists evs. split; [done|]. split; [done|].
  intros Hin. eapply Forall_forall in Hall; [|exact Hin]. done.
Qed.

(** A request for twitter profiles, with no URL in the text and none
    configured. *)
Lemma handler_without_seed_url_witness :
  let r := handler quiet_env parses_nothing compiles_all show_item show_name
             read_as_plain 1 "find twitter profiles" true
             (twitter_registry quiet_env) fresh_process in
  outcome_of r = Returned false ∧
  last (history (state_of r)) = Some not_configured.
Proof.
  assert (no_seed_url quiet_env "find twitter profiles") as Hseed.
  { split; [vm_compute; reflexivity | intros h; left; reflexivity]. }
  pose proof (handler_without_seed_url quiet_env parses_nothing compiles_all
                show_item show_name read_as_plain 1 "find twitter profiles"
                true (twitter_registry quiet_env) fresh_process Hseed)
    as (_ & _ & Hsurfaces).
  destruct (Hsurfaces ["twitter"]) as [Hcb _];
    [done | vm_compute; reflexivity |].
  destruct (Hcb eq_refl) as (h & Hh & Hout).
  cbv zeta. split; [exact Hout|]. rewrite Hh. apply last_snoc.
Defined.

(** C8, counterexample. No seed URL is available and no data type can be
    determined for the request: the handler fails, and what it hands to the
    callback is [Unclear data type request]; the missing URL is never
    reported. *)
Lemma handler_without_seed_url_counterexample :
  no_seed_url env_proposes_greeting "hello" ∧
  let r := handler env_proposes_greeting parses_nothing compiles_all show_item
             show_name read_as_plain 1 "hello" true
             (twitter_registry env_proposes_greeting) fresh_process in
  outcome_of r = Returned false ∧
  last (history (state_of r)) = Some unclear_request ∧
  not_configured ∉ history (state_of r).
Proof.
  split.
  { split; [vm_compute; reflexivity | intros h; left; reflexivity]. }
  split; [vm_compute; reflexivity|].
  split; [vm_compute; reflexivity|].
  apply (bool_decide_unpack _). vm_compute. exact I.
Qed.

(** ** The navigations of a crawl *)

Lemma extends_with_same_history P s s' :
  history s' = history s → extends_with P s s'.
Proof. intros H. exists []. by rewrite app_nil_r. Qed.

Section MoreStateSteps.
Context {L : Type}.
Context (R : relation St) `{!PreOrder R}.

Lemma st_steps_invoke {L' A} (init : L') (m : M L' A) :
  st_steps R m → st_steps R (@invoke L L' A init m).
Proof.
  intros Hm l s. unfold invoke. specialize (Hm init s).
  by destruct (m init s) as [[r l'] s'].
Qed.

Lemma st_steps_for_of {X} (xs : list X) (body : X → M L unit) :
  (∀ x, st_steps R (body x)) → st_steps R (for_of xs body).
Proof.
  intros Hb. induction xs as [|x xs IH]; simpl.
  - apply st_steps_ret. apply _.
  - apply st_steps_bind; [apply _|apply Hb|]. intros _. apply IH.
Qed.

Lemma st_steps_while fuel cond (body : M L unit) :
  st_steps R body → st_steps R (while fuel cond body).
Proof.
  intros Hb. induction fuel as [|fuel IH]; intros l s; simpl.
  - by destruct (cond l).
  - destruct (cond l); [|done].
    apply (st_steps_bind R body (λ _, while fuel cond body) Hb (λ _, IH) l s).
Qed.
End MoreStateSteps.

Section CallsOfACrawl.
Variable env : Env.
Variable P : Cmd → Prop.

Lemma st_steps_timer {L} c : P c → st_steps (extends_with P) (@timer L c).
Proof. intros Hc l s. by apply extends_with_event. Qed.

Lemma st_steps_modify_state {L} f :
  (∀ s, history (f s) = history s) →
  st_steps (extends_with P) (@modify_state L f).
Proof. intros Hf l s. apply extends_with_same_history, Hf. Qed.

Lemma st_steps_fresh_ref {L} : st_steps (extends_with P) (@fresh_ref L).
Proof. intros l s. by apply extends_with_same_history. Qed.

Lemma st_steps_error_name {L} e : st_steps (extends_with P) (@error_name L e).
Proof. destruct e; [apply st_steps_throw|apply st_steps_ret]; apply _. Qed.

Lemma st_steps_retry_from {L T} (operation : M L T) maxRetries delay driver
    remaining i lastError :
  P Refresh → P (Sleep delay) → P (SetTimeout delay) →
  st_steps (extends_with P) operation →
  st_steps (extends_with P)
    (retry_from env operation maxRetries delay driver remaining i lastError).
Proof.
  intros Hrefresh Hsleep Htimeout Hop. revert i lastError.
  induction remaining as [|remaining IH]; intros i lastError; cbn [retry_from].
  - apply st_steps_throw. apply _.
  - apply st_steps_try_catch; [apply _|exact Hop|]. intros error.
    apply st_steps_bind; [apply _|apply st_steps_error_name|]. intros n.
    destruct (_ && _).
    + apply st_steps_bind; [apply _| |intros _].
      { apply (st_steps_call _ env Refresh). intros s.
        by apply extends_with_event. }
      apply st_steps_bind; [apply _|by apply st_steps_timer|intros _; apply IH].
    + destruct (Nat.eqb i (maxRetries - 1)); [apply st_steps_throw; apply _|].
      apply st_steps_bind; [apply _|by apply st_steps_timer|intros _; apply IH].
Qed.

Lemma st_steps_retryOperation {L T} (operation : M L T) maxRetries delay driver :
  P Refresh → P (Sleep delay) → P (SetTimeout delay) →
  st_steps (extends_with P) operation →
  st_steps (extends_with P)
    (retryOperation env operation maxRetries delay driver).
Proof. apply st_steps_retry_from. Qed.
End CallsOfACrawl.

(** Goals of the form [st_steps (extends_with P) m] for the computations of
    the extractor and of the crawler. *)
Ltac step_calls :=
  repeat match goal with
    | |- st_steps _ (timer _) => apply st_steps_timer
    | |- st_steps _ (invoke _ _) => apply st_steps_invoke
    | |- st_steps _ (for_of _ _) => apply st_steps_for_of
    | |- st_steps _ (while _ _ _) => apply st_steps_while
    | |- st_steps _ fresh_ref => apply st_steps_fresh_ref
    | |- st_steps _ (retryOperation _ _ _ _ _) =>
        apply st_steps_retryOperation
    | |- st_steps _ (retryOperation_default _ _) =>
        apply st_steps_retryOperation
    | |- st_steps _ _ => progress step_state
    | |- PreOrder _ => apply _
    | |- ∀ _, _ => intros ?
    end.

Section NavigationsOfACrawl.
Variable env : Env.
Variables (driver : WebDriver) (pattern : DataPattern).
Hypothesis Hpattern : pattern_calls not_navigation pattern.

Lemma transformed_calls {L} m :
  st_steps (extends_with not_navigation) (@transformed L pattern m).
Proof.
  unfold transformed. destruct Hpattern as [Ht _].
  destruct (transform (config pattern)) as [[f|body]|]; cbn [apply_transform].
  - apply st_steps_invoke; first [apply _|apply Ht].
  - step_calls. apply Ht.
  - step_calls.
Qed.

Lemma apply_validate_calls {L} value :
  st_steps (extends_with not_navigation)
    (@apply_validate L (validate (config pattern)) value).
Proof.
  unfold apply_validate. destruct Hpattern as [_ Hv].
  destruct (validate (config pattern)) as [v|]; [|step_calls].
  apply st_steps_invoke; first [apply _|apply Hv].
Qed.

Lemma process_match_calls m :
  st_steps (extends_with not_navigation) (process_match pattern m).
Proof.
  unfold process_match.
  apply st_steps_bind; [apply _|apply transformed_calls|]. intros value.
  apply st_steps_bind; [apply _|apply apply_validate_calls|]. intros ok.
  step_calls.
Qed.

Lemma process_element_calls element :
  st_steps (extends_with not_navigation) (process_element env pattern element).
Proof.
  unfold process_element. step_calls; try done. all: apply process_match_calls.
Qed.

Lemma extractDataByPattern_calls {L} :
  st_steps (extends_with not_navigation)
    (@extractDataByPattern env L driver pattern).
Proof.
  unfold extractDataByPattern, process_selector. step_calls; try done.
  apply process_element_calls.
Qed.

Lemma interact_calls element :
  st_steps (extends_with not_navigation) (interact env driver pattern element).
Proof.
  unfold interact. step_calls; try done.
  all: apply extractDataByPattern_calls.
Qed.

(** A visit navigates once, to the URL taken off the queue, and that is the
    first thing it does. *)
Lemma visit_navigates_once url l s :
  ∃ evs, history (state_of (visit env driver pattern (Some url) l s))
         = history s ++ Get url :: evs ∧
         Forall not_navigation evs.
Proof.
  assert (st_steps (extends_with not_navigation)
            (try_catch
               (call env (WaitElementLocated "By.tagName(body)" 10000) ;;
                timer (Sleep 2000) ;;
                pageResults <- retryOperation env
                                 (extractDataByPattern env driver pattern)
                                 3 1000 (Some driver) ;;
                modify_locals (add_results pageResults) ;;
                interactiveElements <- call env (FindElements interactive_css) ;;
                for_of interactiveElements (interact env driver pattern))
               (λ _ : Exn, ret tt))) as Hrest.
  { step_calls; try done.
    - apply extractDataByPattern_calls.
    - apply interact_calls. }
  unfold visit. change (default "undefined" (Some url)) with url.
  unfold try_catch in *. unfold bind at 1. unfold call at 1.
  destruct (env (history s) (Get url)) as [[]|e].
  - destruct (Hrest l (with_history (history s ++ [Get url]) s))
      as (evs & Hh & Hall).
    match type of Hh with
    | history (state_of (match ?m with _ => _ end)) = _ =>
        destruct m as [[[u|e'|] l1] s1]
    end; cbn [state_of outcome_of snd fst history with_history] in *;
      exists evs; (split; [|done]); rewrite Hh; by rewrite <- app_assoc.
  - exists []. split; [done|]. apply Forall_nil_2.
Qed.

Lemma navigations_nil evs : Forall not_navigation evs → navigations evs = [].
Proof.
  induction 1 as [|c evs Hc _ IH]; [done|].
  unfold navigations in *. by destruct c.
Qed.

Lemma navigations_cons_get url evs :
  navigations (Get url :: evs) = url :: navigations evs.
Proof. reflexivity. Qed.

(** What a crawl calls: nothing when the loop cannot run, and otherwise the
    navigation to the seed followed by calls that navigate nowhere. *)
Lemma crawl_body_calls fuel baseUrl s :
  let r := crawl_body env fuel driver pattern (crawl_init baseUrl) s in
  ∃ evs, history (state_of r) = history s ++ evs ∧
         navigations evs = (if fuel is 0 then [] else [baseUrl]) ∧
         (fuel ≠ 0 → head evs = Some (Get baseUrl)).
Proof.
  cbv zeta. destruct fuel as [|fuel].
  - exists []. by rewrite app_nil_r.
  - rewrite crawl_body_once. unfold bind at 1.
    destruct (visit_navigates_once baseUrl
                {| results := []; visitedUrls := [baseUrl]; urlsToVisit := [] |}
                s) as (evs & Hh & Hall).
    destruct (visit env driver pattern (Some baseUrl) _ s)
      as [[[u|e|] l1] s1];
      cbn [state_of outcome_of snd fst] in *;
      exists (Get baseUrl :: evs); (split; [done|]);
      (split; [|done]);
      by rewrite navigations_cons_get, (navigations_nil evs Hall).
Qed.
End NavigationsOfACrawl.

(** The transform of the twitter pattern, called with the match alone, calls
    nothing. *)
Lemma twitter_calls_nothing env twitter_regex P :
  pattern_calls P (twitter env twitter_regex).
Proof.
  split; [|done]. cbn. intros [value|]; [|by apply st_steps_throw; apply _].
  intros l s. apply extends_with_same_history.
  unfold twitter_transform_of, twitter_transform.
  destruct (negb _); [|done]. unfold bind at 1.
  destruct (validatedProfiles s !! twitter_username value) as [b|] eqn:Hc.
  - rewrite (validateTwitterUsername_cached env _ None l s b Hc).
    by destruct b.
  - unfold validateTwitterUsername. unfold bind at 1. unfold get_state at 1.
    rewrite Hc. reflexivity.
Qed.



(** C9. Nothing is ever appended to the queue of the crawl: an iteration of
    the loop leaves the visited set as it is and the queue without its first
    URL.  A crawl therefore is one execution of the loop body, on the seed
    URL, and its visited set is the seed alone at the end.  That execution
    starts with the navigation to the seed URL, and, when the functions of
    the pattern navigate nowhere themselves, it is the one navigation of
    the crawl. *)
Theorem frontier_never_grows env driver pattern :
  (∀ l s,
     let l' := locals_of (crawl_iteration env driver pattern l s) in
     visitedUrls l' = visitedUrls l ∧ urlsToVisit l' = tail (urlsToVisit l)) ∧
  (∀ fuel baseUrl s,
     crawl_body env (S fuel) driver pattern (crawl_init baseUrl) s
     = (visit env driver pattern (Some baseUrl) ;;
        l <- get_locals ;;
        ret (Array_from (results l)))
         {| results := []; visitedUrls := [baseUrl]; urlsToVisit := [] |} s) ∧
  (∀ fuel baseUrl s,
     visitedUrls
       (locals_of (crawl_body env fuel driver pattern (crawl_init baseUrl) s))
     = [baseUrl]) ∧
  (pattern_calls not_navigation pattern →
   ∀ L fuel baseUrl (l : L) s,
     let r := crawlAndExtract env (S fuel) driver baseUrl pattern l s in
     ∃ evs, history (state_of r) = history s ++ Get baseUrl :: evs ∧
            navigations (Get baseUrl :: evs) = [baseUrl]).
Proof.
  split; [apply crawl_iteration_frontier|].
  split; [apply crawl_body_once|].
  split.
  - intros fuel baseUrl s.
    by apply (crawl_body_steps env driver pattern same_visited
                (λ new l, eq_refl) (λ l, eq_refl) fuel (crawl_init baseUrl) s).
  - intros Hpattern L fuel baseUrl l s. cbv zeta.
    destruct (crawl_body_calls env driver pattern Hpattern (S fuel) baseUrl s)
      as (evs & Hh & Hnav & Hhead).
    pose proof (Hhead ltac:(done)) as Hfirst.
    unfold crawlAndExtract, invoke.
    destruct (crawl_body env (S fuel) driver pattern (crawl_init baseUrl) s)
      as [[o l1] s1]. cbn [state_of snd] in *.
    destruct evs as [|c evs]; [done|]. injection Hfirst as ->.
    by exists evs.
Qed.

(** The crawl of a page with one link, for the twitter pattern. *)
Lemma frontier_never_grows_witness :
  navigations
    (history (state_of (crawlAndExtract env_ghost_link 1 Session
                          "https://example.com"
                          (twitter env_ghost_link ghost_regex) tt
                          fresh_process)))
  = ["https://example.com"].
Proof.
  destruct (proj2 (proj2 (proj2 (frontier_never_grows env_ghost_link Session
                                   (twitter env_ghost_link ghost_regex))))
              (twitter_calls_nothing env_ghost_link ghost_regex not_navigation)
              unit 0 "https://example.com" tt fresh_process)
    as (evs & Hh & Hnav).
  rewrite Hh. exact Hnav.
Defined.

(** * Further properties *)

(** ** RetryExecutor *)

Lemma retry_from_attempt_bound {L T} env (operation : M L T) counter
    maxRetries delay driver :
  counts_attempts operation counter →
  ∀ remaining i lastError l s,
    counter (state_of (retry_from env operation maxRetries delay driver
                         remaining i lastError l s))
    ≤ counter s + remaining.
Proof.
  intros [Hop Hrec].
  induction remaining as [|n IH]; intros i lastError l s; [simpl; lia|].
  pose proof (Hop l s) as Hs.
  destruct (operation l s) as [[[v|[|e]|] l'] s'] eqn:E; simpl in Hs.
  - erewrite retry_from_returned by exact E. simpl. lia.
  - simpl. unfold try_catch. rewrite E. simpl. lia.
  - erewrite retry_from_thrown by exact E.
    destruct (_ && _).
    + cbv zeta. destruct (env (history s') Refresh).
      * etrans; [apply IH|]. rewrite !Hrec by done. lia.
      * simpl. rewrite Hrec by done. lia.
    + destruct (Nat.eqb _ _); [simpl; lia|].
      etrans; [apply IH|]. rewrite Hrec by done. lia.
  - erewrite retry_from_out_of_fuel by exact E. simpl. lia.
Qed.

(** X1. Whatever the operation and the browser do, [retryOperation] invokes
    the operation at most [maxRetries] times; with a budget of zero it does
    not invoke it at all. *)
Theorem retryOperation_attempt_bound {L T} env (operation : M L T) counter
    maxRetries delay driver l s :
  counts_attempts operation counter →
  counter (state_of (retryOperation env operation maxRetries delay driver l s))
  ≤ counter s + maxRetries.
Proof. intros Hcount. by apply retry_from_attempt_bound. Qed.

Lemma retryOperation_attempt_bound_witness :
  reads_counter
    (state_of (retryOperation (env_stale_reads 5)
                 (call (env_stale_reads 5) (GetText 7)) 3 1000 (Some Session)
                 tt fresh_process))
  ≤ 0 + 3.
Proof.
  apply (retryOperation_attempt_bound (env_stale_reads 5)
           (call (env_stale_reads 5) (GetText 7)) reads_counter 3 1000
           (Some Session) tt fresh_process).
  apply reads_counted.
Defined.

(** ** Failures stay inside the extractor and the crawler *)

Lemma while_no_throw {L} fuel cond (body : M L unit) :
  no_throw body → no_throw (while fuel cond body).
Proof.
  intros Hb. induction fuel as [|fuel IH]; intros l s e; simpl.
  - by destruct (cond l).
  - destruct (cond l); [|done]. unfold bind.
    specialize (Hb l s). destruct (body l s) as [[[u|e'|] l'] s']; simpl in *;
      [apply IH| by specialize (Hb e') | done].
Qed.

Lemma extractDataByPattern_no_throw {L} env driver pattern :
  no_throw (@extractDataByPattern env L driver pattern).
Proof.
  intros l s e. unfold extractDataByPattern, invoke, bind.
  set (scan := try_catch _ _).
  assert (∀ e', outcome_of (scan (new_Set []) s) ≠ Thrown e') as Hscan.
  { intros e'. unfold scan, try_catch.
    match goal with
    | |- context [match ?m with _ => _ end] =>
        by destruct m as [[[u|e''|] l'] s']
    end. }
  destruct (scan (new_Set []) s) as [[[u|e'|] l'] s']; simpl in *;
    [done | by specialize (Hscan e') | done].
Qed.

Lemma crawl_iteration_no_throw env driver pattern :
  no_throw (crawl_iteration env driver pattern).
Proof.
  intros l s e. unfold crawl_iteration, bind, shift.
  apply visit_no_throw.
Qed.

(** X2. Neither [extractDataByPattern] nor [crawlAndExtract] ever throws,
    whatever the browser, the transform and validate do: every failure is
    caught inside, and the caller's locals are left alone. *)
Theorem extraction_never_throws env driver pattern :
  (∀ L (l : L) s e,
     outcome_of (extractDataByPattern env driver pattern l s) ≠ Thrown e) ∧
  (∀ L fuel baseUrl (l : L) s e,
     outcome_of (crawlAndExtract env fuel driver baseUrl pattern l s) ≠ Thrown e) ∧
  (∀ L fuel baseUrl (l : L) s,
     locals_of (extractDataByPattern env driver pattern l s) = l ∧
     locals_of (crawlAndExtract env fuel driver baseUrl pattern l s) = l).
Proof.
  split; [intros L l s e; apply extractDataByPattern_no_throw|]. split.
  - intros L fuel baseUrl l s e. unfold crawlAndExtract, invoke, crawl_body, bind.
    pose proof (while_no_throw fuel crawl_condition
                  (crawl_iteration env driver pattern)
                  (crawl_iteration_no_throw env driver pattern)
                  (crawl_init baseUrl) s) as Hw.
    destruct (while _ _ _ _ s) as [[[u|e'|] l'] s']; simpl in *;
      [done | by specialize (Hw e') | done].
  - intros L fuel baseUrl l s. split.
    + unfold extractDataByPattern, invoke.
      by match goal with |- context [match ?m with _ => _ end] =>
           destruct m as [[o l1] s1] end.
    + unfold crawlAndExtract, invoke.
      by match goal with |- context [match ?m with _ => _ end] =>
           destruct m as [[o l1] s1] end.
Qed.

(** X3. Since the extractor never throws, wrapping it in [retryOperation]
    with a budget of at least one attempt, as [crawlAndExtract] does, changes
    nothing: it runs once. *)
Theorem retry_of_extraction_runs_once {L} env driver pattern n delay
    recovery (l : L) s :
  retryOperation env (extractDataByPattern env driver pattern) (S n) delay
    recovery l s
  = extractDataByPattern env driver pattern l s.
Proof.
  unfold retryOperation.
  pose proof (extractDataByPattern_no_throw env driver pattern l s) as Hno.
  destruct (extractDataByPattern env driver pattern l s)
    as [[[v|e|] l'] s'] eqn:E; simpl in Hno.
  - by erewrite retry_from_returned.
  - by specialize (Hno e).
  - by erewrite retry_from_out_of_fuel.
Qed.

(** X4. When the wait for the page body fails, [extractDataByPattern] looks
    at no selector: it returns the empty list, having made that one call. *)
Theorem extraction_without_body {L} env driver pattern (l : L) s e :
  env (history s) (WaitElementLocated "By.css(body)" 10000) = Reject e →
  extractDataByPattern env driver pattern l s
  = (Returned [], l,
     with_history (history s ++ [WaitElementLocated "By.css(body)" 10000]) s).
Proof.
  intros Hwait. unfold extractDataByPattern, invoke, bind, try_catch, call.
  by rewrite Hwait.
Qed.

Lemma extraction_without_body_witness :
  outcome_of (extractDataByPattern env_never_ready Session plain_pattern tt
                fresh_process)
  = Returned [].
Proof.
  by rewrite (extraction_without_body env_never_ready Session plain_pattern tt
                fresh_process session_lost eq_refl).
Defined.

(** X5. When the navigation to the seed URL fails, the crawl is over: it
    returns the empty list and has called nothing but that navigation. *)
Theorem crawl_of_unreachable_seed {L} env fuel driver baseUrl pattern (l : L) s e :
  env (history s) (Get baseUrl) = Reject e →
  crawlAndExtract env (S fuel) driver baseUrl pattern l s
  = (Returned [], l, with_history (history s ++ [Get baseUrl]) s).
Proof.
  intros Hget. unfold crawlAndExtract, invoke.
  rewrite crawl_body_once.
  unfold bind at 1. unfold visit, try_catch. unfold bind at 1. unfold call.
  simpl. by rewrite Hget.
Qed.

Lemma crawl_of_unreachable_seed_witness :
  crawlAndExtract env_unreachable 1 Session "https://example.com"
    plain_pattern tt fresh_process
  = (Returned [], tt,
     with_history [Get "https://example.com"] fresh_process).
Proof.
  exact (crawl_of_unreachable_seed env_unreachable 0 Session
           "https://example.com" plain_pattern tt fresh_process session_lost
           eq_refl).
Defined.

(** ** [extractUrlFromMessage] *)

Lemma append_cons c s1 s2 : (String c s1 ++ s2)%string = String c (s1 ++ s2)%string.
Proof. reflexivity. Qed.

Lemma prefix_drop p s :
  String.prefix p s = true → s = (p ++ drop_string (String.length p) s)%string.
Proof.
  revert s. induction p as [|a p IH]; intros s; [by destruct s|].
  destruct s as [|b s]; simpl; [done|]. destruct (ascii_dec a b) as [->|]; [|done].
  intros H. rewrite append_cons. f_equal. by apply IH.
Qed.

Lemma prefix_append p r : String.prefix p (p ++ r)%string = true.
Proof.
  induction p as [|a p IH]; [by destruct r|].
  rewrite append_cons. simpl. by destruct (ascii_dec a a).
Qed.

Lemma prefix_trans p q s :
  String.prefix p q = true → String.prefix q s = true → String.prefix p s = true.
Proof.
  revert q s. induction p as [|a p IH]; intros q s; [by destruct s|].
  destruct q as [|b q]; simpl; [done|]. destruct (ascii_dec a b) as [->|]; [|done].
  intros Hpq. destruct s as [|c s]; simpl; [done|].
  destruct (ascii_dec b c); [|done]. by apply IH.
Qed.

Lemma leading_space_None s w :
  leading_space s = None → w ∈ white_space → String.prefix w s = false.
Proof.
  intros Hnone Hw. apply (find_none _ _ Hnone). by apply list_elem_of_In.
Qed.

Lemma white_space_nonempty w : w ∈ white_space → ∃ c w', w = String c w'.
Proof.
  intros Hw.
  assert (forallb (λ w, negb (String.eqb w EmptyString)) white_space = true)
    as Hall by (vm_compute; reflexivity).
  rewrite forallb_forall in Hall. apply list_elem_of_In, Hall in Hw.
  destruct w as [|c w']; [done|]. by exists c, w'.
Qed.

Lemma includes_nil_space w : w ∈ white_space → includes EmptyString w = false.
Proof. intros Hw. by destruct (white_space_nonempty w Hw) as (c & w' & ->). Qed.

Lemma take_nonspace_prefix s : String.prefix (take_nonspace s) s = true.
Proof.
  induction s as [|c s IH]; [done|]. cbn [take_nonspace].
  destruct (leading_space (String c s)); [done|].
  simpl. by destruct (ascii_dec c c).
Qed.

Lemma take_nonspace_chars s w :
  w ∈ white_space → includes (take_nonspace s) w = false.
Proof.
  intros Hw. induction s as [|c s IH]; [by apply includes_nil_space|].
  cbn [take_nonspace].
  destruct (leading_space (String c s)) eqn:Hl; [by apply includes_nil_space|].
  cbn [includes]. rewrite IH, orb_false_r.
  destruct (String.prefix w (String c (take_nonspace s))) eqn:Hp; [|done].
  rewrite <- (leading_space_None _ w Hl Hw). symmetry.
  apply (prefix_trans _ _ _ Hp). simpl.
  destruct (ascii_dec c c); [|done]. apply take_nonspace_prefix.
Qed.

Lemma includes_scheme scheme rest w :
  all_chars starts_no_space scheme = true →
  w ∈ white_space →
  includes rest w = false →
  includes (scheme ++ rest)%string w = false.
Proof.
  intros Hscheme Hw Hrest. induction scheme as [|c scheme IH]; [done|].
  simpl in Hscheme. apply andb_prop in Hscheme as [Hc Hscheme].
  rewrite append_cons. cbn [includes]. rewrite (IH Hscheme), orb_false_r.
  destruct (white_space_nonempty w Hw) as (a & w' & ->).
  unfold starts_no_space in Hc. rewrite forallb_forall in Hc.
  apply list_elem_of_In, Hc in Hw. simpl in *.
  destruct (ascii_dec a c) as [->|]; [|done].
  destruct (ascii_dec c c); [|done]. by destruct w'.
Qed.

Lemma prefix_append_both p s1 s2 :
  String.prefix s1 s2 = true → String.prefix (p ++ s1)%string (p ++ s2)%string = true.
Proof.
  intros H. induction p as [|a p IH]; [done|].
  rewrite !append_cons. simpl. by destruct (ascii_dec a a).
Qed.

Lemma length_append s1 s2 :
  String.length (s1 ++ s2)%string = String.length s1 + String.length s2.
Proof. induction s1 as [|c s1 IH]; [done|]. rewrite append_cons. simpl. by rewrite IH. Qed.

Lemma url_at_sound s url :
  url_at s = Some url →
  (String.prefix "http://" url = true ∨ String.prefix "https://" url = true) ∧
  (∀ w, w ∈ white_space → includes url w = false) ∧
  String.prefix url s = true ∧
  7 < String.length url.
Proof.
  unfold url_at.
  assert (∀ scheme,
            String.prefix scheme s = true →
            all_chars starts_no_space scheme = true →
            6 < String.length scheme →
            (let rest := take_nonspace (drop_string (String.length scheme) s) in
             if String.eqb rest EmptyString then None
             else Some (scheme ++ rest)%string) = Some url →
            String.prefix scheme url = true ∧
            (∀ w, w ∈ white_space → includes url w = false) ∧
            String.prefix url s = true ∧
            7 < String.length url) as Hscheme.
  { intros scheme Hp Hchars Hlen. cbv zeta.
    destruct (String.eqb_spec
                (take_nonspace (drop_string (String.length scheme) s))
                EmptyString) as [|Hne]; [done|].
    intros [= <-]. split; [apply prefix_append|]. split.
    - intros w Hw. apply includes_scheme; [done..|]. by apply take_nonspace_chars.
    - split.
      + rewrite (prefix_drop scheme s Hp) at 2.
        apply prefix_append_both, take_nonspace_prefix.
      + rewrite length_append.
        destruct (take_nonspace _); [done|]. simpl. lia. }
  destruct (String.prefix "https://" s) eqn:H1.
  - intros H. destruct (Hscheme "https://" H1 eq_refl ltac:(simpl; lia) H)
      as (? & ? & ? & ?). by auto.
  - destruct (String.prefix "http://" s) eqn:H2; [|done].
    intros H. destruct (Hscheme "http://" H2 eq_refl ltac:(simpl; lia) H)
      as (? & ? & ? & ?). by auto.
Qed.

Lemma includes_nil sub :
  includes EmptyString sub = String.prefix sub EmptyString || false.
Proof. reflexivity. Qed.

Lemma includes_cons c s sub :
  includes (String c s) sub = String.prefix sub (String c s) || includes s sub.
Proof. reflexivity. Qed.

Lemma includes_prefix s sub : String.prefix sub s = true → includes s sub = true.
Proof.
  intros H. destruct s; [rewrite includes_nil|rewrite includes_cons]; by rewrite H.
Qed.

Lemma includes_tail c s sub : includes s sub = true → includes (String c s) sub = true.
Proof. intros H. rewrite includes_cons, H. apply orb_true_r. Qed.

Lemma includes_prefix_of s sub p :
  includes s sub = true → String.prefix p sub = true → includes s p = true.
Proof.
  intros Hin Hp. induction s as [|c s IH].
  - rewrite includes_nil, orb_false_r in *. by rewrite (prefix_trans p sub _ Hp Hin).
  - rewrite includes_cons in Hin. apply orb_prop in Hin as [Hin|Hin].
    + apply includes_prefix. by eapply prefix_trans.
    + apply includes_tail. by apply IH.
Qed.

Lemma first_url_sound text url :
  first_url text = Some url →
  (String.prefix "http://" url = true ∨ String.prefix "https://" url = true) ∧
  7 < String.length url ∧
  (∀ w, w ∈ white_space → includes url w = false) ∧
  includes text url = true.
Proof.
  induction text as [|c text IH]; cbn [first_url].
  - destruct (url_at EmptyString) eqn:Hu; [|done]. intros [= ->].
    destruct (url_at_sound _ _ Hu) as (? & ? & ? & ?).
    split; [done|]. split; [done|]. split; [done|]. by apply includes_prefix.
  - destruct (url_at (String c text)) eqn:Hu.
    + intros [= ->]. destruct (url_at_sound _ _ Hu) as (? & ? & ? & ?).
      split; [done|]. split; [done|]. split; [done|]. by apply includes_prefix.
    + intros H. destruct (IH H) as (? & ? & ? & Hin).
      split; [done|]. split; [done|]. split; [done|]. by apply includes_tail.
Qed.

(** X6. The URL [extractUrlFromMessage] finds starts with [http://] or
    [https://], holds at least one more character, contains no white space
    (no character of [\s], among them the no-break space and the other
    Unicode spaces) and occurs in the text; a text without [http://] and
    [https://] has no URL. *)
Theorem extractUrlFromMessage_sound text :
  (∀ url, extractUrlFromMessage text = Some url →
          (String.prefix "http://" url = true ∨
           String.prefix "https://" url = true) ∧
          7 < String.length url ∧
          (∀ w, w ∈ white_space → includes url w = false) ∧
          includes text url = true) ∧
  (includes text "http://" = false → includes text "https://" = false →
   extractUrlFromMessage text = None).
Proof.
  unfold extractUrlFromMessage. split; [apply first_url_sound|]. intros H1 H2.
  destruct (first_url text) as [url|] eqn:Hu; [|done].
  destruct (first_url_sound text url Hu) as ([Hp|Hp] & _ & _ & Hin).
  - by rewrite (includes_prefix_of _ _ _ Hin Hp) in H1.
  - by rewrite (includes_prefix_of _ _ _ Hin Hp) in H2.
Qed.

(** The URL of a text in which a no-break space follows it. *)
Lemma extractUrlFromMessage_sound_witness :
  let text := ("find links at https://example.com" ++ no_break_space
               ++ "now")%string in
  extractUrlFromMessage text = Some "https://example.com" ∧
  includes text "https://example.com" = true.
Proof.
  cbv zeta.
  assert (extractUrlFromMessage
            ("find links at https://example.com" ++ no_break_space ++ "now")
          = Some "https://example.com") as H by reflexivity.
  split; [exact H|].
  exact (proj2 (proj2 (proj2
    (proj1 (extractUrlFromMessage_sound
              ("find links at https://example.com" ++ no_break_space ++ "now"))
       "https://example.com" H)))).
Defined.

(** ** The action handler *)

Lemma same_driver_preorder : PreOrder same_driver.
Proof.
  split; [by intros l|]. intros l1 l2 l3 H1 H2. unfold same_driver in *.
  congruence.
Qed.

Lemma loc_steps_get_prop {L} (R : relation L) `{!PreOrder R} v key :
  loc_steps R (get_prop v key).
Proof. destruct v; simpl; step_locals. Qed.

Lemma url_nonempty text url :
  extractUrlFromMessage text = Some url → String.eqb url EmptyString = false.
Proof.
  intros H.
  destruct (first_url_sound text url H) as (_ & Hlen & _).
  destruct url; [simpl in Hlen; lia | done].
Qed.

Section HandlerRuns.
Variable env : Env.
Variable JSON_parse : string → option Json.
Variable compiles : string → bool.
Variable ToString : JsValue → string.
Variable name_ToString : option Json → string.
Variable as_DataPattern : Json → DataPattern.
Variables (fuel : nat) (text : string).

Lemma crawl_all_steps (R : relation HandlerScope) `{!PreOrder R} d url types results :
  loc_steps R (crawl_all env as_DataPattern fuel d url types results).
Proof.
  revert results. induction types as [|t types IH]; intros results; simpl;
    [step_locals|].
  apply loc_steps_bind; [apply _|apply loc_steps_get_locals; apply _|].
  intros l. destruct (assoc t (dataPatterns l)); [|apply IH].
  apply loc_steps_bind; [apply _| |intros r; apply IH].
  unfold crawlAndExtract. apply loc_steps_invoke; apply _.
Qed.

Lemma format_entries_steps (R : relation HandlerScope) `{!PreOrder R} entries response :
  loc_steps R (format_entries ToString name_ToString entries response).
Proof.
  revert response. induction entries as [|[type data] entries IH];
    intros response; simpl; [step_locals|].
  destruct (0 <? length data); [|apply IH].
  apply loc_steps_bind; [apply _|apply loc_steps_get_locals; apply _|].
  intros l. apply loc_steps_bind; [apply _| |intros n; apply IH].
  unfold entry_display_name.
  destruct (assoc type (dataPatterns l)) as [[p|spec]|]; [step_locals| |step_locals].
  apply loc_steps_bind; [apply _|by apply loc_steps_get_prop|]. intros n.
  step_locals.
Qed.

Lemma after_setup_steps (R : relation HandlerScope) `{!PreOrder R} callback d url types :
  loc_steps R (after_setup env ToString name_ToString as_DataPattern fuel
                 callback d url types).
Proof.
  unfold after_setup.
  apply loc_steps_bind; [apply _|apply (loc_steps_call R env (Get url))|].
  intros _. apply loc_steps_bind; [apply _|by apply crawl_all_steps|].
  intros results. apply loc_steps_bind; [apply _| |intros; step_locals].
  destruct callback; [|step_locals].
  apply loc_steps_bind; [apply _| |intros msg; step_locals].
  unfold formatExtractedData.
  apply loc_steps_bind; [apply _|by apply format_entries_steps|].
  intros response. step_locals.
Qed.

Lemma handler_finally_with_driver l s d :
  driver l = Some d →
  handler_finally env l s
  = (Returned tt, l, with_history (history s ++ [Quit]) s).
Proof.
  intros Hd. unfold handler_finally, bind, get_locals. rewrite Hd.
  unfold try_catch, call. by destruct (env (history s) Quit) as [[]|].
Qed.

Lemma handler_finally_run l s :
  handler_finally env l s = (Returned tt, l, closed l s).
Proof.
  unfold closed. destruct (driver l) as [d|] eqn:Hd.
  - by apply (handler_finally_with_driver l s d).
  - by apply handler_finally_no_driver.
Qed.

Lemma handler_catch_locals callback error :
  loc_steps eq (handler_catch env callback error).
Proof.
  unfold handler_catch, error_message.
  destruct callback, error; step_locals.
Qed.

Lemma handler_catch_terminates callback error l s :
  outcome_of (handler_catch env callback error l s) ≠ OutOfFuel.
Proof.
  unfold handler_catch, error_message, bind, call, throw, ret.
  destruct callback; [|done]. destruct error as [|err]; [done|].
  by destruct (env (history s) _).
Qed.

(** The handler, from the run of its [try] block. *)
Lemma handler_run callback reg s :
  let t := handler_try env JSON_parse compiles ToString name_ToString
             as_DataPattern fuel text callback
             {| dataPatterns := reg; driver := None |} s in
  let r := handler env JSON_parse compiles ToString name_ToString
             as_DataPattern fuel text callback reg s in
  match outcome_of t with
  | Returned b =>
      r = (Returned b, dataPatterns (locals_of t),
           closed (locals_of t) (state_of t))
  | Thrown e =>
      let k := handler_catch env callback e (locals_of t) (state_of t) in
      r = (outcome_of k, dataPatterns (locals_of t),
           closed (locals_of t) (state_of k))
  | OutOfFuel => r = (OutOfFuel, dataPatterns (locals_of t), state_of t)
  end.
Proof.
  cbv zeta. unfold handler, with_driver_variable, try_finally, try_catch.
  destruct (handler_try _ _ _ _ _ _ _ _ _ _ s) as [[[b|e|] l1] s1];
    cbn [outcome_of locals_of state_of fst snd].
  - by rewrite handler_finally_run.
  - pose proof (handler_catch_locals callback e l1 s1) as Hl.
    pose proof (handler_catch_terminates callback e l1 s1) as Hterm.
    destruct (handler_catch env callback e l1 s1) as [[[b|e'|] l2] s2];
      cbn [outcome_of locals_of state_of fst snd] in *; subst l2;
      [| |done]; by rewrite handler_finally_run.
  - done.
Qed.

(** The three ways through the [try] block: it ends before a session is
    asked for; [setupWebDriver] fails; or the session is opened and the
    block goes on with the navigation and the crawl. *)
Lemma handler_try_paths callback reg s :
  let c := determineDataTypes env JSON_parse compiles text reg s in
  let h := (history (state_of c) ++ seed_lookup text)%list in
  let t := handler_try env JSON_parse compiles ToString name_ToString
             as_DataPattern fuel text callback
             {| dataPatterns := reg; driver := None |} s in
  (driver (locals_of t) = None ∧ outcome_of t ≠ Returned true ∧
   extends_with no_session s (state_of t)) ∨
  (driver (locals_of t) = None ∧
   ∃ e evs, history (state_of c) = (history s ++ evs)%list ∧
            Forall no_session evs ∧
            env h SetupWebDriver = Reject e ∧
            history (state_of t) = (h ++ [SetupWebDriver])%list ∧
            outcome_of t = Thrown (ThrownError e)) ∨
  (∃ d url types s2,
     env h SetupWebDriver = Resolve d ∧
     seed_url env text (history (state_of c)) = Some url ∧
     history s2 = (h ++ [SetupWebDriver])%list ∧
     t = after_setup env ToString name_ToString as_DataPattern fuel callback
           d url types {| dataPatterns := locals_of c; driver := Some d |} s2).
Proof.
  cbv zeta.
  pose proof (determineDataTypes_calls env JSON_parse compiles text reg s)
    as Hcalls.
  destruct (handler_try _ _ _ _ _ _ _ _ _ _ s) as [[o l'] s'] eqn:Hrun.
  revert Hrun. unfold handler_try. unfold bind at 1. unfold in_module.
  cbn [dataPatterns driver].
  destruct (determineDataTypes env JSON_parse compiles text reg s)
    as [[[types|e|] reg1] s1]; cbn [outcome_of locals_of state_of fst snd] in *;
    [|end_run; left; by repeat split..].
  destruct types as [|t0 types]; cbn [length Nat.eqb].
  { unfold bind at 1. destruct callback.
    - unfold call. destruct (env (history s1) _); end_run; left;
        (split; [done|]); (split; [done|]);
        (etrans; [exact Hcalls|]); by apply extends_with_event.
    - end_run. left. by repeat split. }
  assert (∀ (h1 : list Cmd) s2 url,
            history s2 = h1 →
            (h1 = (history s1 ++ seed_lookup text)%list) →
            seed_url env text (history s1) = Some url →
            extends_with no_session s s2 →
            (d <- call env SetupWebDriver ;;
             set_driver d ;;
             call env (Get url) ;;
             results <- crawl_all env as_DataPattern fuel d url (t0 :: types) [] ;;
             (if callback then
                text <- formatExtractedData ToString name_ToString results ;;
                call env (Callback text (ResultsContent url results))
              else ret tt) ;;
             ret true) {| dataPatterns := reg1; driver := None |} s2
            = (o, l', s') →
            (driver l' = None ∧ o ≠ Returned true ∧ extends_with no_session s s') ∨
            (driver l' = None ∧
             ∃ e evs, history s1 = (history s ++ evs)%list ∧
                      Forall no_session evs ∧
                      env (history s1 ++ seed_lookup text) SetupWebDriver = Reject e ∧
                      history s' = ((history s1 ++ seed_lookup text) ++ [SetupWebDriver])%list ∧
                      o = Thrown (ThrownError e)) ∨
            (∃ d url' types' s3,
               env (history s1 ++ seed_lookup text) SetupWebDriver = Resolve d ∧
               seed_url env text (history s1) = Some url' ∧
               history s3 = ((history s1 ++ seed_lookup text) ++ [SetupWebDriver])%list ∧
               (o, l', s')
               = after_setup env ToString name_ToString as_DataPattern fuel
                   callback d url' types'
                   {| dataPatterns := reg1; driver := Some d |} s3)) as Hsetup.
  { intros h1 s2 url Hh1 -> Hseed Hext. unfold bind at 1. unfold call at 1.
    rewrite Hh1.
    destruct (env (history s1 ++ seed_lookup text) SetupWebDriver) as [d|e] eqn:Hd.
    - unfold bind at 1. unfold set_driver, modify_locals. intros Hrun.
      right. right.
      exists d, url, (t0 :: types),
        (with_history ((history s1 ++ seed_lookup text) ++ [SetupWebDriver]) s2).
      split; [done|]. split; [done|]. split; [done|].
      rewrite <- Hrun. reflexivity.
    - end_run. right. left. split; [done|].
      destruct Hcalls as (evs & Hevs & Hall).
      exists e, evs. cbn. by repeat split. }
  unfold bind at 1.
  destruct (extractUrlFromMessage text) as [url|] eqn:Hurl.
  - unfold ret at 1. rewrite (url_nonempty _ _ Hurl).
    apply (Hsetup (history s1) s1 url).
    + done.
    + unfold seed_lookup. by rewrite Hurl, app_nil_r.
    + unfold seed_url. by rewrite Hurl.
    + done.
  - unfold call at 1.
    assert (extends_with no_session s
              (with_history (history s1 ++ [GetSetting "WEBSITE_URL"]) s1))
      as Hext.
    { etrans; [exact Hcalls|]. by apply extends_with_event. }
    destruct (env (history s1) (GetSetting "WEBSITE_URL")) as [[url|]|e] eqn:Hset;
      [|end_run; left; by repeat split..].
    destruct (String.eqb url EmptyString); [end_run; left; by repeat split|].
    apply (Hsetup (history s1 ++ [GetSetting "WEBSITE_URL"])%list
             (with_history (history s1 ++ [GetSetting "WEBSITE_URL"]) s1) url).
    + done.
    + unfold seed_lookup. by rewrite Hurl.
    + unfold seed_url. by rewrite Hurl, Hset.
    + done.
Qed.

Lemma no_session_not_opened s s' :
  extends_with no_session s s' → ¬ session_opened env s s'.
Proof.
  intros (evs & Hh & Hall) (evs' & d & Hprefix & _).
  rewrite Hh in Hprefix. apply prefix_app_inv in Hprefix as [k Hk].
  assert (SetupWebDriver ∈ evs) as Hin.
  { rewrite Hk, !elem_of_app, list_elem_of_singleton. tauto. }
  rewrite Forall_forall in Hall. by apply (Hall _ Hin).
Qed.

Lemma first_occurrence {A} (x : A) evs k E1 E3 :
  x ∉ E1 → x ∉ E3 → (E1 ++ x :: E3 = (evs ++ [x]) ++ k)%list → evs = E1.
Proof.
  revert evs. induction E1 as [|a E1 IH]; intros evs H1 H3 Heq.
  - destruct evs as [|b evs]; [done|]. exfalso. cbn in Heq.
    injection Heq as <- ->. apply H3.
    rewrite !elem_of_app, list_elem_of_singleton. tauto.
  - destruct evs as [|b evs]; cbn in Heq.
    + injection Heq as -> _. exfalso. apply H1. by left.
    + injection Heq as <- Heq. f_equal. apply IH; [|done..].
      intros Hx. apply H1. by right.
Qed.

Lemma rejected_not_opened s s' E1 E3 e :
  history s' = (history s ++ E1 ++ SetupWebDriver :: E3)%list →
  Forall no_session E1 → Forall no_session E3 →
  env (history s ++ E1) SetupWebDriver = Reject e →
  ¬ session_opened env s s'.
Proof.
  intros Hh H1 H3 Hreject (evs & d & Hprefix & Hd).
  rewrite Hh in Hprefix. apply prefix_app_inv in Hprefix as [k Hk].
  assert (evs = E1) as ->.
  { apply (first_occurrence SetupWebDriver evs k E1 E3).
    - intros Hin. rewrite Forall_forall in H1. by apply (H1 _ Hin).
    - intros Hin. rewrite Forall_forall in H3. by apply (H3 _ Hin).
    - rewrite Hk. by rewrite <- !app_assoc. }
  congruence.
Qed.

(** X7. Once the handler has opened a browser session, whether the seed URL
    came from the request or from the settings, it closes it: every run in
    which [setupWebDriver] returned a driver and which comes to an end, by
    returning or by throwing, has [driver.quit()] as its last call. *)
Theorem handler_releases_session callback reg s :
  let r := handler env JSON_parse compiles ToString name_ToString
             as_DataPattern fuel text callback reg s in
  session_opened env s (state_of r) →
  outcome_of r ≠ OutOfFuel →
  last (history (state_of r)) = Some Quit.
Proof.
  cbv zeta. intros Hopened Hfuel.
  pose proof (handler_run callback reg s) as Hrun. cbv zeta in Hrun.
  pose proof (determineDataTypes_calls env JSON_parse compiles text reg s)
    as Hclass.
  destruct (handler_try_paths callback reg s)
    as [(Hd & _ & Hext)|[(Hd & e & evs & Hc & Hall & Hreject & Hh & Ho)
                        |(d & url & types & s2 & _ & _ & _ & Ht)]].
  - (* no session was asked for *)
    exfalso. revert Hopened. apply no_session_not_opened.
    destruct (handler_try _ _ _ _ _ _ _ _ _ _ s) as [[[b|e|] l1] s1];
      cbn [outcome_of locals_of state_of fst snd] in *; rewrite Hrun;
      unfold closed; rewrite ?Hd; cbn [state_of snd]; [done| |done].
    etrans; [exact Hext|].
    by destruct (handler_catch_spec env callback e l1 s1) as (_ & ? & _).
  - (* [setupWebDriver] failed *)
    exfalso. revert Hopened.
    destruct (handler_try _ _ _ _ _ _ _ _ _ _ s) as [[o l1] s1];
      cbn [outcome_of locals_of state_of fst snd] in *. subst o.
    rewrite Hrun. unfold closed. rewrite Hd. cbn [state_of snd].
    destruct (handler_catch_spec env callback (ThrownError e) l1 s1)
      as (_ & (E3 & Hk & H3) & _).
    apply (rejected_not_opened s _ (evs ++ seed_lookup text) E3 e).
    + rewrite Hk, Hh, Hc. by rewrite <- !app_assoc.
    + apply Forall_app. split; [done|]. unfold seed_lookup.
      destruct (extractUrlFromMessage text); [done|]. by apply Forall_singleton.
    + done.
    + rewrite app_assoc, <- Hc. exact Hreject.
  - (* the session was opened *)
    pose proof (after_setup_steps same_driver
                  (PreOrder0 := same_driver_preorder) callback d url types
                  {| dataPatterns :=
                       locals_of (determineDataTypes env JSON_parse compiles
                                    text reg s);
                     driver := Some d |} s2) as Hdriver.
    unfold same_driver in Hdriver. cbn [driver] in Hdriver.
    rewrite <- Ht in Hdriver.
    destruct (handler_try _ _ _ _ _ _ _ _ _ _ s) as [[[b|e|] l1] s1];
      cbn [outcome_of locals_of state_of fst snd] in *;
      rewrite Hrun in Hfuel |- *; unfold closed; rewrite ?Hdriver;
      cbn [outcome_of state_of fst snd history with_history] in *;
      [apply last_snoc|apply last_snoc|done].
Qed.

(** X8. When no data type can be determined for the request, the handler
    opens no browser session and the registry is as classification left it.
    Without a callback it answers [false] and calls nothing.  With a
    callback it hands it the request to be more specific: when that call
    returns, the handler answers [false] and calls nothing else; when it
    throws, the [catch] block calls the callback a second time, with the
    message of the error, and the handler answers [false] if that call
    returns and throws its error if it throws. *)
Theorem handler_unclear_request callback reg s reg1 s1 :
  determineDataTypes env JSON_parse compiles text reg s
  = (Returned [], reg1, s1) →
  let r := handler env JSON_parse compiles ToString name_ToString
             as_DataPattern fuel text callback reg s in
  locals_of r = reg1 ∧
  (callback = false → r = (Returned false, reg1, s1)) ∧
  (callback = true →
   match env (history s1) unclear_request with
   | Resolve _ =>
       r = (Returned false, reg1,
            with_history (history s1 ++ [unclear_request]) s1)
   | Reject e =>
       history (state_of r) = (history s1 ++ [unclear_request; report e])%list ∧
       outcome_of r
       = match env (history s1 ++ [unclear_request]) (report e) with
         | Resolve _ => Returned false
         | Reject e' => Thrown (ThrownError e')
         end
   end).
Proof.
  intros Hclass. cbv zeta.
  destruct (handler env JSON_parse compiles ToString name_ToString
              as_DataPattern fuel text callback reg s) as [[o l'] s'] eqn:Hrun.
  cbn [outcome_of locals_of state_of fst snd].
  revert Hrun.
  unfold handler, with_driver_variable, try_finally, try_catch, handler_try.
  unfold bind at 1. unfold in_module. cbn [dataPatterns driver].
  rewrite Hclass. cbn [length Nat.eqb]. unfold bind at 1.
  destruct callback.
  - unfold call at 1. fold unclear_request.
    destruct (env (history s1) unclear_request) as [[]|e] eqn:Hcb.
    + unfold ret. rewrite handler_finally_no_driver by done.
      intros [= <- <- <-]. by repeat split.
    + unfold handler_catch, error_message, bind, ret, call.
      cbn [history with_history message]. fold (report e).
      destruct (env (history s1 ++ [unclear_request]) (report e)) as [[]|e'];
        rewrite handler_finally_no_driver by done;
        intros [= <- <- <-]; cbn [history with_history dataPatterns];
        rewrite <- ?app_assoc; by repeat split.
  - unfold ret. rewrite handler_finally_no_driver by done.
    intros [= <- <- <-]. by repeat split.
Qed.

(** X9. Without a callback the handler never throws: an error thrown in its
    [try] block, by the classification, the browser or the crawl, is
    answered by [false]; and it answers [true] only when [setupWebDriver]
    returned a driver and the navigation to the seed URL succeeded. *)
Theorem handler_without_callback reg s :
  let c := determineDataTypes env JSON_parse compiles text reg s in
  let h := (history (state_of c) ++ seed_lookup text)%list in
  let t := handler_try env JSON_parse compiles ToString name_ToString
             as_DataPattern fuel text false
             {| dataPatterns := reg; driver := None |} s in
  let r := handler env JSON_parse compiles ToString name_ToString
             as_DataPattern fuel text false reg s in
  (∀ e, outcome_of r ≠ Thrown e) ∧
  (∀ e, outcome_of t = Thrown e → outcome_of r = Returned false) ∧
  (outcome_of r = Returned true →
   ∃ d url,
     seed_url env text (history (state_of c)) = Some url ∧
     env h SetupWebDriver = Resolve d ∧
     env (h ++ [SetupWebDriver])%list (Get url) = Resolve tt).
Proof.
  cbv zeta.
  pose proof (handler_run false reg s) as Hrun. cbv zeta in Hrun.
  pose proof (handler_try_paths false reg s) as Hpaths. cbv zeta in Hpaths.
  destruct (handler_try _ _ _ _ _ _ _ _ _ _ s) as [[[b|e|] l1] s1];
    cbn [outcome_of locals_of state_of fst snd] in *; rewrite Hrun;
    cbn [outcome_of fst]; (split; [done|]); (split; [done|]); [|done..].
  intros [= ->].
  destruct Hpaths as [(_ & Hne & _)|[(_ & e & evs & _ & _ & _ & _ & Ho)
                                    |(d & url & types & s2 & Hd & Hseed & Hh & Ht)]];
    [done|done|].
  exists d, url. split; [done|]. split; [done|].
  revert Ht. unfold after_setup. unfold bind at 1. unfold call at 1.
  rewrite Hh.
  by destruct (env _ (Get url)) as [[]|e].
Qed.
End HandlerRuns.

Lemma handler_releases_session_witness :
  let r := handler env_configured_unreachable parses_nothing compiles_all
             show_item show_name read_as_plain 3 "find links" true
             links_registry fresh_process in
  history (state_of r)
  = [GetSetting "WEBSITE_URL"; SetupWebDriver; Get "https://example.com";
     report session_lost; Quit] ∧
  last (history (state_of r)) = Some Quit.
Proof.
  cbv zeta. split; [vm_compute; reflexivity|].
  apply (handler_releases_session env_configured_unreachable parses_nothing
           compiles_all show_item show_name read_as_plain 3 "find links" true
           links_registry fresh_process).
  - exists [GetSetting "WEBSITE_URL"], Session. split; [|reflexivity].
    exists [Get "https://example.com"; report session_lost; Quit].
    vm_compute. reflexivity.
  - vm_compute. discriminate.
Defined.

Lemma handler_unclear_request_witness :
  handler env_proposes_greeting parses_nothing compiles_all show_item show_name
    read_as_plain 1 "hello" true (twitter_registry env_proposes_greeting)
    fresh_process
  = (Returned false, twitter_registry env_proposes_greeting,
     with_history
       [RegExpTest twitter_regex_source "hello";
        GenerateText (determineDataTypes_prompt "hello");
        GenerateText (generateDataPattern_prompt "greeting");
        unclear_request] fresh_process).
Proof.
  refine (proj2 (proj2
    (handler_unclear_request env_proposes_greeting parses_nothing
       compiles_all show_item show_name read_as_plain 1 "hello" true
       (twitter_registry env_proposes_greeting) fresh_process
       (twitter_registry env_proposes_greeting)
       (with_history
          [RegExpTest twitter_regex_source "hello";
           GenerateText (determineDataTypes_prompt "hello");
           GenerateText (generateDataPattern_prompt "greeting")]
          fresh_process) _)) eq_refl).
  vm_compute. reflexivity.
Defined.

Lemma handler_without_callback_witness :
  let r := handler env_two_links parses_nothing compiles_all show_item
             show_name read_as_plain 3
             "find links at https://example.com now" false links_registry
             fresh_process in
  outcome_of r = Returned true ∧
  env_two_links [SetupWebDriver] (Get "https://example.com") = Resolve tt.
Proof.
  cbv zeta.
  assert (outcome_of (handler env_two_links parses_nothing compiles_all
                        show_item show_name read_as_plain 3
                        "find links at https://example.com now" false
                        links_registry fresh_process)
          = Returned true) as Hrun by (vm_compute; reflexivity).
  split; [exact Hrun|].
  destruct (proj2 (proj2 (handler_without_callback env_two_links parses_nothing
                            compiles_all show_item show_name read_as_plain 3
                            "find links at https://example.com now"
                            links_registry fresh_process)) Hrun)
    as (d & url & _ & _ & _).
  reflexivity.
Defined.

(** ** Classification of a request *)

Section ClassificationRuns.
Variable env : Env.
Variable JSON_parse : string → option Json.
Variable compiles : string → bool.

Lemma some_test_tests {L} ps text :
  st_steps (extends_with is_test) (@some_test env L ps text).
Proof. induction ps as [|p ps IH]; simpl; step_state; try done. Qed.

Lemma classify_tests {L} text entries types :
  st_steps (extends_with is_test) (@classify env L text entries types).
Proof.
  revert types. induction entries as [|[key entry] entries IH]; intros types;
    simpl; [step_state|].
  apply st_steps_bind; [apply _| |intros b; apply IH].
  unfold entry_matches. step_state; try done. apply some_test_tests.
Qed.

Lemma classify_keeps {L} text entries types (l : L) s types' t :
  outcome_of (classify env text entries types l s) = Returned types' →
  t ∈ types → t ∈ types'.
Proof.
  revert types l s. induction entries as [|[key entry] entries IH];
    intros types l s; simpl.
  - by intros [= <-].
  - unfold bind.
    destruct (entry_matches env text key entry l s) as [[[b|e|] l1] s1];
      [|done..].
    intros Hr Ht. apply (IH _ _ _ Hr).
    destruct b; [|done]. apply elem_of_app. by left.
Qed.

Lemma classify_mentions {L} text entries types (l : L) s types' key entry :
  (key, entry) ∈ entries → includes text key = true →
  outcome_of (classify env text entries types l s) = Returned types' →
  key ∈ types'.
Proof.
  intros Hin Hkey. revert types l s.
  induction entries as [|[key0 entry0] entries IH]; intros types l s; simpl.
  - by apply elem_of_nil in Hin.
  - apply elem_of_cons in Hin as [[= <- <-]|Hin].
    + unfold bind, entry_matches. rewrite Hkey. unfold ret at 1.
      intros Hr. apply (classify_keeps _ _ _ _ _ _ _ Hr).
      apply elem_of_app. right. by apply list_elem_of_singleton.
    + unfold bind.
      destruct (entry_matches env text key0 entry0 l s) as [[[b|e|] l1] s1];
        [|done..].
      by apply IH.
Qed.

(** X10. A request whose lower-cased text mentions the key of a registered
    pattern is classified without the language model: the only calls are
    tests of regular expressions, the registry stays as it is, and the key
    is among the types returned. *)
Theorem determineDataTypes_key_mentioned text reg s key entry :
  (key, entry) ∈ reg →
  includes (toLowerCase text) key = true →
  let r := determineDataTypes env JSON_parse compiles text reg s in
  locals_of r = reg ∧
  extends_with is_test s (state_of r) ∧
  ∀ types, outcome_of r = Returned types → key ∈ types.
Proof.
  intros Hin Hkey. cbv zeta.
  destruct (determineDataTypes env JSON_parse compiles text reg s)
    as [[o l'] s'] eqn:Hrun.
  cbn [outcome_of locals_of state_of fst snd].
  revert Hrun. unfold determineDataTypes.
  unfold bind at 1. unfold get_locals at 1. unfold bind at 1.
  pose proof (classify_spec env (L := list (string * Entry))
                (toLowerCase text) reg [] reg s) as [Hl _].
  pose proof (classify_tests (L := list (string * Entry))
                (toLowerCase text) reg [] reg s) as Hcalls.
  pose proof (classify_mentions (L := list (string * Entry))
                (toLowerCase text) reg [] reg s) as Hmention.
  destruct (classify (L := list (string * Entry)) env (toLowerCase text) reg [] reg s)
    as [[[types|e|] l1] s1]; cbn [outcome_of locals_of state_of fst snd] in *;
    subst l1; [|end_run; split; [done|split; done]..].
  specialize (Hmention types key entry Hin Hkey eq_refl).
  destruct types as [|t types]; [by apply elem_of_nil in Hmention|].
  cbn [length Nat.eqb]. end_run.
  split; [done|]. split; [done|]. by intros ? [= <-].
Qed.

Lemma some_test_terminates {L} ps text (l : L) s :
  outcome_of (some_test env ps text l s) ≠ OutOfFuel.
Proof.
  revert s. induction ps as [|p ps IH]; intros s; simpl; [done|].
  unfold bind, call. destruct (env (history s) _) as [[]|]; [done| |done].
  apply IH.
Qed.

Lemma entry_matches_terminates {L} text key entry (l : L) s :
  outcome_of (entry_matches env text key entry l s) ≠ OutOfFuel.
Proof.
  unfold entry_matches. destruct (includes text key); [done|].
  destruct entry as [p|spec].
  - destruct (includes _ _); [done|]. apply some_test_terminates.
  - unfold bind.
    destruct (get_prop_pure spec "name" l s) as (o1 & -> & _ & F1).
    destruct o1 as [name| |]; [|done..].
    assert (∀ (m : M L bool), outcome_of (m l s) ≠ OutOfFuel →
              (∃ b, m l s = (Returned b, l, s)) ∨ (∃ e, m l s = (Thrown e, l, s)) →
              outcome_of
                (let '(r, l', s') := m l s in
                 match r with
                 | Returned a =>
                     (if a then ret true
                      else bind (get_prop spec "patterns") (λ patterns,
                             match patterns with
                             | Some (JArray []) => ret false
                             | Some (JArray (_ :: _)) => not_a_function "p.test"
                             | _ => not_a_function "pattern.patterns.some"
                             end)) l' s'
                 | Thrown e => (Thrown e, l', s')
                 | OutOfFuel => (OutOfFuel, l', s')
                 end) ≠ OutOfFuel) as Hrest.
    { intros m _ [[b ->]|[e ->]]; [|done]. destruct b; [done|].
      unfold bind.
      destruct (get_prop_pure spec "patterns" l s) as (o2 & -> & _ & F2).
      destruct o2 as [[[| | | |[|]| |]|]| |]; done. }
    destruct name as [[]|]; apply Hrest; try done;
      first [by left; eexists | by right; eexists].
Qed.

Lemma classify_stops {L} text entries types (l : L) s key spec n p ps :
  (key, Synthesized spec) ∈ entries →
  prop_of spec "name" = Some (JString n) →
  prop_of spec "patterns" = Some (JArray (p :: ps)) →
  includes text key = false →
  includes text (toLowerCase n) = false →
  ∃ e, outcome_of (classify env text entries types l s) = Thrown e.
Proof.
  intros Hin Hname Hpatterns Hkey Hn. revert types l s.
  induction entries as [|[key0 entry0] entries IH]; intros types l s; simpl.
  - by apply elem_of_nil in Hin.
  - apply elem_of_cons in Hin as [[= <- <-]|Hin].
    + unfold bind at 1. unfold entry_matches. rewrite Hkey.
      destruct spec as [| | | | |fields|]; try done.
      cbn [prop_of] in Hname, Hpatterns. cbn [get_prop].
      unfold bind, ret. rewrite Hname, Hn, Hpatterns. by eexists.
    + unfold bind.
      pose proof (entry_matches_terminates text key0 entry0 l s) as Hterm.
      destruct (entry_matches env text key0 entry0 l s) as [[[b|e|] l1] s1].
      * by apply IH.
      * by eexists.
      * done.
Qed.

(** X11. A registered pattern that was synthesized from JSON holds its
    regular expressions as strings.  When its name is a string and its
    pattern list is not empty, every request that mentions neither its key
    nor its name makes the classification throw, since a string has no
    [test] method. *)
Theorem synthesized_pattern_stops_classification text reg s key spec n p ps :
  (key, Synthesized spec) ∈ reg →
  prop_of spec "name" = Some (JString n) →
  prop_of spec "patterns" = Some (JArray (p :: ps)) →
  includes (toLowerCase text) key = false →
  includes (toLowerCase text) (toLowerCase n) = false →
  ∃ e, outcome_of (determineDataTypes env JSON_parse compiles text reg s)
       = Thrown e.
Proof.
  intros Hin Hname Hpatterns Hkey Hn. unfold determineDataTypes.
  unfold bind at 1. unfold get_locals at 1. unfold bind at 1.
  cbn beta.
  destruct (classify_stops (L := list (string * Entry)) (toLowerCase text) reg
              [] reg s key spec n p ps Hin Hname Hpatterns Hkey Hn) as [e He].
  destruct (classify (L := list (string * Entry)) env (toLowerCase text) reg [] reg s)
    as [[o l1] s1]. cbn [outcome_of fst] in He. subst o. by eexists.
Qed.
End ClassificationRuns.

Lemma determineDataTypes_key_mentioned_witness :
  let r := determineDataTypes env_two_links parses_nothing compiles_all
             "Find the LINKS of this page" links_registry fresh_process in
  outcome_of r = Returned ["links"] ∧
  locals_of r = links_registry ∧
  extends_with is_test fresh_process (state_of r).
Proof.
  cbv zeta.
  destruct (determineDataTypes_key_mentioned env_two_links parses_nothing
              compiles_all "Find the LINKS of this page" links_registry
              fresh_process "links" (BuiltIn plain_pattern))
    as (Hl & Hcalls & _).
  - apply list_elem_of_singleton. reflexivity.
  - vm_compute. reflexivity.
  - split; [vm_compute; reflexivity|]. by split.
Defined.

Lemma synthesized_pattern_stops_classification_witness :
  ∃ e, outcome_of (determineDataTypes quiet_env parses_nothing compiles_all
                     "what is the weather"
                     [("emails", Synthesized emails_spec)] fresh_process)
       = Thrown e.
Proof.
  apply (synthesized_pattern_stops_classification quiet_env parses_nothing
           compiles_all "what is the weather"
           [("emails", Synthesized emails_spec)] fresh_process
           "emails" emails_spec "Email Addresses" (JString "[a-z]+@[a-z]+") []).
  - apply list_elem_of_singleton. reflexivity.
  - reflexivity.
  - reflexivity.
  - vm_compute. reflexivity.
  - vm_compute. reflexivity.
Defined.

(** ** The twitter pattern, as the extractor runs it *)

Lemma validateTwitterUsername_without_driver {L} env username (l : L) s :
  validatedProfiles s !! username = None →
  validateTwitterUsername env username None l s
  = (Returned false, l,
     with_validatedProfiles (<[username := false]> (validatedProfiles s)) s).
Proof.
  intros Hnone. unfold validateTwitterUsername. unfold bind at 1.
  unfold get_state at 1. rewrite Hnone. reflexivity.
Qed.

(** X12. The transform of the twitter pattern, run without a driver as the
    extractor runs it, calls nothing.  It yields the handle, and adds it to
    the target users, only when the handle is already cached as valid;
    otherwise it yields [null], leaves the target users alone, and the
    handle is cached as invalid from then on. *)
Theorem twitter_transform_without_driver env value s :
  let username := twitter_username value in
  let r := twitter_transform env value None tt s in
  history (state_of r) = history s ∧
  (username ≠ EmptyString → validatedProfiles s !! username = Some true →
   outcome_of r = Returned (JsStr username) ∧
   TWITTER_TARGET_USERS (state_of r)
   = Some (add_target_user username (TWITTER_TARGET_USERS s))) ∧
  (validatedProfiles s !! username ≠ Some true →
   outcome_of r = Returned JsNull ∧
   TWITTER_TARGET_USERS (state_of r) = TWITTER_TARGET_USERS s ∧
   (username ≠ EmptyString →
    validatedProfiles (state_of r) !! username = Some false)).
Proof.
  cbv zeta.
  destruct (twitter_transform env value None tt s) as [[o l'] s'] eqn:Hrun.
  cbn [outcome_of locals_of state_of fst snd].
  revert Hrun. unfold twitter_transform.
  destruct (String.eqb_spec (twitter_username value) EmptyString) as [Hu|Hu];
    cbn [negb].
  - end_run. split; [done|]. split; [done|]. intros _. by repeat split.
  - unfold bind at 1.
    destruct (validatedProfiles s !! twitter_username value) as [[|]|] eqn:Hc.
    + rewrite (validateTwitterUsername_cached env _ None tt s true Hc).
      unfold bind, modify_state. end_run.
      split; [done|]. split; [done|]. done.
    + rewrite (validateTwitterUsername_cached env _ None tt s false Hc).
      end_run. split; [done|]. split; [done|]. intros _. by repeat split.
    + rewrite (validateTwitterUsername_without_driver env _ tt s Hc).
      end_run. split; [done|]. split; [done|]. intros _.
      split; [done|]. split; [done|]. intros _.
      cbn. apply lookup_insert_eq.
Qed.

(** ** The validator of synthesized patterns *)

Section Validator.
Variable compiles : string → bool.

Lemma assoc_set_other {V} key key' (v : V) fields :
  key ≠ key' → assoc key' (assoc_set key v fields) = assoc key' fields.
Proof.
  intros Hne. unfold assoc_set. destruct (assoc key fields) as [w|] eqn:Hkey.
  - rewrite assoc_replace_key. by destruct (String.eqb_spec key key').
  - rewrite assoc_insert_key by done. by destruct (String.eqb_spec key key').
Qed.

(** What [functionalize] returns, when it returns. *)
Lemma functionalize_returns {L} config key params (l : L) s config' :
  outcome_of (functionalize compiles config key params l s) = Returned config' →
  (∀ body, prop_of config' key ≠ Some (JString body)) ∧
  (∀ key', key' ≠ key → prop_of config' key' = prop_of config key') ∧
  (∀ body, prop_of config key = Some (JString body) →
           compiles body = true ∧
           prop_of config' key = Some (JFunction params body)).
Proof.
  unfold functionalize, bind.
  destruct (get_prop_pure config key l s) as (o & -> & Ho & _).
  destruct o as [f| |]; [|done..]. specialize (Ho f eq_refl). subst f.
  destruct (prop_of config key) as [x|] eqn:Hx.
  - destruct x as [| | |body| | |];
      try (intros [= <-]; rewrite Hx; by repeat split).
    destruct (compiles body) eqn:Hbody; [|done]. intros [= <-].
    destruct config as [| | | | |fields|]; try done.
    cbn [set_prop prop_of] in *. split; [|split].
    + intros body'. by rewrite assoc_set_lookup.
    + intros key' Hne. apply assoc_set_other. congruence.
    + intros body' [= <-]. split; [done|]. by rewrite assoc_set_lookup.
  - intros [= <-]. rewrite Hx. by repeat split.
Qed.

(** X13. A pattern that [validateAndTransformPattern] accepts is the
    specification with its [config] rewritten: its name and its pattern
    list are untouched, and neither [transform] nor [validate] is a string
    any more, a string having been accepted by [new Function] and replaced
    by the function. *)
Theorem validateAndTransformPattern_compiles {L} pattern (l : L) s p :
  outcome_of (validateAndTransformPattern compiles pattern l s)
  = Returned (Some p) →
  prop_of p "name" = prop_of pattern "name" ∧
  prop_of p "patterns" = prop_of pattern "patterns" ∧
  ∃ config config',
    prop_of pattern "config" = Some config ∧
    prop_of p "config" = Some config' ∧
    (∀ key body, key = "transform" ∨ key = "validate" →
                 prop_of config' key ≠ Some (JString body)) ∧
    (∀ key body, key = "transform" ∨ key = "validate" →
                 prop_of config key = Some (JString body) →
                 compiles body = true ∧
                 ∃ params, prop_of config' key = Some (JFunction params body)) ∧
    prop_of config' "selectors" = prop_of config "selectors".
Proof.
  unfold validateAndTransformPattern, bind.
  destruct (get_prop_pure pattern "name" l s) as (o1 & -> & H1 & _).
  destruct o1 as [name| |]; try done.
  destruct (negb (truthy_prop name)); [done|].
  destruct (get_prop_pure pattern "patterns" l s) as (o2 & -> & H2 & _).
  destruct o2 as [patterns| |]; try done.
  destruct (negb (truthy_prop patterns)); [done|].
  destruct (get_prop_pure pattern "config" l s) as (o3 & -> & H3 & _).
  destruct o3 as [config| |]; try done. specialize (H3 config eq_refl).
  destruct config as [config|]; [|done].
  destruct (negb (truthy_prop (Some config))); [done|].
  unfold bind.
  pose proof (functionalize_returns (L := L) config "transform"
                ["value"; "driver"] l s) as Ht.
  destruct (functionalize_pure compiles config "transform" ["value"; "driver"] l s)
    as (o4 & Ho4). rewrite Ho4 in *. cbn [outcome_of fst] in Ht.
  destruct o4 as [config1| |]; try done.
  destruct (Ht config1 eq_refl) as (Ht1 & Ht2 & Ht3).
  pose proof (functionalize_returns (L := L) config1 "validate" ["value"] l s)
    as Hv.
  destruct (functionalize_pure compiles config1 "validate" ["value"] l s)
    as (o5 & Ho5). rewrite Ho5 in *. cbn [outcome_of fst] in Hv.
  destruct o5 as [config2| |]; try done.
  destruct (Hv config2 eq_refl) as (Hv1 & Hv2 & Hv3).
  intros [= <-].
  destruct pattern as [| | | | |fields|]; try done.
  cbn [set_prop prop_of] in *.
  split; [by apply assoc_set_other|]. split; [by apply assoc_set_other|].
  exists config, config2. split; [done|]. split; [apply assoc_set_lookup|].
  split; [|split].
  - intros key body [-> | ->]; [|apply Hv1].
    rewrite (Hv2 "transform") by done. apply Ht1.
  - intros key body [-> | ->] Hbody.
    + destruct (Ht3 body Hbody) as [Hc Hf]. split; [done|].
      exists ["value"; "driver"]. by rewrite (Hv2 "transform").
    + rewrite <- (Ht2 "validate") in Hbody by done.
      destruct (Hv3 body Hbody) as [Hc Hf]. split; [done|]. by eexists.
  - rewrite (Hv2 "selectors") by done. by apply Ht2.
Qed.
End Validator.

Lemma validateAndTransformPattern_compiles_witness :
  let pattern :=
    JObject [("name", JString "Prices");
             ("patterns", JArray [JString "[0-9]+"]);
             ("config", JObject [("selectors", JArray [JString ".price"]);
                                 ("transform", JString "return value.trim()")])] in
  ∃ config',
    prop_of (default JNull
               (match outcome_of (validateAndTransformPattern compiles_all
                                    pattern tt fresh_process) with
                | Returned p => p
                | _ => None
                end)) "config" = Some config' ∧
    prop_of config' "transform"
    = Some (JFunction ["value"; "driver"] "return value.trim()").
Proof.
  cbv zeta.
  destruct (validateAndTransformPattern_compiles compiles_all
              (JObject [("name", JString "Prices");
                        ("patterns", JArray [JString "[0-9]+"]);
                        ("config",
                         JObject [("selectors", JArray [JString ".price"]);
                                  ("transform", JString "return value.trim()")])])
              tt fresh_process
              (JObject [("name", JString "Prices");
                        ("patterns", JArray [JString "[0-9]+"]);
                        ("config",
                         JObject [("selectors", JArray [JString ".price"]);
                                  ("transform",
                                   JFunction ["value"; "driver"]
                                     "return value.trim()")])]))
    as (_ & _ & config & config' & Hc & Hc' & _).
  - vm_compute. reflexivity.
  - exists config'. split; [exact Hc'|].
    vm_compute in Hc'. injection Hc' as <-. reflexivity.
Defined.

(** ** The profiles found in a page *)

Lemma is_profile_candidate_spec domain username :
  is_profile_candidate domain username = true →
  (domain = "twitter.com" ∨ domain = "x.com") ∧
  includes username "token" = false ∧
  includes username "pump" = false ∧
  only_digits username = false ∧
  (4 ≤ String.length username ≤ 15) ∧
  handle_shaped username = true ∧
  username ∉ reserved_paths.
Proof.
  unfold is_profile_candidate. rewrite !andb_true_iff, !negb_true_iff.
  intros (((((((Hd & Ht) & Hp) & Hdig) & Hmin) & Hmax) & Hshape) & Hres).
  apply bool_decide_eq_false in Hres.
  apply Nat.leb_le in Hmin, Hmax.
  split; [|done].
  apply orb_true_iff in Hd as [Hd|Hd]; apply String.eqb_eq in Hd; [by left|by right].
Qed.

Lemma candidates_from (matches : list (string * string)) acc :
  NoDup acc →
  let step := λ potentialUsernames (m : string * string),
                if is_profile_candidate (toLowerCase m.1) (toLowerCase m.2)
                then set_add (toLowerCase m.2) potentialUsernames
                else potentialUsernames in
  NoDup (foldl step acc matches) ∧
  ∀ u, u ∈ foldl step acc matches ↔
       u ∈ acc ∨
       ∃ m, m ∈ matches ∧ u = toLowerCase m.2 ∧
            is_profile_candidate (toLowerCase m.1) u = true.
Proof.
  cbv zeta. revert acc. induction matches as [|m matches IH]; intros acc Hacc.
  - simpl. split; [done|]. intros u. split; [by left|].
    intros [H|(m & Hm & _)]; [done|]. by apply elem_of_nil in Hm.
  - cbn [foldl].
    destruct (is_profile_candidate (toLowerCase m.1) (toLowerCase m.2)) eqn:Hc.
    + destruct (IH (set_add (toLowerCase m.2) acc)) as [Hnd Hiff];
        [by apply set_add_NoDup|].
      split; [done|]. intros u. rewrite Hiff, set_add_elem. split.
      * intros [[->|H]|(m' & Hm' & Hu)]; [right|by left|right].
        -- exists m. split; [by left|]. done.
        -- exists m'. split; [by right|]. done.
      * intros [H|(m' & Hm' & Hu & Hcand)]; [by left; right|].
        apply elem_of_cons in Hm' as [->|Hm']; [by left; left|].
        right. by exists m'.
    + destruct (IH acc Hacc) as [Hnd Hiff]. split; [done|].
      intros u. rewrite Hiff. split.
      * intros [H|(m' & Hm' & Hu)]; [by left|right].
        exists m'. split; [by right|]. done.
      * intros [H|(m' & Hm' & Hu & Hcand)]; [by left|].
        apply elem_of_cons in Hm' as [->|Hm']; [congruence|].
        right. by exists m'.
Qed.

(** X14. The handles [extractProfilesFromCurrentPage] goes on to validate
    are, without repetition, the lower-cased user names of the matches on
    [twitter.com] or [x.com] that pass the filter: between 4 and 15
    characters, shaped like a handle, not made of digits only, not a
    reserved path, and without [token] or [pump] in them. *)
Theorem potential_usernames_sound matches :
  NoDup (potential_usernames matches) ∧
  (∀ u, u ∈ potential_usernames matches ↔
        ∃ m, m ∈ matches ∧ u = toLowerCase m.2 ∧
             is_profile_candidate (toLowerCase m.1) u = true) ∧
  (∀ u, u ∈ potential_usernames matches →
        (4 ≤ String.length u ≤ 15) ∧
        handle_shaped u = true ∧
        only_digits u = false ∧
        (u ∉ reserved_paths) ∧
        includes u "token" = false ∧
        includes u "pump" = false).
Proof.
  destruct (candidates_from matches [] NoDup_nil_2) as [Hnd Hiff].
  cbv zeta in *. fold (potential_usernames matches) in Hnd, Hiff.
  assert (∀ u, u ∈ potential_usernames matches ↔
               ∃ m, m ∈ matches ∧ u = toLowerCase m.2 ∧
                    is_profile_candidate (toLowerCase m.1) u = true) as Hmem.
  { intros u. rewrite Hiff. split; [|by right].
    intros [H|H]; [by apply elem_of_nil in H|done]. }
  split; [done|]. split; [done|].
  intros u (m & _ & _ & Hc)%Hmem.
  destruct (is_profile_candidate_spec _ _ Hc) as (_ & ? & ? & ? & ? & ? & ?).
  done.
Qed.

Section ProfileRuns.
Variable env : Env.
Variable driver : WebDriver.

(** One turn of the validation loop. *)
Lemma validate_candidate_spec username profiles s :
  let r := validate_candidate env driver username profiles s in
  outcome_of r = Returned tt ∧
  validatedProfiles s ⊆ validatedProfiles (state_of r) ∧
  (is_Some (validatedProfiles s !! username) → state_of r = s) ∧
  ∃ b : bool, validatedProfiles (state_of r) !! username = Some b ∧
       locals_of r = if b then (profiles ++ [username])%list else profiles.
Proof.
  cbv zeta.
  destruct (validate_candidate env driver username profiles s)
    as [[o l'] s'] eqn:Hrun.
  cbn [outcome_of locals_of state_of fst snd].
  revert Hrun. unfold validate_candidate, try_catch. unfold bind at 1.
  unfold get_state at 1.
  destruct (validatedProfiles s !! username) as [cached|] eqn:Hc.
  - destruct cached; unfold modify_locals; end_run;
      (split; [done|]); (split; [done|]); (split; [done|]); by eexists.
  - unfold bind at 1.
    destruct (validateTwitterUsername_uncached env username (Some driver)
                profiles s Hc) as (b & Hout & Hl & Hcache & _).
    destruct (validateTwitterUsername env username (Some driver) profiles s)
      as [[o1 l1] s1]. cbn [outcome_of locals_of state_of fst snd] in *.
    subst o1 l1. unfold bind at 1.
    assert (validatedProfiles s ⊆ validatedProfiles s1) as Hsub.
    { rewrite Hcache. by apply insert_subseteq. }
    assert (validatedProfiles s1 !! username = Some b) as Hb.
    { rewrite Hcache. apply lookup_insert_eq. }
    destruct b; unfold modify_locals, timer; end_run;
      (split; [done|]); (split; [done|]);
      (split; [by intros [? ?]|]); by eexists.
Qed.

Lemma validate_all_candidates candidates profiles s :
  let r := for_of candidates (validate_candidate env driver) profiles s in
  outcome_of r = Returned tt ∧
  validatedProfiles s ⊆ validatedProfiles (state_of r) ∧
  ((∀ u, u ∈ candidates → is_Some (validatedProfiles s !! u)) →
   state_of r = s) ∧
  (∀ u, u ∈ candidates → is_Some (validatedProfiles (state_of r) !! u)) ∧
  locals_of r = (profiles ++ cached_valid (state_of r) candidates)%list.
Proof.
  cbv zeta. revert profiles s.
  induction candidates as [|u candidates IH]; intros profiles s.
  - cbn. split; [done|]. split; [done|]. split; [done|].
    split; [by intros u ?%elem_of_nil|]. by rewrite app_nil_r.
  - cbn [for_of]. unfold bind.
    destruct (validate_candidate_spec u profiles s)
      as (Hout & Hsub & Hsame & b & Hb & Hl).
    destruct (validate_candidate env driver u profiles s) as [[o1 l1] s1].
    cbn [outcome_of locals_of state_of fst snd] in *. subst o1 l1.
    destruct (IH (if b then (profiles ++ [u])%list else profiles) s1)
      as (Hout' & Hsub' & Hsame' & Hall & Hl').
    destruct (for_of candidates (validate_candidate env driver) _ s1)
      as [[o2 l2] s2]. cbn [outcome_of locals_of state_of fst snd] in *.
    subst o2 l2.
    assert (validatedProfiles s2 !! u = Some b) as Hb2
      by (by eapply lookup_weaken).
    split; [done|]. split; [by etrans|]. split; [|split].
    + intros Hcached.
      assert (s1 = s) as -> by (apply Hsame, Hcached; by left).
      apply Hsame'. intros u' Hu'. apply Hcached. by right.
    + intros u' [->|Hu']%elem_of_cons; [by eexists|by apply Hall].
    + unfold cached_valid. rewrite filter_cons.
      destruct b.
      * rewrite decide_True by done. by rewrite <- app_assoc.
      * rewrite decide_False by congruence. done.
Qed.

(** X15. From the matches of the profile pattern on,
    [extractProfilesFromCurrentPage] never throws and returns, without
    repetition and in the order of the page, exactly the candidate handles
    that the validation cache holds as valid when it ends; the cache has
    only grown, and holds an answer for every candidate. *)
Theorem profiles_of_matches_spec {L} matches (l : L) s :
  let r := profiles_of_matches env driver matches l s in
  let candidates := potential_usernames matches in
  outcome_of r = Returned (cached_valid (state_of r) candidates) ∧
  NoDup (cached_valid (state_of r) candidates) ∧
  locals_of r = l ∧
  validatedProfiles s ⊆ validatedProfiles (state_of r) ∧
  ∀ u, u ∈ candidates → is_Some (validatedProfiles (state_of r) !! u).
Proof.
  cbv zeta.
  destruct (profiles_of_matches env driver matches l s) as [[o l'] s'] eqn:Hrun.
  cbn [outcome_of locals_of state_of fst snd].
  revert Hrun. unfold profiles_of_matches, invoke, bind.
  destruct (validate_all_candidates (potential_usernames matches) [] s)
    as (Hout & Hsub & _ & Hall & Hl).
  destruct (for_of (potential_usernames matches) (validate_candidate env driver)
              [] s) as [[o1 l1] s1].
  cbn [outcome_of locals_of state_of fst snd] in *. subst o1 l1.
  unfold get_locals. end_run. split; [done|]. split; [|done].
  apply NoDup_filter.
  destruct (candidates_from matches [] NoDup_nil_2) as [Hnd _]. exact Hnd.
Qed.

(** With an answer in the cache for every candidate, the loop answers from
    the cache. *)
Lemma profiles_from_cache {L} matches (l : L) s :
  (∀ u, u ∈ potential_usernames matches →
        is_Some (validatedProfiles s !! u)) →
  profiles_of_matches env driver matches l s
  = (Returned (cached_valid s (potential_usernames matches)), l, s).
Proof.
  intros Hcached. unfold profiles_of_matches, invoke, bind.
  destruct (validate_all_candidates (potential_usernames matches) [] s)
    as (Hout & _ & Hsame & _ & Hl).
  specialize (Hsame Hcached).
  destruct (for_of (potential_usernames matches) (validate_candidate env driver)
              [] s) as [[o1 l1] s1].
  cbn [outcome_of locals_of state_of fst snd] in *. subst o1 l1 s1.
  reflexivity.
Qed.
End ProfileRuns.

(** X16. When the page can be read and the cache already holds an answer
    for every candidate on it, [extractProfilesFromCurrentPage] makes the
    three calls that read the page and no other: it answers from the cache,
    which it leaves as it is. *)
Theorem extractProfilesFromCurrentPage_cached {L} (env : Env) matchAll driver
    (l : L) s pageSource body visibleText :
  let read := [GetPageSource; FindElement "By.css(body)"; GetText body] in
  let candidates :=
    potential_usernames (matchAll (pageSource ++ " " ++ visibleText)%string) in
  env (history s) GetPageSource = Resolve pageSource →
  env (history s ++ [GetPageSource]) (FindElement "By.css(body)")
  = Resolve body →
  env (history s ++ [GetPageSource; FindElement "By.css(body)"]) (GetText body)
  = Resolve visibleText →
  (∀ u, u ∈ candidates → is_Some (validatedProfiles s !! u)) →
  extractProfilesFromCurrentPage env matchAll driver l s
  = (Returned (cached_valid s candidates), l,
     with_history (history s ++ read) s).
Proof.
  cbv zeta. intros Hsource Hbody Htext Hcached.
  unfold extractProfilesFromCurrentPage.
  unfold bind at 1. unfold call at 1. rewrite Hsource.
  unfold bind at 1. unfold call at 1. cbn [history with_history]. rewrite Hbody.
  unfold bind at 1. unfold call at 1. cbn [history with_history].
  rewrite <- !app_assoc. cbn [app]. rewrite Htext.
  rewrite profiles_from_cache by exact Hcached. reflexivity.
Qed.

Lemma extractProfilesFromCurrentPage_cached_witness :
  extractProfilesFromCurrentPage env_profile_page matches_of_profile_page
    Session tt (knows "alice_01" true)
  = (Returned ["alice_01"], tt,
     with_history [GetPageSource; FindElement "By.css(body)"; GetText 0]
       (knows "alice_01" true)).
Proof.
  apply (extractProfilesFromCurrentPage_cached env_profile_page
           matches_of_profile_page Session tt (knows "alice_01" true)
           "x.com/Alice_01 x.com/home" 0 "twitter.com/alice_01").
  - reflexivity.
  - reflexivity.
  - reflexivity.
  - intros u Hu.
    assert (u = "alice_01") as ->.
    { vm_compute in Hu. by apply list_elem_of_singleton in Hu. }
    exists true. reflexivity.
Defined.

(** ** The target users *)

Lemma split_on_parts s :
  Forall (λ p, all_chars (λ c, negb (Ascii.eqb c ",")) p = true)
    (split_on "," s).
Proof.
  induction s as [|c s IH]; simpl; [by apply Forall_singleton|].
  destruct (Ascii.eqb c ",") eqn:Hc; [by apply Forall_cons|].
  destruct (split_on "," s) as [|w ws]; [apply Forall_singleton; simpl; by rewrite Hc|].
  apply Forall_cons in IH as [Hw Hws]. apply Forall_cons. split; [|done].
  simpl. by rewrite Hc.
Qed.

Lemma split_on_single p :
  all_chars (λ c, negb (Ascii.eqb c ",")) p = true → split_on "," p = [p].
Proof.
  induction p as [|c p IH]; simpl; [done|].
  intros [Hc Hp]%andb_true_iff. apply negb_true_iff in Hc. rewrite Hc.
  by rewrite (IH Hp).
Qed.

Lemma split_on_append p rest :
  all_chars (λ c, negb (Ascii.eqb c ",")) p = true →
  split_on "," (p ++ "," ++ rest)%string = p :: split_on "," rest.
Proof.
  induction p as [|c p IH]; [done|].
  cbn [all_chars]. intros [Hc Hp]%andb_true_iff. apply negb_true_iff in Hc.
  rewrite append_cons. cbn [split_on]. rewrite Hc. by rewrite (IH Hp).
Qed.

Lemma split_on_join parts :
  parts ≠ [] →
  Forall (λ p, all_chars (λ c, negb (Ascii.eqb c ",")) p = true) parts →
  split_on "," (join "," parts) = parts.
Proof.
  induction parts as [|p parts IH]; [done|]. intros _ [Hp Hparts]%Forall_cons.
  destruct parts as [|q parts]; [by apply split_on_single|].
  change (join "," (p :: q :: parts))
    with (p ++ "," ++ join "," (q :: parts))%string.
  rewrite split_on_append by done. f_equal. by apply IH.
Qed.

Lemma filter_all {A} (P : A → Prop) `{!∀ x, Decision (P x)} (xs : list A) :
  Forall P xs → filter P xs = xs.
Proof.
  induction 1 as [|x xs Hx Hxs IH]; [done|].
  rewrite filter_cons, decide_True by done. by rewrite IH.
Qed.

Lemma current_users_join users :
  Forall storable users → current_users (join "," users) = users.
Proof.
  intros Husers. unfold current_users.
  destruct users as [|u users]; [done|].
  rewrite split_on_join; [|done|].
  - apply filter_all. eapply Forall_impl; [exact Husers|]. by intros x [_ ?].
  - eapply Forall_impl; [exact Husers|]. by intros x [? _].
Qed.

Lemma current_users_storable setting : Forall storable (current_users setting).
Proof.
  unfold current_users. apply Forall_forall. intros u [Ht Hu]%list_elem_of_filter.
  split; [|done].
  pose proof (split_on_parts setting) as Hparts.
  rewrite Forall_forall in Hparts. by apply Hparts.
Qed.

Lemma foldl_set_add_elem {A} `{EqDecision A} (new s : list A) x :
  x ∈ foldl (λ s v, set_add v s) s new ↔ x ∈ s ∨ x ∈ new.
Proof.
  revert s. induction new as [|v new IH]; intros s; simpl.
  - split; [by left|]. intros [H|H]; [done|by apply elem_of_nil in H].
  - rewrite IH, set_add_elem, elem_of_cons. tauto.
Qed.

Lemma foldl_set_add_prefix {A} `{EqDecision A} (new s : list A) :
  s `prefix_of` foldl (λ s v, set_add v s) s new.
Proof.
  revert s. induction new as [|v new IH]; intros s; simpl; [done|].
  etrans; [|apply IH]. unfold set_add. case_decide; [done|].
  by apply prefix_app_r.
Qed.

Lemma new_Set_NoDup {A} `{EqDecision A} (l : list A) : NoDup (new_Set l).
Proof. apply (set_add_all_NoDup l []). apply NoDup_nil_2. Qed.

Lemma new_Set_append_present {A} `{EqDecision A} (s new : list A) :
  NoDup s → (∀ v, v ∈ new → v ∈ s) → new_Set (s ++ new) = s.
Proof.
  intros Hs Hnew. unfold new_Set. rewrite foldl_app.
  assert (∀ acc, NoDup (acc ++ s) →
                 foldl (λ s v, set_add v s) acc s = acc ++ s) as Hid.
  { clear Hnew Hs. induction s as [|v s IH]; intros acc Hacc; simpl.
    - by rewrite app_nil_r.
    - assert (set_add v acc = acc ++ [v]) as ->.
      { unfold set_add. rewrite decide_False; [done|].
        apply NoDup_app in Hacc as (_ & Hdisj & _). intros Hv.
        apply (Hdisj v Hv). by left. }
      rewrite IH.
      + by rewrite <- List.app_assoc.
      + by rewrite <- List.app_assoc. }
  rewrite (Hid [] Hs). by apply (set_add_all_present new s).
Qed.

(** X17. The target users written by the handlers can be read back: when
    the profiles hold no comma and are not blank, reading the new value of
    [TWITTER_TARGET_USERS] gives the users it held followed by the new
    profiles, each once; every user it held is kept; and writing the same
    profiles again changes nothing.  The twitter transform writes the
    setting in the same way, for one handle. *)
Theorem merge_target_users_read_back current profiles :
  Forall storable profiles →
  let before := current_users (default EmptyString current) in
  let merged := merge_target_users current profiles in
  current_users merged = new_Set (before ++ profiles) ∧
  NoDup (current_users merged) ∧
  (∀ u, u ∈ current_users merged ↔ u ∈ before ∨ u ∈ profiles) ∧
  merge_target_users (Some merged) profiles = merged ∧
  ∀ u, add_target_user u current = merge_target_users current [u].
Proof.
  intros Hprofiles. cbv zeta.
  assert (merge_target_users current profiles
          = join "," (new_Set (current_users (default EmptyString current)
                                 ++ profiles))) as Hmerged.
  { unfold merge_target_users, current_users. by destruct current. }
  assert (Forall storable
            (new_Set (current_users (default EmptyString current) ++ profiles)))
    as Hall.
  { apply Forall_forall. intros u Hu.
    apply foldl_set_add_elem in Hu as [Hu|Hu]; [by apply elem_of_nil in Hu|].
    apply elem_of_app in Hu as [Hu|Hu].
    - pose proof (current_users_storable (default EmptyString current)) as Hc.
      rewrite Forall_forall in Hc. by apply Hc.
    - rewrite Forall_forall in Hprofiles. by apply Hprofiles. }
  assert (current_users (merge_target_users current profiles)
          = new_Set (current_users (default EmptyString current) ++ profiles))
    as Hread.
  { rewrite Hmerged. by apply current_users_join. }
  split; [done|]. split; [rewrite Hread; apply new_Set_NoDup|].
  split; [|split].
  - intros u. rewrite Hread. unfold new_Set.
    rewrite foldl_set_add_elem, elem_of_app.
    split; [intros [H|H]; [by apply elem_of_nil in H|done]|by right].
  - unfold merge_target_users at 1. fold (current_users (merge_target_users current profiles)).
    rewrite Hread, Hmerged. f_equal.
    apply new_Set_append_present; [apply new_Set_NoDup|].
    intros v Hv. apply foldl_set_add_elem. right. apply elem_of_app. by right.
  - intros u. unfold add_target_user, merge_target_users.
    destruct current as [v|]; [|done].
    by destruct (String.eqb_spec v EmptyString) as [->|].
Qed.

Lemma merge_target_users_read_back_witness :
  current_users (merge_target_users (Some "alice, ,bob") ["bob"; "carol"])
  = ["alice"; "bob"; "carol"] ∧
  merge_target_users (Some "alice, ,bob") ["bob"; "carol"] = "alice,bob,carol".
Proof.
  destruct (merge_target_users_read_back (Some "alice, ,bob") ["bob"; "carol"])
    as (Hread & _).
  - repeat (apply List.Forall_cons; [split; reflexivity|]). apply List.Forall_nil.
  - split; [exact Hread | reflexivity].
Defined.

(** ** The results of a crawl *)

Lemma results_grow_preorder : PreOrder results_grow.
Proof.
  split; [intros l; unfold results_grow; reflexivity|].
  intros l1 l2 l3 H1 H2. unfold results_grow in *. by etrans.
Qed.

(** X18. Merging new values into the result set appends those that are not
    yet in it and keeps what it held, in order; so an iteration of the crawl,
    whatever fails in it, never loses or reorders a result collected so
    far. *)
Theorem crawl_results_only_grow env driver pattern :
  (∀ (new results : list JsValue),
     results `prefix_of` set_add_all new results ∧
     ∀ v, v ∈ set_add_all new results ↔ v ∈ results ∨ v ∈ new) ∧
  (∀ l s,
     results l `prefix_of`
     results (locals_of (crawl_iteration env driver pattern l s))) ∧
  (∀ fuel l s,
     results l `prefix_of`
     results (locals_of (crawl_body env fuel driver pattern l s))).
Proof.
  assert (∀ new l, results_grow l (add_results new l)) as Hadd.
  { intros new l. apply foldl_set_add_prefix. }
  assert (∀ l, results_grow l
                 {| results := results l; visitedUrls := visitedUrls l;
                    urlsToVisit := tail (urlsToVisit l) |}) as Hshift.
  { intros l. unfold results_grow. reflexivity. }
  split; [|split].
  - intros new results. split; [apply foldl_set_add_prefix|].
    intros v. apply foldl_set_add_elem.
  - intros l s.
    apply (crawl_iteration_steps env driver pattern results_grow
             (PreOrder0 := results_grow_preorder) Hadd Hshift l s).
  - intros fuel l s.
    apply (crawl_body_steps env driver pattern results_grow
             (PreOrder0 := results_grow_preorder) Hadd Hshift fuel l s).
Qed.

(** ** The answer of the handler *)

Section Answer.
Variable ToString : JsValue → string.
Variable name_ToString : option Json → string.

Lemma items_grow (data : list JsValue) response :
  let text := foldl (λ r item, r ++ "- " ++ ToString item ++ newline)%string
                response data in
  String.prefix response text = true ∧
  String.length response ≤ String.length text.
Proof.
  cbv zeta. revert response. induction data as [|item data IH]; intros response.
  - simpl. split; [|lia]. clear. induction response as [|c r IH]; [done|].
    simpl. by destruct (ascii_dec c c).
  - cbn [foldl].
    destruct (IH (response ++ "- " ++ ToString item ++ newline)%string)
      as [Hp Hlen].
    split.
    + eapply prefix_trans; [apply prefix_append|exact Hp].
    + rewrite length_append in Hlen. lia.
Qed.

Lemma format_entries_grows entries response l s text :
  outcome_of (format_entries ToString name_ToString entries response l s)
  = Returned text →
  String.prefix response text = true ∧
  String.length response ≤ String.length text ∧
  (Exists (λ entry, ¬ no_data entry) entries →
   String.length response < String.length text).
Proof.
  revert response l s.
  induction entries as [|[type data] entries IH]; intros response l s.
  - simpl. intros [= <-]. destruct (items_grow [] response) as [Hp _].
    split; [exact Hp|]. split; [done|]. by intros ?%Exists_nil.
  - cbn [format_entries].
    destruct data as [|item data].
    + cbn [length Nat.ltb Nat.leb]. intros Hr.
      destruct (IH _ _ _ Hr) as (Hp & Hlen & Hstrict).
      split; [done|]. split; [done|].
      intros [Hhead|Htail]%Exists_cons; [|by apply Hstrict].
      by destruct Hhead.
    + cbn [length Nat.ltb Nat.leb]. unfold bind at 1. unfold get_locals at 1.
      unfold bind at 1.
      destruct (entry_display_name name_ToString (assoc type (dataPatterns l)) l s)
        as [[[n|e|] l1] s1]; [|done..].
      intros Hr. destruct (IH _ _ _ Hr) as (Hp & Hlen & _).
      destruct (items_grow (item :: data) (response ++ n ++ ":" ++ newline)%string)
        as [Hp' Hlen'].
      cbv zeta in Hp', Hlen'.
      set (listed := foldl _ _ (item :: data)) in *.
      assert (String.prefix response text = true) as Hprefix.
      { eapply prefix_trans; [apply prefix_append|].
        eapply prefix_trans; [exact Hp'|].
        eapply prefix_trans; [apply prefix_append|exact Hp]. }
      assert (String.length response < String.length text) as Hless.
      { rewrite !length_append in *. cbn [String.length newline] in *. lia. }
      split; [done|]. split; [lia|done].
Qed.

Lemma format_entries_empty entries response l s :
  Forall no_data entries →
  format_entries ToString name_ToString entries response l s
  = (Returned response, l, s).
Proof.
  induction 1 as [|[type data] entries Hdata Hentries IH]; [done|].
  unfold no_data in Hdata. cbn [snd] in Hdata. subst data.
  cbn [format_entries length Nat.ltb Nat.leb]. exact IH.
Qed.

(** X19. The answer says that nothing was found exactly when every list of
    results is empty: then the fixed sentence is returned and nothing is
    read; as soon as one list holds a value, an answer that is returned
    starts with the header and goes on after it. *)
Theorem formatExtractedData_answer results l s :
  (Forall no_data results →
   formatExtractedData ToString name_ToString results l s
   = (Returned nothing_found, l, s)) ∧
  (∀ text, Exists (λ entry, ¬ no_data entry) results →
           outcome_of (formatExtractedData ToString name_ToString results l s)
           = Returned text →
           String.prefix found_header text = true ∧
           String.length found_header < String.length text ∧
           text ≠ nothing_found).
Proof.
  split.
  - intros Hempty. unfold formatExtractedData, bind.
    by rewrite (format_entries_empty results found_header l s Hempty).
  - intros text Hsome. unfold formatExtractedData, bind.
    pose proof (format_entries_grows results found_header l s) as Hgrow.
    destruct (format_entries ToString name_ToString results found_header l s)
      as [[[response|e|] l1] s1]; [|done..].
    destruct (Hgrow response eq_refl) as (Hp & _ & Hstrict).
    specialize (Hstrict Hsome).
    destruct (String.eqb_spec response found_header) as [->|Hne]; [lia|].
    intros [= <-]. split; [done|]. split; [done|].
    intros ->. vm_compute in Hp. discriminate.
Qed.
End Answer.

Lemma formatExtractedData_answer_witness :
  formatExtractedData show_item show_name [("links", []); ("emails", [])]
    {| dataPatterns := links_registry; driver := None |} fresh_process
  = (Returned nothing_found,
     {| dataPatterns := links_registry; driver := None |}, fresh_process).
Proof.
  apply (proj1 (formatExtractedData_answer show_item show_name
                  [("links", []); ("emails", [])]
                  {| dataPatterns := links_registry; driver := None |}
                  fresh_process)).
  repeat (apply List.Forall_cons; [reflexivity|]). apply List.Forall_nil.
Defined.

(** ** Retrying without a driver *)

Section RetryWithoutDriver.
Context {L T : Type}.
Variable env : Env.
Variable operation : M L T.
Variable P : Cmd → Prop.
Hypothesis operation_calls : st_steps (extends_with P) operation.

Lemma retry_from_without_driver maxRetries delay remaining i lastError :
  P (SetTimeout delay) →
  st_steps (extends_with P)
    (retry_from env operation maxRetries delay None remaining i lastError).
Proof.
  intros Htimer. revert i lastError.
  induction remaining as [|remaining IH]; intros i lastError; cbn [retry_from].
  - apply st_steps_throw. apply _.
  - apply st_steps_try_catch; [apply _|exact operation_calls|]. intros error.
    apply st_steps_bind; [apply _| |].
    + destruct error; [apply st_steps_throw|apply st_steps_ret]; apply _.
    + intros n. rewrite andb_false_r.
      destruct (Nat.eqb i (maxRetries - 1)); [apply st_steps_throw; apply _|].
      apply st_steps_bind; [apply _| |intros _; apply IH].
      intros l s. by apply extends_with_event.
Qed.

(** X20. Called without a driver, [retryOperation] adds nothing but the
    waits between two attempts to what the operation itself calls: whatever
    the failures are, stale elements included, the page is not refreshed. *)
Theorem retryOperation_without_driver maxRetries delay l s :
  P (SetTimeout delay) →
  extends_with P s
    (state_of (retryOperation env operation maxRetries delay None l s)).
Proof.
  intros Htimer. by apply retry_from_without_driver.
Qed.
End RetryWithoutDriver.

Lemma retryOperation_without_driver_witness :
  extends_with not_refresh fresh_process
    (state_of (retryOperation (env_stale_reads 2) (call (env_stale_reads 2) (GetText 7))
                 3 1000 None tt fresh_process)).
Proof.
  apply (retryOperation_without_driver (env_stale_reads 2)
           (call (env_stale_reads 2) (GetText 7)) not_refresh).
  - intros l s. unfold call.
    destruct (env_stale_reads 2 (history s) (GetText 7));
      by apply extends_with_event.
  - done.
Defined.

(** ** Extraction without a transform *)

(** X21. For a pattern without a transform, every value that
    [extractDataByPattern] returns is an element of an array of matches as
    it is: a string, or [undefined] for a capture group that took no part in
    its match.  Neither [null], nor an object, nor a promise can be among
    the results. *)
Theorem extraction_without_transform {L} env driver pattern (l : L) s r :
  transform (config pattern) = None →
  outcome_of (extractDataByPattern env driver pattern l s) = Returned r →
  Forall (λ v, (∃ text, v = JsStr text) ∨ v = JsUndefined) r.
Proof.
  intros Hnone.
  apply (extractDataByPattern_returns env pattern
           (Forall (λ v, (∃ text, v = JsStr text) ∨ v = JsUndefined))
           (λ v, (∃ text, v = JsStr text) ∨ v = JsUndefined)).
  - intros v results Hv Hresults. unfold set_add. case_decide; [done|].
    apply Forall_app. split; [done|]. by apply Forall_singleton.
  - intros m results s0 v. unfold transformed. rewrite Hnone.
    intros [= <-]. destruct m; [left; by eexists|by right].
  - apply Forall_nil_2.
Qed.

Lemma extraction_without_transform_witness :
  outcome_of (extractDataByPattern env_letter_b Session optional_group_pattern
                tt fresh_process)
  = Returned [JsStr "b"; JsUndefined] ∧
  Forall (λ v, (∃ text, v = JsStr text) ∨ v = JsUndefined)
    [JsStr "b"; JsUndefined].
Proof.
  assert (outcome_of (extractDataByPattern env_letter_b Session
                        optional_group_pattern tt fresh_process)
          = Returned [JsStr "b"; JsUndefined]) as Hrun
    by (vm_compute; reflexivity).
  split; [exact Hrun|].
  exact (extraction_without_transform env_letter_b Session
           optional_group_pattern tt fresh_process [JsStr "b"; JsUndefined]
           eq_refl Hrun).
Defined.
